(** * PRO SUITE macro engine: binding grammar, binding router, macro executor

    A shallow embedding of the engine part of
    [pro_suite_menu_based_tracking_requirements_controllerfix.py]:
    [parse_hotkey] / [format_hotkey], the two routers
    [_maybe_trigger_kb] / [_maybe_trigger_gp] and the [_act_*] macros of
    [MacroEngine].

    Conventions.
    - A Python [str] is a [string]; the alphabet is 7-bit ASCII, on which
      [str.upper], [str.strip] and [str.isspace] are given below (codes
      above 127 are kept as caseless, non-blank symbols).
    - A [frozenset]/[set] of names is a [gset string], a [dict] with string
      keys a [gmap string _]; [d.get(k, dflt)] is [default dflt (d !! k)] and
      [d[k]] raises [KeyError] when the key is absent.
    - Durations are integers in milliseconds ([Z]); [time.sleep(ms/1000.0)]
      is the event [Sleep ms], raises [ValueError] when [ms] is negative and
      [OverflowError] when it is beyond what the interpreter can sleep.
    - A macro is a computation that threads the engine, appends to a trace
      of output events and may raise. *)

From Stdlib Require Import ZArith Ascii String List Bool Lia.
From Stdlib Require DecimalString DecimalPos DecimalZ.
From stdpp Require Import base option gmap strings list fin_maps sets.

Local Open Scope Z_scope.

(** ** Python string primitives *)

Module Py.

(** [c.isspace()] on ASCII: TAB..CR, FS..US and SPACE. *)
Definition isspace (c : ascii) : bool :=
  let n := N_of_ascii c in
  ((9 <=? n)%N && (n <=? 13)%N) || ((28 <=? n)%N && (n <=? 32)%N).

Definition upper_char (c : ascii) : ascii :=
  let n := N_of_ascii c in
  if ((97 <=? n)%N && (n <=? 122)%N) then ascii_of_N (n - 32) else c.

(** [s.upper()] *)
Fixpoint upper (s : string) : string :=
  match s with
  | EmptyString => EmptyString
  | String c r => String (upper_char c) (upper r)
  end.

(** [s.lstrip()], [s.rstrip()], [s.strip()] *)
Fixpoint lstrip (s : string) : string :=
  match s with
  | EmptyString => EmptyString
  | String c r => if isspace c then lstrip r else s
  end.

Fixpoint rstrip (s : string) : string :=
  match s with
  | EmptyString => EmptyString
  | String c r =>
      match rstrip r with
      | EmptyString => if isspace c then EmptyString else String c EmptyString
      | r' => String c r'
      end
  end.

Definition strip (s : string) : string := rstrip (lstrip s).

(** [s.startswith(p)] *)
Fixpoint startswith (p s : string) : bool :=
  match p, s with
  | EmptyString, _ => true
  | String a p', String b s' => if ascii_dec b a then startswith p' s' else false
  | String _ _, EmptyString => false
  end.

(** [s.replace(a, b)] for one-character [a] and [b]. *)
Fixpoint replace (a b : ascii) (s : string) : string :=
  match s with
  | EmptyString => EmptyString
  | String c r => String (if ascii_dec c a then b else c) (replace a b r)
  end.

(** [s.split(sep)] for a one-character separator: never the empty list. *)
Fixpoint split (sep : ascii) (s : string) : list string :=
  match s with
  | EmptyString => [EmptyString]
  | String c r =>
      if ascii_dec c sep then EmptyString :: split sep r
      else match split sep r with
           | h :: t => String c h :: t
           | [] => [String c EmptyString]
           end
  end.

(** [s.split(sep, 1)]: cut at the first separator, if there is one. *)
Fixpoint split1 (sep : ascii) (s : string) : list string :=
  match s with
  | EmptyString => [EmptyString]
  | String c r =>
      if ascii_dec c sep then [EmptyString; r]
      else match split1 sep r with
           | h :: t => String c h :: t
           | [] => [String c EmptyString]
           end
  end.

(** [sep.join(l)] *)
Fixpoint join (sep : string) (l : list string) : string :=
  match l with
  | [] => EmptyString
  | [x] => x
  | x :: r => x +:+ sep +:+ join sep r
  end.

(** The truth value of a [str]: non-empty. *)
Definition truthy (s : string) : bool :=
  match s with EmptyString => false | _ => true end.

(** Occurrence of a character. *)
Fixpoint has (c : ascii) (s : string) : bool :=
  match s with
  | EmptyString => false
  | String d r => if ascii_dec d c then true else has c r
  end.

(** Trimmed strings: the first and the last character are not blank. *)
Definition first_ok (s : string) : bool :=
  match s with EmptyString => false | String c _ => negb (isspace c) end.

Fixpoint last_ok (s : string) : bool :=
  match s with
  | EmptyString => false
  | String c EmptyString => negb (isspace c)
  | String _ r => last_ok r
  end.

End Py.

(** ** Exceptions *)

Inductive exn : Type :=
| KeyError (k : string)
| ValueError
| IndexError
| OverflowError.

Definition result (A : Type) : Type := exn + A.

(** ** Binding grammar *)

Inductive kind : Type := kb | gp.

#[global] Instance kind_eq_dec : EqDecision kind.
Proof. solve_decision. Defined.

(** The tuple [(kind, mods, key)] returned by [parse_hotkey]. *)
Record trigger : Type := Trigger {
  t_kind : kind;
  t_mods : gset string;
  t_key : string
}.

Definition MOD_NAMES : gset string := {[ "CTRL"; "ALT"; "SHIFT"; "WIN" ]}.

Definition is_gamepad_hotkey (s : string) : bool :=
  Py.startswith "GP:" (Py.upper (Py.strip s)).

(** The [if]/[elif] chain of the loop body of [parse_hotkey]: the canonical
    modifier a part names, if it names one. *)
Definition modifier_of (p : string) : option string :=
  if bool_decide (p = "CONTROL" ∨ p = "CTRL") then Some "CTRL"
  else if bool_decide (p = "ALT") then Some "ALT"
  else if bool_decide (p = "SHIFT") then Some "SHIFT"
  else if bool_decide (p = "WIN" ∨ p = "WINDOWS" ∨ p = "SUPER" ∨ p = "META")
       then Some "WIN"
  else None.

(** [[p.strip().upper() for p in s.replace("-", "+").split("+") if p.strip()]] *)
Definition kb_parts (s : string) : list string :=
  map (fun p => Py.upper (Py.strip p))
      (filter (fun p => Py.truthy (Py.strip p) = true)
              (Py.split "+" (Py.replace "-" "+" s))).

(** The [for p in parts] loop, on the pair [(mods, key)]. *)
Fixpoint parse_loop (parts : list string) (mods : gset string) (key : string)
  : gset string * string :=
  match parts with
  | [] => (mods, key)
  | p :: rest =>
      match modifier_of p with
      | Some m => parse_loop rest ({[ m ]} ∪ mods) key
      | None => parse_loop rest mods p
      end
  end.

Definition parse_hotkey (s0 : string) : result trigger :=
  let s := Py.strip s0 in
  if negb (Py.truthy s) then inr (Trigger kb ∅ "")
  else if is_gamepad_hotkey s then
    match Py.split1 ":" s !! 1%nat with
    | Some rest => inr (Trigger gp ∅ (Py.upper (Py.strip rest)))
    | None => inl IndexError
    end
  else
    let parts := kb_parts s in
    let '(mods, key) := parse_loop parts ∅ "" in
    let key := if negb (Py.truthy key) && negb (bool_decide (parts = []))
               then List.last parts "" else key in
    inr (Trigger kb mods key).

Definition format_hotkey (mods : gset string) (key : string) : string :=
  let nice :=
    (if bool_decide ("CTRL" ∈ mods) then ["Ctrl"] else []) ++
    (if bool_decide ("ALT" ∈ mods) then ["Alt"] else []) ++
    (if bool_decide ("SHIFT" ∈ mods) then ["Shift"] else []) ++
    (if bool_decide ("WIN" ∈ mods) then ["Win"] else []) ++
    (let k := Py.upper key in if Py.truthy k then [k] else []) in
  Py.join "+" nice.

(** [display_hotkey]: what the menu shows for a stored binding. *)
Definition display_hotkey (raw0 : string) : result string :=
  let raw := Py.strip raw0 in
  if Py.startswith "GP:" (Py.upper raw) then
    match Py.split1 ":" raw !! 1%nat with
    | Some rest => inr (Py.upper (Py.strip rest))
    | None => inl IndexError
    end
  else inr raw.


(** *** Vocabulary for statements about the grammar *)

(** The labels [format_hotkey] collects before the key. *)
Definition mod_labels (mods : gset string) : list string :=
  (if bool_decide ("CTRL" ∈ mods) then ["Ctrl"] else []) ++
  (if bool_decide ("ALT" ∈ mods) then ["Alt"] else []) ++
  (if bool_decide ("SHIFT" ∈ mods) then ["Shift"] else []) ++
  (if bool_decide ("WIN" ∈ mods) then ["Win"] else []).

(** A string that survives [strip] and the split on ['+'] / ['-'] unchanged. *)
Definition clean (p : string) : Prop :=
  Py.first_ok p = true ∧ Py.last_ok p = true ∧
  Py.has "+" p = false ∧ Py.has "-" p = false.

(** What every element of [kb_parts s] looks like. *)
Definition part_ok (p : string) : Prop := clean p ∧ Py.upper p = p.

(** What every keyboard trigger returned by [parse_hotkey] looks like. *)
Definition valid_kb (t : trigger) : Prop :=
  t_kind t = kb ∧ t_mods t ⊆ MOD_NAMES ∧
  ((t_key t = "" ∧ t_mods t = ∅) ∨
   (part_ok (t_key t) ∧ ∀ m, modifier_of (t_key t) = Some m → m ∈ t_mods t)).

(** Trigger equality of the data model: same kind, same modifier set, same
    symbol up to case. *)
Definition trigger_eq (t1 t2 : trigger) : Prop :=
  t_kind t1 = t_kind t2 ∧ t_mods t1 = t_mods t2 ∧
  Py.upper (t_key t1) = Py.upper (t_key t2).

(** [format] of the data model, on a trigger: [format_hotkey] has no kind
    argument, so the kind is dropped. *)
Definition format (t : trigger) : string := format_hotkey (t_mods t) (t_key t).

(** ** Engine state *)

(** The configuration dictionary [state]: each section may be absent. *)
Record config : Type := Config {
  cfg_global_enabled : option bool;
  cfg_features : option (gmap string bool);
  cfg_hotkeys : option (gmap string string);
  cfg_timings : option (gmap string Z)
}.

(** [MacroEngine]: the fields the router and the macros read or write. *)
Record engine : Type := Engine {
  state : config;
  kb_pressed : gset string;
  kb_mods : gset string;
  gp_pressed : gset string;
  kill : bool;
  running_hold : gmap string bool;
  capture_mode : bool;
  on_toggle_all : bool   (* is an observer registered? *)
}.

(** [state.get("global_enabled", True)] *)
Definition global_enabled (e : engine) : bool :=
  default true (cfg_global_enabled (state e)).

(** [state.get("features", {}).get(f, True)] *)
Definition feature_enabled (e : engine) (f : string) : bool :=
  default true (default ∅ (cfg_features (state e)) !! f).

(** [state.get("hotkeys", {}).get(a, dflt)] *)
Definition hotkey_of (e : engine) (a dflt : string) : string :=
  default dflt (default ∅ (cfg_hotkeys (state e)) !! a).

Definition set_global_enabled (b : bool) (e : engine) : engine :=
  Engine (Config (Some b) (cfg_features (state e)) (cfg_hotkeys (state e))
                 (cfg_timings (state e)))
         (kb_pressed e) (kb_mods e) (gp_pressed e) (kill e) (running_hold e)
         (capture_mode e) (on_toggle_all e).

Definition set_kill (b : bool) (e : engine) : engine :=
  Engine (state e) (kb_pressed e) (kb_mods e) (gp_pressed e) b (running_hold e)
         (capture_mode e) (on_toggle_all e).

Definition set_running_hold (a : string) (b : bool) (e : engine) : engine :=
  Engine (state e) (kb_pressed e) (kb_mods e) (gp_pressed e) (kill e)
         (<[a := b]> (running_hold e)) (capture_mode e) (on_toggle_all e).

Definition set_kb (pressed mods : gset string) (e : engine) : engine :=
  Engine (state e) pressed mods (gp_pressed e) (kill e) (running_hold e)
         (capture_mode e) (on_toggle_all e).

Definition set_gp_pressed (pressed : gset string) (e : engine) : engine :=
  Engine (state e) (kb_pressed e) (kb_mods e) pressed (kill e) (running_hold e)
         (capture_mode e) (on_toggle_all e).

(** ** Actions *)

Inductive action : Type :=
| toggle_all | stall | speedflip | straightdash | turningdash | emergency | exit.

#[global] Instance action_eq_dec : EqDecision action.
Proof. solve_decision. Defined.

(** The key of an action in [hotkeys], [features] and [_running_hold]. *)
Definition action_name (a : action) : string :=
  match a with
  | toggle_all => "toggle_all"
  | stall => "stall"
  | speedflip => "speedflip"
  | straightdash => "straightdash"
  | turningdash => "turningdash"
  | emergency => "emergency"
  | exit => "exit"
  end.

(** The keys of the [actions] dictionary of both routers, in insertion order. *)
Definition ACTIONS : list action :=
  [toggle_all; stall; speedflip; straightdash; turningdash; emergency; exit].

(** [action in ("toggle_all", "emergency", "exit")] *)
Definition ungated (a : action) : bool :=
  match a with toggle_all | emergency | exit => true | _ => false end.

(** [action in ("straightdash", "turningdash")] *)
Definition is_hold (a : action) : bool :=
  match a with straightdash | turningdash => true | _ => false end.

(** ** Binding router *)

(** The three [continue] tests of [_maybe_trigger_kb] for one action. *)
Definition matches_kb (e : engine) (name : string) (t : trigger) : bool :=
  bool_decide (t_kind t = kb) && Py.truthy (t_key t) &&
  bool_decide (Py.upper name = Py.upper (t_key t)) &&
  bool_decide (t_mods t ⊆ kb_mods e).

(** The two [continue] tests of [_maybe_trigger_gp] for one action. *)
Definition matches_gp (tok : string) (t : trigger) : bool :=
  bool_decide (t_kind t = gp) && Py.truthy (t_key t) &&
  bool_decide (tok = Py.upper ("GP:" +:+ t_key t)).

(** What the loop body does once an action matched: both gates [return]
    without a task, otherwise the thread of the action is started. *)
Definition gate (e : engine) (a : action) : option action :=
  if negb (ungated a) && negb (global_enabled e) then None
  else if is_hold a && default false (running_hold e !! action_name a) then None
  else Some a.

(** [for action, fn in actions.items(): ...]; the result is the action whose
    thread is started, if any. *)
Fixpoint scan (matches : trigger -> bool) (e : engine) (acts : list action)
  : result (option action) :=
  match acts with
  | [] => inr None
  | a :: rest =>
      match parse_hotkey (hotkey_of e (action_name a) "") with
      | inl x => inl x
      | inr t => if matches t then inr (gate e a) else scan matches e rest
      end
  end.

Definition maybe_trigger_kb (e : engine) (name : string) : result (option action) :=
  if capture_mode e then inr None else scan (matches_kb e name) e ACTIONS.

Definition maybe_trigger_gp (e : engine) (tok : string) : result (option action) :=
  if capture_mode e then inr None else scan (matches_gp tok) e ACTIONS.

(** ** Token delivery *)

(** [sub in s] *)
Fixpoint contains (sub s : string) : bool :=
  Py.startswith sub s ||
  match s with
  | EmptyString => false
  | String _ r => contains sub r
  end.

Definition set_member (name : string) (on : bool) (s : gset string) : gset string :=
  if on then {[ name ]} ∪ s else s ∖ {[ name ]}.

Definition update_kb_mods (name : string) (down : bool) (mods : gset string)
  : gset string :=
  let n := Py.upper name in
  let is_ctrl := contains "CTRL" n || contains "CONTROL" n in
  let is_alt := contains "ALT" n in
  let is_shift := contains "SHIFT" n in
  let is_win := contains "WIN" n || contains "SUPER" n || contains "META" n
                || contains "CMD" n in
  let m1 := if is_ctrl then set_member "CTRL" down mods else mods in
  let m2 := if is_alt then set_member "ALT" down m1 else m1 in
  let m3 := if is_shift then set_member "SHIFT" down m2 else m2 in
  if is_win then set_member "WIN" down m3 else m3.

(** What a token handler hands back: whether the listener keeps running
    ([_on_press] returns [False] to stop it), the engine, and the router's
    decision. *)
Record delivery : Type := Delivery {
  keep_listening : bool;
  after : engine;
  dispatched : result (option action)
}.

(** [_on_press], on the key name [_key_name(key)]. *)
Definition on_press (e : engine) (name : string) : delivery :=
  if kill e then Delivery false e (inr None)
  else if negb (Py.truthy name) then Delivery true e (inr None)
  else
    let mods := update_kb_mods name true (kb_mods e) in
    let pressed := if bool_decide (name ∈ MOD_NAMES) then kb_pressed e
                   else {[ name ]} ∪ kb_pressed e in
    let e' := set_kb pressed mods e in
    Delivery true e' (maybe_trigger_kb e' name).

Definition on_release (e : engine) (name : string) : engine :=
  if negb (Py.truthy name) then e
  else set_kb (kb_pressed e ∖ {[ name ]}) (update_kb_mods name false (kb_mods e)) e.

Definition on_gamepad_press (e : engine) (tok0 : string) : delivery :=
  if kill e then Delivery true e (inr None)
  else
    let tok := Py.upper tok0 in
    let e' := set_gp_pressed ({[ tok ]} ∪ gp_pressed e) e in
    Delivery true e' (maybe_trigger_gp e' tok).

Definition on_gamepad_release (e : engine) (tok : string) : engine :=
  set_gp_pressed (gp_pressed e ∖ {[ Py.upper tok ]}) e.

(** ** Macro executor *)

(** What a macro sends to the operating system or writes where other
    threads look. *)
Inductive event : Type :=
| KeyDown (name : string)      (* key_down(name) *)
| KeyUp (name : string)        (* key_up(name) *)
| MouseRight (down : bool)     (* mouse_right(down) *)
| Sleep (ms : Z)               (* time.sleep(ms / 1000.0) *)
| Beep (hi : bool)             (* self._beep(hi) *)
| RegSave                      (* _reg_save(self.state) *)
| ToggleNotify (on : bool)     (* self.on_toggle_all(on) *)
| SetKill (b : bool)           (* self._kill.set() / self._kill.clear() *)
| ProcessExit.                 (* os._exit(0) *)

#[global] Instance event_eq_dec : EqDecision event.
Proof. solve_decision. Defined.

(** How far a macro got: it returned, it raised, or it is still inside its
    hold loop when the observed polls end. *)
Inductive outcome (A : Type) : Type :=
| Returned (a : A)
| Raised (x : exn)
| Running.
Arguments Returned {A} a.
Arguments Raised {A} x.
Arguments Running {A}.

Definition M (A : Type) : Type := engine -> outcome A * engine * list event.

Definition ret {A} (a : A) : M A := fun e => (Returned a, e, []).

Definition bind {A B} (m : M A) (f : A -> M B) : M B :=
  fun e =>
    match m e with
    | (Returned a, e1, t1) => let '(r, e2, t2) := f a e1 in (r, e2, t1 ++ t2)
    | (Raised x, e1, t1) => (Raised x, e1, t1)
    | (Running, e1, t1) => (Running, e1, t1)
    end.

#[global] Instance M_ret : MRet M := @ret.
#[global] Instance M_bind : MBind M := fun A B f m => bind m f.

Definition raise {A} (x : exn) : M A := fun e => (Raised x, e, []).
Definition running {A} : M A := fun e => (Running, e, []).
Definition emit (ev : event) : M unit := fun e => (Returned tt, e, [ev]).
Definition get : M engine := fun e => (Returned e, e, []).
Definition modify (f : engine -> engine) : M unit := fun e => (Returned tt, f e, []).

Definition lift {A} (r : result A) : M A :=
  match r with inl x => raise x | inr a => ret a end.

(** [try: body finally: cleanup]: the cleanup runs when the body returned
    and when it raised, and the body's outcome stands unless the cleanup
    itself raises. *)
Definition finally {A} (body : M A) (cleanup : M unit) : M A :=
  fun e =>
    match body e with
    | (Running, e1, t1) => (Running, e1, t1)
    | (r, e1, t1) =>
        match cleanup e1 with
        | (Returned _, e2, t2) => (r, e2, t1 ++ t2)
        | (Raised x, e2, t2) => (Raised x, e2, t1 ++ t2)
        | (Running, e2, t2) => (Running, e2, t1 ++ t2)
        end
    end.

Definition key_down (name : string) : M unit := emit (KeyDown name).
Definition key_up (name : string) : M unit := emit (KeyUp name).
Definition mouse_right (down : bool) : M unit := emit (MouseRight down).

(** The longest sleep in milliseconds: the interpreter (CPython 3.11) keeps
    a length as a signed 64-bit count of nanoseconds. *)
Definition SLEEP_MAX_MS : Z := 9223372036854.

(** [time.sleep(ms / 1000.0)]: a negative length raises [ValueError], and a
    length of [2^63] ns or more raises [OverflowError] (as [ms / 1000.0]
    itself does once [ms] is beyond the floats). *)
Definition sleep (ms : Z) : M unit :=
  if ms <? 0 then raise ValueError
  else if SLEEP_MAX_MS <? ms then raise OverflowError
  else emit (Sleep ms).

(** [d[k]] *)
Definition item {V} (d : gmap string V) (k : string) : M V :=
  match d !! k with Some v => ret v | None => raise (KeyError k) end.

(** [self.state["timings"][k]] *)
Definition timing (k : string) : M Z :=
  e ← get;
  match cfg_timings (state e) with
  | Some tm => item tm k
  | None => raise (KeyError "timings")
  end.

Definition release_all_outputs : M unit :=
  key_up "W";; key_up "A";; key_up "S";; key_up "D";;
  key_up "Q";; key_up "E";; key_up "I";; key_up "LShift";;
  mouse_right false.

Definition act_toggle_all : M unit :=
  e ← get;
  let on := negb (global_enabled e) in
  modify (set_global_enabled on);;
  emit RegSave;;
  emit (Beep on);;
  if on_toggle_all e then emit (ToggleNotify on) else ret tt.

Definition act_exit : M unit :=
  modify (set_kill true);; emit (SetKill true);;
  release_all_outputs;;
  emit ProcessExit.

Definition act_emergency : M unit :=
  modify (set_kill true);; emit (SetKill true);;
  release_all_outputs;;
  emit (Beep false);;
  emit (Sleep 150);;
  modify (set_kill false);; emit (SetKill false).

Definition act_stall : M unit :=
  e ← get;
  if negb (global_enabled e) then ret tt
  else if negb (feature_enabled e "stall") then ret tt
  else
    t ← timing "stall_click_ms";
    key_down "Q";; key_down "D";;
    mouse_right true;; sleep (Z.max 0 t);; mouse_right false;;
    key_up "D";; key_up "Q".

Definition act_speedflip : M unit :=
  e ← get;
  if negb (global_enabled e) then ret tt
  else if negb (feature_enabled e "speedflip") then ret tt
  else
    let tm := default ∅ (cfg_timings (state e)) in
    a_hold ← item tm "sf_a_hold_ms";
    wait_before ← item tm "sf_wait_before_jump_ms";
    s_dur ← item tm "sf_s_hold_ms";
    d_dur ← item tm "sf_d_hold_ms";
    airroll ← item tm "sf_airroll_time_ms";
    shift_start ← item tm "sf_shift_start_ms";
    shift_dur ← item tm "sf_shift_duration_ms";
    prejump ← item tm "sf_prejump_ms";
    click_down ← item tm "sf_click_down_ms";
    between_jumps ← item tm "sf_between_jumps_ms";
    post_shift ← item tm "sf_post_shift_ms";

    key_down "I";; key_down "A";;
    sleep a_hold;;
    key_up "A";;
    sleep wait_before;;

    key_up "W";; key_up "S";; key_up "E";; key_up "Q";;
    key_down "E";; key_down "W";;
    sleep prejump;;

    mouse_right true;; sleep click_down;; mouse_right false;;
    sleep between_jumps;;
    mouse_right true;; sleep click_down;; mouse_right false;;

    key_up "W";; key_down "S";; key_down "D";;

    (if s_dur <? d_dur then
       sleep s_dur;;
       key_up "S";; key_down "W";;
       sleep (d_dur - s_dur);;
       key_up "D"
     else
       sleep d_dur;;
       key_up "D";;
       sleep (s_dur - d_dur);;
       key_up "S";; key_down "W");;

    let max_hold := Z.max s_dur d_dur in
    let time_until_e := airroll - max_hold in
    (if 0 <? time_until_e then sleep time_until_e else ret tt);;
    key_up "E";;

    let time_until_shift := shift_start - Z.max airroll max_hold in
    (if 0 <? time_until_shift then sleep time_until_shift else ret tt);;

    key_down "LShift";; sleep shift_dur;; key_up "LShift";;
    sleep post_shift;;
    key_up "I".

(** [_hold_active], read from the engine as it is at the poll. *)
Definition hold_active (p : engine) (k : kind) (key_or_btn : string) : bool :=
  match k with
  | kb => bool_decide (Py.upper key_or_btn ∈ kb_pressed p)
  | gp => bool_decide (Py.upper ("GP:" +:+ key_or_btn) ∈ gp_pressed p)
  end.

(** The [while] loop of a hold action.  Its tests read what other threads
    write (kill flag, pressed tokens, configuration), so each iteration
    reads them from the next element of [polls], the engine as it is when
    that iteration starts; when [polls] is used up the loop is still
    running. *)
Fixpoint hold_loop (feature : string) (cycle : M unit) (k : kind)
    (key_req : string) (polls : list engine) : M unit :=
  match polls with
  | [] => running
  | p :: rest =>
      if negb (negb (kill p) && hold_active p k key_req) then ret tt
      else if negb (global_enabled p) || negb (feature_enabled p feature) then ret tt
      else cycle;; hold_loop feature cycle k key_req rest
  end.

Definition act_straightdash_hold (polls : list engine) : M unit :=
  modify (set_running_hold "straightdash" true);;
  finally
    (e ← get;
     t ← lift (parse_hotkey (hotkey_of e "straightdash" "V"));
     down_ms ← timing "sd_click_down_ms";
     gap_ms ← timing "sd_between_clicks_ms";
     hold_loop "straightdash"
       (key_down "W";; key_down "Q";;
        mouse_right true;; sleep down_ms;; mouse_right false;;
        sleep gap_ms;;
        mouse_right true;; sleep down_ms;; mouse_right false;;
        sleep 1)
       (t_kind t) (t_key t) polls)
    (key_up "Q";; key_up "W";;
     modify (set_running_hold "straightdash" false)).

Definition act_turningdash_hold (polls : list engine) : M unit :=
  modify (set_running_hold "turningdash" true);;
  finally
    (e ← get;
     t ← lift (parse_hotkey (hotkey_of e "turningdash" "N"));
     pre_ms ← timing "td_pre_ms";
     down_ms ← timing "td_click_down_ms";
     gap_ms ← timing "td_between_clicks_ms";
     hold_loop "turningdash"
       (key_down "W";; key_down "Q";; key_down "D";;
        sleep pre_ms;;
        key_up "D";; key_down "A";;
        mouse_right true;; sleep down_ms;; mouse_right false;;
        sleep gap_ms;;
        mouse_right true;; sleep down_ms;; mouse_right false;;
        key_up "A";;
        sleep 1)
       (t_kind t) (t_key t) polls)
    (key_up "A";; key_up "D";; key_up "Q";; key_up "W";;
     modify (set_running_hold "turningdash" false)).

(** The [actions] dictionary: the function an action name stands for. *)
Definition run_action (a : action) (polls : list engine) : M unit :=
  match a with
  | toggle_all => act_toggle_all
  | stall => act_stall
  | speedflip => act_speedflip
  | straightdash => act_straightdash_hold polls
  | turningdash => act_turningdash_hold polls
  | emergency => act_emergency
  | exit => act_exit
  end.

(** ** Initial values *)

(** [DEFAULTS] (without the telemetry section, which the engine never reads). *)
Definition DEFAULT_TIMINGS : gmap string Z :=
  list_to_map
    [("stall_click_ms", 3); ("sf_a_hold_ms", 80); ("sf_wait_before_jump_ms", 20);
     ("sf_s_hold_ms", 690); ("sf_d_hold_ms", 720); ("sf_airroll_time_ms", 799);
     ("sf_shift_start_ms", 840); ("sf_shift_duration_ms", 130);
     ("sf_prejump_ms", 20); ("sf_click_down_ms", 20);
     ("sf_between_jumps_ms", 40); ("sf_post_shift_ms", 50);
     ("sd_click_down_ms", 15); ("sd_between_clicks_ms", 25);
     ("td_pre_ms", 10); ("td_click_down_ms", 15); ("td_between_clicks_ms", 25)].

Definition DEFAULT_FEATURES : gmap string bool :=
  list_to_map
    [("stall", true); ("speedflip", true); ("straightdash", true);
     ("turningdash", true)].

Definition DEFAULT_HOTKEYS : gmap string string :=
  list_to_map
    [("toggle_all", "F6"); ("stall", "F"); ("speedflip", "H");
     ("straightdash", "V"); ("turningdash", "N"); ("emergency", "L");
     ("exit", "F10")].

Definition DEFAULTS : config :=
  Config (Some true) (Some DEFAULT_FEATURES) (Some DEFAULT_HOTKEYS)
         (Some DEFAULT_TIMINGS).

(** [MacroEngine.__init__] *)
Definition new_engine (st : config) : engine :=
  Engine st ∅ ∅ ∅ false
         (list_to_map [("straightdash", false); ("turningdash", false)])
         false false.

(** ** Vocabulary for statements about the router and the macros *)

(** A string of blanks only. *)
Fixpoint blank (s : string) : bool :=
  match s with
  | EmptyString => true
  | String c r => Py.isspace c && blank r
  end.

(** The round-trip law at the input [s]. *)
Definition round_trip (s : string) : Prop :=
  ∀ t, parse_hotkey s = inr t →
       ∃ t', parse_hotkey (format t) = inr t' ∧ trigger_eq t' t.

(** The '+'/'-'-separated tokens of a keyboard binding, before blank ones are
    dropped. *)
Definition raw_tokens (s : string) : list string :=
  Py.split "+" (Py.replace "-" "+" (Py.strip s)).

(** The trigger stored for an action. *)
Definition binding (e : engine) (a : action) : result trigger :=
  parse_hotkey (hotkey_of e (action_name a) "").

Definition action_matches (matches : trigger -> bool) (e : engine) (a : action)
  : bool :=
  match binding e a with inr t => matches t | inl _ => false end.

(** The first action, in declaration order, whose trigger matches. *)
Definition first_match (matches : trigger -> bool) (e : engine) : option action :=
  List.find (action_matches matches e) ACTIONS.

(** Position in the declaration order. *)
Definition rank (a : action) : nat :=
  match a with
  | toggle_all => 0 | stall => 1 | speedflip => 2 | straightdash => 3
  | turningdash => 4 | emergency => 5 | exit => 6
  end%nat.

Definition outcome_of {A} (m : M A) (e : engine) : outcome A := fst (fst (m e)).
Definition engine_of {A} (m : M A) (e : engine) : engine := snd (fst (m e)).
Definition trace_of {A} (m : M A) (e : engine) : list event := snd (m e).

(** Events that reach [SendInput]. *)
Definition is_synthetic (ev : event) : bool :=
  match ev with KeyDown _ | KeyUp _ | MouseRight _ => true | _ => false end.

(** Events that press something. *)
Definition is_press (ev : event) : bool :=
  match ev with KeyDown _ | MouseRight true => true | _ => false end.

(** The keys of the sweep in [_release_all_outputs]. *)
Definition RELEASE_KEYS : list string :=
  ["W"; "A"; "S"; "D"; "Q"; "E"; "I"; "LShift"].

(** Every event of every run of [m] satisfies [P]. *)
Definition emits_only {A} (P : event -> Prop) (m : M A) : Prop :=
  ∀ e, Forall P (trace_of m e).

(** No run of [m] changes the engine. *)
Definition keeps_engine {A} (m : M A) : Prop := ∀ e, engine_of m e = e.


(** The test that ends a hold loop at the poll [p]. *)
Definition stops (feature : string) (t : trigger) (p : engine) : bool :=
  negb (negb (kill p) && hold_active p (t_kind t) (t_key t))
  || negb (global_enabled p) || negb (feature_enabled p feature).

(** Every key-down of the trace is followed by a key-up of the same key. *)
Definition all_released (tr : list event) : Prop :=
  ∀ (i : nat) k, tr !! i = Some (KeyDown k) →
                 ∃ j : nat, (i < j)%nat ∧ tr !! j = Some (KeyUp k).

(** Tokens as the sources deliver them. *)
Inductive token : Type :=
| KbPress (name : string)
| KbRelease (name : string)
| GpPress (tok : string)
| GpRelease (tok : string).

(** One delivery: the engine afterwards and what the router started. *)
Definition deliver (e : engine) (tk : token) : engine * result (option action) :=
  match tk with
  | KbPress n => let d := on_press e n in (after d, dispatched d)
  | KbRelease n => (on_release e n, inr None)
  | GpPress t => let d := on_gamepad_press e t in (after d, dispatched d)
  | GpRelease t => (on_gamepad_release e t, inr None)
  end.

(** A sequence of deliveries with no macro thread changing the engine in
    between: the engine at the end and the decisions of the router. *)
Fixpoint deliver_all (e : engine) (tks : list token)
  : engine * list (result (option action)) :=
  match tks with
  | [] => (e, [])
  | tk :: rest =>
      let '(e1, d) := deliver e tk in
      let '(e2, ds) := deliver_all e1 rest in
      (e2, d :: ds)
  end.

(** The same with the keyboard listener in view.  pynput ends a listener
    whose callback returns [False], and [start_keyboard_listener] starts
    one only while [_listener] is unset, which it stays from the first
    start on: once [_on_press] has returned [False] no key token reaches
    the engine any more.  [alive] says whether the listener still runs;
    controller tokens come from the adapters' threads and always arrive. *)
Fixpoint listen (alive : bool) (e : engine) (tks : list token)
  : bool * engine * list (result (option action)) :=
  match tks with
  | [] => (alive, e, [])
  | tk :: rest =>
      let '(alive1, e1, d) :=
        match tk with
        | KbPress n =>
            if alive then
              let dl := on_press e n in (keep_listening dl, after dl, dispatched dl)
            else (false, e, inr None)
        | KbRelease n =>
            if alive then (true, on_release e n, inr None) else (false, e, inr None)
        | GpPress t =>
            let dl := on_gamepad_press e t in (alive, after dl, dispatched dl)
        | GpRelease t => (alive, on_gamepad_release e t, inr None)
        end in
      let '(alive2, e2, ds) := listen alive1 e1 rest in
      (alive2, e2, d :: ds)
  end.

(** Key-downs are limited to [keys]; anything else may be emitted. *)
Definition pressed_in (keys : list string) (ev : event) : bool :=
  match ev with KeyDown k => bool_decide (k ∈ keys) | _ => true end.

(** The keyboard and mouse as the operating system sees them after a
    trace: the keys that are down and whether the right button is down. *)
Definition held : Type := gset string * bool.

Definition apply_event (h : held) (ev : event) : held :=
  match ev with
  | KeyDown k => ({[ k ]} ∪ h.1, h.2)
  | KeyUp k => (h.1 ∖ {[ k ]}, h.2)
  | MouseRight b => (h.1, b)
  | _ => h
  end.

Definition held_after (tr : list event) (h : held) : held :=
  fold_left apply_event tr h.

(** The events of [_release_all_outputs]. *)
Definition SWEEP : list event := map KeyUp RELEASE_KEYS ++ [MouseRight false].


(** *** SpeedFlip *)

(** The eleven timing parameters [_act_speedflip] reads. *)
Record sf_timings : Type := SfTimings {
  a_hold : Z; wait_before : Z; s_dur : Z; d_dur : Z; airroll : Z;
  shift_start : Z; shift_dur : Z; prejump : Z; click_down : Z;
  between_jumps : Z; post_shift : Z
}.

(** The timing dictionary holds the eleven parameters [p]. *)
Definition sf_reads (tm : gmap string Z) (p : sf_timings) : Prop :=
  tm !! "sf_a_hold_ms" = Some (a_hold p) ∧
  tm !! "sf_wait_before_jump_ms" = Some (wait_before p) ∧
  tm !! "sf_s_hold_ms" = Some (s_dur p) ∧
  tm !! "sf_d_hold_ms" = Some (d_dur p) ∧
  tm !! "sf_airroll_time_ms" = Some (airroll p) ∧
  tm !! "sf_shift_start_ms" = Some (shift_start p) ∧
  tm !! "sf_shift_duration_ms" = Some (shift_dur p) ∧
  tm !! "sf_prejump_ms" = Some (prejump p) ∧
  tm !! "sf_click_down_ms" = Some (click_down p) ∧
  tm !! "sf_between_jumps_ms" = Some (between_jumps p) ∧
  tm !! "sf_post_shift_ms" = Some (post_shift p).

(** The durations that are slept as they are must not be negative. *)
Definition sf_nonneg (p : sf_timings) : Prop :=
  0 <= a_hold p ∧ 0 <= wait_before p ∧ 0 <= prejump p ∧ 0 <= click_down p ∧
  0 <= between_jumps p ∧ 0 <= s_dur p ∧ 0 <= d_dur p ∧ 0 <= shift_dur p ∧
  0 <= post_shift p.

(** Every length the macro sleeps is one [time.sleep] takes: the nine
    durations slept as they are, and the two waits. *)
Definition sf_bounded (p : sf_timings) : Prop :=
  a_hold p <= SLEEP_MAX_MS ∧ wait_before p <= SLEEP_MAX_MS ∧
  prejump p <= SLEEP_MAX_MS ∧ click_down p <= SLEEP_MAX_MS ∧
  between_jumps p <= SLEEP_MAX_MS ∧ s_dur p <= SLEEP_MAX_MS ∧
  d_dur p <= SLEEP_MAX_MS ∧ shift_dur p <= SLEEP_MAX_MS ∧
  post_shift p <= SLEEP_MAX_MS ∧
  airroll p - Z.max (s_dur p) (d_dur p) <= SLEEP_MAX_MS ∧
  shift_start p - Z.max (airroll p) (Z.max (s_dur p) (d_dur p)) <= SLEEP_MAX_MS.

(** Up to the two jumps and the release of W. *)
Definition sf_prelude (p : sf_timings) : list event :=
  [KeyDown "I"; KeyDown "A"; Sleep (a_hold p); KeyUp "A"; Sleep (wait_before p);
   KeyUp "W"; KeyUp "S"; KeyUp "E"; KeyUp "Q"; KeyDown "E"; KeyDown "W";
   Sleep (prejump p);
   MouseRight true; Sleep (click_down p); MouseRight false;
   Sleep (between_jumps p);
   MouseRight true; Sleep (click_down p); MouseRight false;
   KeyUp "W"].

(** Up to the moment both S and D are down. *)
Definition sf_opening (p : sf_timings) : list event :=
  sf_prelude p ++ [KeyDown "S"; KeyDown "D"].

(** The shift pulse and the last release. *)
Definition sf_closing (p : sf_timings) : list event :=
  [KeyDown "LShift"; Sleep (shift_dur p); KeyUp "LShift"; Sleep (post_shift p);
   KeyUp "I"].

(** A wait that is slept only when it is positive. *)
Definition wait (ms : Z) : list event := if 0 <? ms then [Sleep ms] else [].

(** The time a trace sleeps. *)
Definition sleep_total (tr : list event) : Z :=
  fold_right (fun ev acc => match ev with Sleep ms => ms + acc | _ => acc end) 0 tr.

(** No run of [m] is left inside a loop. *)
Definition finishes {A} (m : M A) : Prop := ∀ e, outcome_of m e ≠ Running.

(** The two ways [_act_speedflip] lets go of S and D. *)
Definition sf_release_s_first (p : sf_timings) : list event :=
  [Sleep (s_dur p); KeyUp "S"; KeyDown "W"; Sleep (d_dur p - s_dur p); KeyUp "D"].

Definition sf_release_d_first (p : sf_timings) : list event :=
  [Sleep (d_dur p); KeyUp "D"; Sleep (s_dur p - d_dur p); KeyUp "S"; KeyDown "W"].

(** The timing parameters of [DEFAULTS]. *)
Definition DEFAULT_SF : sf_timings :=
  SfTimings 80 20 690 720 799 840 130 20 20 40 50.

(** ** Vocabulary for further statements about the engine *)

(** What the keyboard handlers keep true of the two keyboard sets: only
    the four canonical modifiers are in [_kb_mods], and none of their names
    is in [_kb_pressed]. *)
Definition tracked_ok (e : engine) : Prop :=
  kb_mods e ⊆ MOD_NAMES ∧ ∀ m, m ∈ MOD_NAMES → m ∉ kb_pressed e.

(** The engine apart from the configuration. *)
Definition same_runtime (e1 e2 : engine) : Prop :=
  kb_pressed e1 = kb_pressed e2 ∧ kb_mods e1 = kb_mods e2 ∧
  gp_pressed e1 = gp_pressed e2 ∧ running_hold e1 = running_hold e2 ∧
  capture_mode e1 = capture_mode e2 ∧ on_toggle_all e1 = on_toggle_all e2.

(** The binding text a hold action reads for itself: [hotkeys.get(name, "V")]
    and [hotkeys.get(name, "N")]. *)
Definition hold_binding (e : engine) (a : action) : string :=
  hotkey_of e (action_name a)
            (match a with straightdash => "V" | turningdash => "N" | _ => "" end).

(** No run of [m] changes the configuration. *)
Definition keeps_state {A} (m : M A) : Prop :=
  ∀ e, state (engine_of m e) = state e.

(** ** Capturing a binding *)

(** The token both controller adapters emit for a button: [f"GP:{btn}".upper()]. *)
Definition gp_token (btn : string) : string := Py.upper ("GP:" +:+ btn).

(** The binding text [_on_gp_press] commits while a capture window is open:
    [f"GP:{tok.split(":", 1)[1].strip().upper()}"]. *)
Definition capture_gp (tok : string) : result string :=
  match Py.split1 ":" tok !! 1%nat with
  | Some rest => inr ("GP:" +:+ Py.upper (Py.strip rest))
  | None => inl IndexError
  end.

(** ** SendInput *)

Definition MOUSEEVENTF_RIGHTDOWN : Z := 0x0008.
Definition MOUSEEVENTF_RIGHTUP : Z := 0x0010.
Definition KEYEVENTF_KEYUP : Z := 0x0002.

Definition SPECIAL_VK : gmap string Z :=
  list_to_map
    [("LSHIFT", 0xA0); ("SHIFT", 0x10); ("LCTRL", 0xA2); ("CTRL", 0x11);
     ("LALT", 0xA4); ("ALT", 0x12); ("WIN", 0x5B); ("ENTER", 0x0D);
     ("SPACE", 0x20); ("TAB", 0x09); ("ESC", 0x1B); ("BACKSPACE", 0x08)].

(** [ord(c)] *)
Definition ord (c : ascii) : Z := Z.of_N (N_of_ascii c).

Definition is_digit_char (c : ascii) : bool :=
  let n := N_of_ascii c in (48 <=? n)%N && (n <=? 57)%N.

Definition is_alnum_char (c : ascii) : bool :=
  let n := N_of_ascii c in
  is_digit_char c || ((65 <=? n)%N && (n <=? 90)%N) || ((97 <=? n)%N && (n <=? 122)%N).

Fixpoint all_chars (f : ascii -> bool) (s : string) : bool :=
  match s with
  | EmptyString => true
  | String c r => f c && all_chars f r
  end.

(** [s.isdigit()] and [s.isalnum()]: every character, and at least one. *)
Definition isdigit (s : string) : bool := Py.truthy s && all_chars is_digit_char s.
Definition isalnum (s : string) : bool := Py.truthy s && all_chars is_alnum_char s.

(** The strings of this development stand for Python strings of ASCII
    characters, on which [strip], [upper], [isalnum] and [isdigit] are
    what they are here. *)
Definition is_ascii (s : string) : bool :=
  all_chars (fun c => (N_of_ascii c <? 128)%N) s.

(** The number a string of digits denotes. *)
Fixpoint int_from (acc : Z) (s : string) : Z :=
  match s with
  | EmptyString => acc
  | String c r => int_from (10 * acc + (ord c - 48)) r
  end.

(** [sys.int_info.default_max_str_digits] of the interpreter (CPython 3.11). *)
Definition INT_MAX_STR_DIGITS : Z := 4300.

(** [int(s)] on a string of digits: more digits than the limit raise
    [ValueError]. *)
Definition int (s : string) : result Z :=
  if INT_MAX_STR_DIGITS <? Z.of_nat (String.length s) then inl ValueError
  else inr (int_from 0 s).

(** [s[1:]] *)
Definition tail (s : string) : string :=
  match s with EmptyString => EmptyString | String _ r => r end.

(** [_vk_for_key], on a name of ASCII characters. *)
Definition vk_for_key (name0 : string) : result Z :=
  let name := Py.upper (Py.strip name0) in
  let single :=
    if (String.length name =? 1)%nat && isalnum name
    then match name with String c _ => Some (ord c) | EmptyString => None end
    else None in
  match single with
  | Some v => inr v
  | None =>
      if Py.startswith "F" name && isdigit (tail name)
      then match int (tail name) with
           | inl x => inl x
           | inr n =>
               if (1 <=? n) && (n <=? 24) then inr (0x70 + (n - 1))
               else inr (default 0 (SPECIAL_VK !! name))
           end
      else inr (default 0 (SPECIAL_VK !! name))
  end.

(** What reaches [SendInput]. *)
Inductive input : Type :=
| KeybdInput (wVk : Z) (dwFlags : Z)
| MouseInput (dwFlags : Z).

(** [_send_key]: a zero code sends nothing. *)
Definition send_key (vk : Z) (down : bool) : list input :=
  if vk =? 0 then [] else [KeybdInput vk (if down then 0 else KEYEVENTF_KEYUP)].

(** [key_down], [key_up] and [mouse_right] on Windows, for the events of a
    trace; a name on which [_vk_for_key] raises sends nothing. *)
Definition os_inputs (ev : event) : list input :=
  match ev with
  | KeyDown k =>
      match vk_for_key k with inr vk => send_key vk true | inl _ => [] end
  | KeyUp k =>
      match vk_for_key k with inr vk => send_key vk false | inl _ => [] end
  | MouseRight b =>
      [MouseInput (if b then MOUSEEVENTF_RIGHTDOWN else MOUSEEVENTF_RIGHTUP)]
  | _ => []
  end.

(** Key-downs and key-ups name keys of [keys] only. *)
Definition keys_in (keys : list string) (ev : event) : bool :=
  match ev with
  | KeyDown k | KeyUp k => bool_decide (k ∈ keys)
  | _ => true
  end.

(** ** Controller adapters *)

(** What an adapter tells its owner: [on_press(tok)] or [on_release(tok)]. *)
Inductive callback : Type :=
| CbPress (tok : string)
| CbRelease (tok : string).

#[global] Instance callback_eq_dec : EqDecision callback.
Proof. solve_decision. Defined.

(** [_emit_press] and [_emit_release] (the same in both managers), on the
    set [_pressed]: the set afterwards and the callbacks made. *)
Definition emit_press (btn : string) (pressed : gset string)
  : gset string * list callback :=
  let tok := gp_token btn in
  if bool_decide (tok ∈ pressed) then (pressed, [])
  else ({[ tok ]} ∪ pressed, [CbPress tok]).

Definition emit_release (btn : string) (pressed : gset string)
  : gset string * list callback :=
  let tok := gp_token btn in
  if negb (bool_decide (tok ∈ pressed)) then (pressed, [])
  else (pressed ∖ {[ tok ]}, [CbRelease tok]).

(** A sequence of calls of the two. *)
Inductive emit_call : Type :=
| EmitPress (btn : string)
| EmitRelease (btn : string).

Definition emit_one (c : emit_call) (pressed : gset string)
  : gset string * list callback :=
  match c with
  | EmitPress b => emit_press b pressed
  | EmitRelease b => emit_release b pressed
  end.

Fixpoint emit_all (calls : list emit_call) (pressed : gset string)
  : gset string * list callback :=
  match calls with
  | [] => (pressed, [])
  | c :: rest =>
      let '(p1, c1) := emit_one c pressed in
      let '(p2, c2) := emit_all rest p1 in
      (p2, c1 ++ c2)
  end.

(** *** XInput *)

(** [btn_map] of [XInputControllerManager._run], in insertion order. *)
Definition XINPUT_BTN_MAP : list (Z * string) :=
  [(0x1000, "A"); (0x2000, "B"); (0x4000, "X"); (0x8000, "Y");
   (0x0100, "LB"); (0x0200, "RB");
   (0x0020, "BACK"); (0x0010, "START");
   (0x0040, "LS"); (0x0080, "RS");
   (0x0001, "DPAD_UP"); (0x0002, "DPAD_DOWN");
   (0x0004, "DPAD_LEFT"); (0x0008, "DPAD_RIGHT")].

(** [for mask, name in btn_map.items(): if changed & mask: ...]: the calls
    of [_emit_press] and [_emit_release] the loop makes. *)
Definition calls_for (btn_map : list (Z * string)) (changed buttons : Z)
  : list emit_call :=
  omap (fun '(mask, name) =>
          if Z.land changed mask =? 0 then None
          else if Z.land buttons mask =? 0 then Some (EmitRelease name)
          else Some (EmitPress name))
       btn_map.

Definition xinput_calls : Z -> Z -> list emit_call := calls_for XINPUT_BTN_MAP.

Record xinput : Type := XInput {
  prev_buttons : list Z;
  xi_pressed : gset string
}.

(** The body of [for i in range(4)] for the slot [i]: [read] is the button
    word when [XInputGetState] succeeded. *)
Definition xinput_slot (i : nat) (read : option Z) (st : xinput)
  : xinput * list callback :=
  match read with
  | Some buttons =>
      let prev := default 0 (prev_buttons st !! i) in
      let changed := Z.lxor buttons prev in
      let '(p, cbs) :=
        if changed =? 0 then (xi_pressed st, [])
        else emit_all (xinput_calls changed buttons) (xi_pressed st) in
      (XInput (<[i := buttons]> (prev_buttons st)) p, cbs)
  | None => (XInput (<[i := 0]> (prev_buttons st)) (xi_pressed st), [])
  end.

(** The buttons of the word [buttons] and the set [_pressed] agree. *)
Definition xinput_in_sync (buttons : Z) (pressed : gset string) : Prop :=
  ∀ mask name, (mask, name) ∈ XINPUT_BTN_MAP →
               (gp_token name ∈ pressed ↔ Z.land buttons mask ≠ 0).

(** *** The hat of a joystick *)

(** [dirs(v)] of [_handle_hat] *)
Definition dirs (v : Z * Z) : gset string :=
  (if v.2 =? 1 then {[ "DPAD_UP" ]} else ∅) ∪
  (if v.2 =? -1 then {[ "DPAD_DOWN" ]} else ∅) ∪
  (if v.1 =? 1 then {[ "DPAD_RIGHT" ]} else ∅) ∪
  (if v.1 =? -1 then {[ "DPAD_LEFT" ]} else ∅).

Definition DPAD_NAMES : gset string :=
  {[ "DPAD_UP"; "DPAD_DOWN"; "DPAD_RIGHT"; "DPAD_LEFT" ]}.

Record pygame_mgr : Type := PygameMgr {
  joy_names : gmap Z string;
  hat_state : gmap Z (Z * Z);
  pg_pressed : gset string
}.

(** [_handle_hat].  A [for] over a Python set visits its elements in an
    order the language does not fix: [order] is that order. *)
Definition handle_hat (order : gset string -> list string) (joy_id : Z)
    (value : Z * Z) (st : pygame_mgr) : pygame_mgr * list callback :=
  let prev := default (0, 0) (hat_state st !! joy_id) in
  let '(p1, c1) :=
    emit_all (map EmitRelease (order (dirs prev ∖ dirs value))) (pg_pressed st) in
  let '(p2, c2) :=
    emit_all (map EmitPress (order (dirs value ∖ dirs prev))) p1 in
  (PygameMgr (joy_names st) (<[joy_id := value]> (hat_state st)) p2, c1 ++ c2).

(** *** Button names *)

Definition lower_char (c : ascii) : ascii :=
  let n := N_of_ascii c in
  if ((65 <=? n)%N && (n <=? 90)%N) then ascii_of_N (n + 32) else c.

(** [s.lower()] *)
Fixpoint lower (s : string) : string :=
  match s with
  | EmptyString => EmptyString
  | String c r => String (lower_char c) (lower r)
  end.

(** [f"{n}"] for an integer. *)
Definition str_of_int (n : Z) : string :=
  DecimalString.NilZero.string_of_int (Z.to_int n).

Definition XBOX_BUTTONS : gmap Z string :=
  list_to_map
    [(0, "A"); (1, "B"); (2, "X"); (3, "Y"); (4, "LB"); (5, "RB");
     (6, "BACK"); (7, "START"); (8, "LS"); (9, "RS")].

Definition PS_BUTTONS : gmap Z string :=
  list_to_map
    [(0, "SQUARE"); (1, "CROSS"); (2, "CIRCLE"); (3, "TRIANGLE"); (4, "L1");
     (5, "R1"); (8, "SHARE"); (9, "OPTIONS"); (10, "L3"); (11, "R3");
     (12, "PS"); (13, "TOUCHPAD")].

(** [PygameControllerManager._map_button] *)
Definition map_button (names : gmap Z string) (joy_id button_index : Z) : string :=
  let name := lower (default "" (names !! joy_id)) in
  let other := "BTN" +:+ str_of_int button_index in
  if contains "xbox" name || contains "xinput" name
  then default other (XBOX_BUTTONS !! button_index)
  else if contains "playstation" name || contains "wireless controller" name
          || contains "dualshock" name || contains "dualsense" name
          || contains "ps4" name || contains "ps5" name
  then default other (PS_BUTTONS !! button_index)
  else default other (XBOX_BUTTONS !! button_index).

(** *** The adapters and the engine *)

(** [ProSuiteGUI._on_gp_press] and [ProSuiteGUI._on_gp_release], the callbacks both adapters
    are built with: what reaches the engine.  [capturing] is the test of
    [_on_gp_press] for an open capture window, which takes the press for
    the binding being captured. *)
Definition gui_route (capturing : bool) (c : callback) : list token :=
  match c with
  | CbPress t => if capturing then [] else [GpPress t]
  | CbRelease t => [GpRelease t]
  end.

(** The two adapters [ProSuiteGUI.__init__] starts, each with its own [_pressed],
    and the one engine both report to. *)
Inductive pad : Type := Xi | Pg.

Record rig : Type := Rig {
  xi_set : gset string;
  pg_set : gset string;
  eng : engine
}.

Definition pad_set (which : pad) (r : rig) : gset string :=
  match which with Xi => xi_set r | Pg => pg_set r end.

(** One call of [_emit_press] or [_emit_release] on one adapter, its
    callback delivered before anything else happens. *)
Definition rig_step (which : pad) (c : emit_call) (capturing : bool) (r : rig)
  : rig * list (result (option action)) :=
  let '(p, cbs) := emit_one c (pad_set which r) in
  let '(e', ds) := deliver_all (eng r) (flat_map (gui_route capturing) cbs) in
  (match which with
   | Xi => Rig p (pg_set r) e'
   | Pg => Rig (xi_set r) p e'
   end, ds).

Fixpoint rig_run (steps : list (pad * emit_call * bool)) (r : rig)
  : rig * list (result (option action)) :=
  match steps with
  | [] => (r, [])
  | (which, c, capturing) :: rest =>
      let '(r1, ds1) := rig_step which c capturing r in
      let '(r2, ds2) := rig_run rest r1 in
      (r2, ds1 ++ ds2)
  end.

(** *** Vocabulary for statements about the adapters *)

(** The button name [btn] can be bound: captured from its token it is
    stored as [GP:btn], which parses to the controller trigger [btn], and
    that trigger matches the token. *)
Definition bindable (btn : string) : Prop :=
  capture_gp (gp_token btn) = inr ("GP:" +:+ btn) ∧
  parse_hotkey ("GP:" +:+ btn) = inr (Trigger gp ∅ btn) ∧
  matches_gp (gp_token btn) (Trigger gp ∅ btn) = true.

(** How often a callback occurs. *)
Definition count_cb (c : callback) (l : list callback) : nat :=
  count_occ callback_eq_dec l c.

(** The last call in [calls] that concerns the token [tok], if any: was
    it a press? *)
Fixpoint last_call_for (tok : string) (calls : list emit_call) : option bool :=
  match calls with
  | [] => None
  | c :: rest =>
      match last_call_for tok rest with
      | Some b => Some b
      | None =>
          match c with
          | EmitPress b => if bool_decide (gp_token b = tok) then Some true else None
          | EmitRelease b => if bool_decide (gp_token b = tok) then Some false else None
          end
      end
  end.

(** ** Telemetry *)

Definition APP_VERSION : string := "1.0.0".

(** The dict under the key ["telemetry"] of the state, its values of the
    types [DEFAULTS] gives them; [None] is an absent key. *)
Record telemetry : Type := Tel {
  tel_enabled : option bool;
  install_id : option string;
  installed_sent : option bool;
  last_daily_ymd : option string
}.

(** [{}] *)
Definition empty_tel : telemetry := Tel None None None None.

(** What [Telemetry] does to the world: a thread started on
    [_post(content)], and [_reg_save(st)], of which the telemetry part of
    the saved state is kept. *)
Inductive tel_event : Type :=
| Post (content : string)
| SaveState (tel : option telemetry).

Definition install_msg (iid : string) : string :=
  "install iid=" +:+ iid +:+ " v=" +:+ APP_VERSION.

Definition daily_msg (iid today : string) : string :=
  "daily iid=" +:+ iid +:+ " v=" +:+ APP_VERSION +:+ " day=" +:+ today.

(** [Telemetry.ensure_install_id]; [st] is the value under ["telemetry"] of
    the one state dict ([None]: no such key), [fresh] is [uuid.uuid4().hex].
    The result is the id, the state and the events. *)
Definition ensure_install_id (fresh : string) (st : option telemetry)
  : string * option telemetry * list tel_event :=
  let tel := default empty_tel st in
  let iid := Py.strip (default "" (install_id tel)) in
  if Py.truthy iid then (iid, st, [])
  else
    let tel' :=
      Tel (tel_enabled tel) (Some fresh) (Some false)
          (Some (default "" (last_daily_ymd tel))) in
    (fresh, Some tel', [SaveState (Some tel')]).

(** [Telemetry.startup_tick]; [today] is [time.strftime("%Y-%m-%d")].
    Past the first test the key is there, and [tel] of the source is the
    very dict [ensure_install_id] writes to and the state holds: what is
    read after that call is read from the state it left, and what is
    written to [tel] is written to the state. *)
Definition startup_tick (fresh today : string) (st : option telemetry)
  : option telemetry * list tel_event :=
  let tel := default empty_tel st in
  if negb (default false (tel_enabled tel)) then (st, [])
  else
    let '(iid, st1, ev1) := ensure_install_id fresh st in
    let tel1 := default empty_tel st1 in
    let '(tel2, ev2) :=
      if negb (default false (installed_sent tel1)) then
        let t := Tel (tel_enabled tel1) (install_id tel1) (Some true)
                     (last_daily_ymd tel1) in
        (t, [Post (install_msg iid); SaveState (Some t)])
      else (tel1, []) in
    let '(tel3, ev3) :=
      if negb (String.eqb (default "" (last_daily_ymd tel2)) today) then
        let t := Tel (tel_enabled tel2) (install_id tel2) (installed_sent tel2)
                     (Some today) in
        (t, [Post (daily_msg iid today); SaveState (Some t)])
      else (tel2, []) in
    (Some tel3, ev1 ++ ev2 ++ ev3).

(** The telemetry part of [ProSuiteGUI._read_ui_state]: the switch of the
    window and the three fields kept from the state. *)
Definition read_ui_telemetry (var_telemetry : bool) (st : option telemetry)
  : option telemetry :=
  let tel := default empty_tel st in
  Some (Tel (Some var_telemetry)
            (Some (default "" (install_id tel)))
            (Some (default false (installed_sent tel)))
            (Some (default "" (last_daily_ymd tel)))).

(** [ProSuiteGUI._save]: the state is read from the window and saved, then
    [startup_tick] runs. *)
Definition save_click (var_telemetry : bool) (fresh today : string)
    (st : option telemetry) : option telemetry * list tel_event :=
  let st1 := read_ui_telemetry var_telemetry st in
  let '(st2, evs) := startup_tick fresh today st1 in
  (st2, SaveState st1 :: evs).

(** [ProSuiteGUI.__init__], on the state [_reg_load] returned: a state
    without an id gets one, whether telemetry is on or not. *)
Definition enforce_install_id (fresh : string) (st : option telemetry)
  : option telemetry * list tel_event :=
  let tel := default empty_tel st in
  if negb (Py.truthy (Py.strip (default "" (install_id tel)))) then
    let tel' :=
      Tel (tel_enabled tel) (Some fresh) (Some false)
          (Some (default "" (last_daily_ymd tel))) in
    (Some tel', [SaveState (Some tel')])
  else (st, []).

(** The start of the program: [__init__] gives the state its id, sets the
    telemetry box from the state, puts the window into the state
    ([_sync_engine]) and at its end runs [startup_tick]. *)
Definition app_start (fresh1 fresh2 today : string) (st : option telemetry)
  : option telemetry * list tel_event :=
  let '(st1, ev1) := enforce_install_id fresh1 st in
  let var_telemetry := default false (tel_enabled (default empty_tel st1)) in
  let st1' := read_ui_telemetry var_telemetry st1 in
  let '(st2, ev2) := startup_tick fresh2 today st1' in
  (st2, ev1 ++ ev2).

(** [ProSuiteGUI._reset]: the four fields are carried over into a copy of
    [DEFAULTS] ([iid or uuid.uuid4().hex] for the id), shown in the
    window, read back from it and saved. *)
Definition reset_click (fresh : string) (st : option telemetry)
  : option telemetry * list tel_event :=
  let tel := default empty_tel st in
  let iid := if Py.truthy (default "" (install_id tel))
             then default "" (install_id tel) else fresh in
  let enabled := default false (tel_enabled tel) in
  let st1 :=
    Some (Tel (Some enabled) (Some iid)
              (Some (default false (installed_sent tel)))
              (Some (default "" (last_daily_ymd tel)))) in
  let st2 := read_ui_telemetry enabled st1 in
  (st2, [SaveState st2]).

(** The telemetry part of what [_reg_load] returns: what is stored, and
    the values of [DEFAULTS] for the keys that are not. *)
Definition load_telemetry (stored : option telemetry) : option telemetry :=
  let tel := default empty_tel stored in
  Some (Tel (Some (default false (tel_enabled tel)))
            (Some (default "" (install_id tel)))
            (Some (default false (installed_sent tel)))
            (Some (default "" (last_daily_ymd tel)))).

(** The state of the running program and what the registry holds. *)
Record world : Type := World {
  cur : option telemetry;
  disk : option telemetry
}.

(** What the registry holds after the events [evs]. *)
Definition saved (evs : list tel_event) (d : option telemetry) : option telemetry :=
  fold_left (fun d ev => match ev with SaveState t => t | Post _ => d end) evs d.

(** A function of the program run on its state. *)
Definition on_cur (p : option telemetry -> option telemetry * list tel_event)
    (w : world) : world * list tel_event :=
  let '(c, evs) := p (cur w) in
  (World c (saved evs (disk w)), evs).

(** What happens to the telemetry state over the life of the program: a
    start ([_reg_load], [__init__] and its [startup_tick]); a click on
    Save; a change in the window, the telemetry box included ([_on_change]
    and [_sync_engine], which put the window into the state and save
    nothing); a click on Reset; and the hotkey of [toggle_all], whose
    [_reg_save] writes the state as it is. *)
Inductive tel_step : Type :=
| Start (fresh1 fresh2 today : string)
| Save (var_telemetry : bool) (fresh today : string)
| Change (var_telemetry : bool)
| Reset (fresh : string)
| Toggle.

(** The ids [uuid.uuid4().hex] may give in a step. *)
Definition fresh_of (s : tel_step) : list string :=
  match s with
  | Start f1 f2 _ => [f1; f2]
  | Save _ f _ => [f]
  | Reset f => [f]
  | Change _ | Toggle => []
  end.

(** The state of a program that starts is what [_reg_load] returns. *)
Definition load_state (w : world) : world :=
  World (load_telemetry (disk w)) (disk w).

Definition world_step (s : tel_step) (w : world) : world * list tel_event :=
  match s with
  | Start f1 f2 d => on_cur (app_start f1 f2 d) (load_state w)
  | Save v f d => on_cur (save_click v f d) w
  | Change v => on_cur (fun st => (read_ui_telemetry v st, [])) w
  | Reset f => on_cur (reset_click f) w
  | Toggle => on_cur (fun st => (st, [SaveState st])) w
  end.

Fixpoint world_run (steps : list tel_step) (w : world) : world * list tel_event :=
  match steps with
  | [] => (w, [])
  | s :: rest =>
      let '(w1, ev1) := world_step s w in
      let '(w2, ev2) := world_run rest w1 in
      (w2, ev1 ++ ev2)
  end.

(** The steps run from a program whose state [st] is what the registry
    holds: the state at the end, and the events. *)
Definition tel_run (steps : list tel_step) (st : option telemetry)
  : option telemetry * list tel_event :=
  let '(w, evs) := world_run steps (World st st) in (cur w, evs).

(** *** Vocabulary for statements about telemetry *)

(** The id the state carries, as [ensure_install_id] reads it. *)
Definition iid_of (st : option telemetry) : string :=
  Py.strip (default "" (install_id (default empty_tel st))).

Definition is_install (ev : tel_event) : bool :=
  match ev with Post c => Py.startswith "install " c | SaveState _ => false end.

Definition is_post (ev : tel_event) : bool :=
  match ev with Post _ => true | SaveState _ => false end.

(** Telemetry is switched on in the state. *)
Definition opted_in (st : option telemetry) : bool :=
  default false (tel_enabled (default empty_tel st)).

(** The state has an id and records the install message as sent. *)
Definition settled (st : option telemetry) : bool :=
  Py.truthy (iid_of st) && default false (installed_sent (default empty_tel st)).

(** What [uuid.uuid4().hex] returns: 32 hexadecimal digits. *)
Definition is_hex_char (c : ascii) : bool :=
  let n := N_of_ascii c in
  ((48 <=? n)%N && (n <=? 57)%N) || ((97 <=? n)%N && (n <=? 102)%N).

Definition uuid_hex (s : string) : bool :=
  (String.length s =? 32)%nat && all_chars is_hex_char s.

(** A post of the install or of a daily message of the id [iid]. *)
Definition post_of (iid : string) (ev : tel_event) : Prop :=
  match ev with
  | Post c => c = install_msg iid ∨ ∃ day, c = daily_msg iid day
  | SaveState _ => True
  end.

(** The telemetry box of the window is not ticked when the step reads it. *)
Definition switch_off (s : tel_step) : Prop :=
  match s with Save v _ _ | Change v => v = false | _ => True end.

(** Every id of the step is one [uuid.uuid4().hex] can give. *)
Definition fresh_ok (s : tel_step) : Prop :=
  Forall (fun f => uuid_hex f = true) (fresh_of s).

(** What one stretch of the program does to the telemetry state, started
    in [st]: an id the state has stays, every post carries the id the state
    ends with, at most one install message is posted and none once the
    state records it as sent. *)
Definition phase_ok (p : option telemetry -> option telemetry * list tel_event)
    : Prop :=
  ∀ st,
    let r := p st in
    (Py.truthy (iid_of st) = true -> iid_of r.1 = iid_of st) ∧
    Forall (post_of (iid_of r.1)) r.2 ∧
    (List.filter is_post r.2 <> [] -> Py.truthy (iid_of r.1) = true) ∧
    (length (List.filter is_install r.2) <= 1)%nat ∧
    (List.filter is_install r.2 <> [] -> settled r.1 = true) ∧
    (settled st = true -> List.filter is_install r.2 = [] ∧ settled r.1 = true).

(** One stretch after another. *)
Definition phase_seq (p q : option telemetry -> option telemetry * list tel_event)
    (st : option telemetry) : option telemetry * list tel_event :=
  let '(st1, ev1) := p st in
  let '(st2, ev2) := q st1 in
  (st2, ev1 ++ ev2).

(** One step after another, of the program and the registry. *)
Definition world_seq (f g : world -> world * list tel_event) (w : world)
    : world * list tel_event :=
  let '(w1, ev1) := f w in
  let '(w2, ev2) := g w1 in
  (w2, ev1 ++ ev2).

(** The registry agrees with the state on the id and on whether the
    install message was sent. *)
Definition coherent (d st : option telemetry) : Prop :=
  iid_of d = iid_of st ∧ settled d = settled st.

(** A stretch of the program saves what it changes of the two. *)
Definition saves_ok (p : option telemetry -> option telemetry * list tel_event)
    : Prop :=
  ∀ st d, coherent d st -> coherent (saved (p st).2 d) (p st).1.

(** [phase_ok], for a step of the program and the registry. *)
Definition world_ok (f : world -> world * list tel_event) : Prop :=
  ∀ w, coherent (disk w) (cur w) ->
    let r := f w in
    coherent (disk r.1) (cur r.1) ∧
    (Py.truthy (iid_of (cur w)) = true -> iid_of (cur r.1) = iid_of (cur w)) ∧
    Forall (post_of (iid_of (cur r.1))) r.2 ∧
    (List.filter is_post r.2 <> [] -> Py.truthy (iid_of (cur r.1)) = true) ∧
    (length (List.filter is_install r.2) <= 1)%nat ∧
    (List.filter is_install r.2 <> [] -> settled (cur r.1) = true) ∧
    (settled (cur w) = true ->
     List.filter is_install r.2 = [] ∧ settled (cur r.1) = true).

(** ** The stored configuration *)

(** What [json.loads] returns (numbers: whole numbers only).  A dict keeps
    its items in insertion order, as a Python dict does. *)
#[local] Unset Elimination Schemes.
Inductive json : Type :=
| JNull
| JBool (b : bool)
| JNum (n : Z)
| JStr (s : string)
| JList (l : list json)
| JDict (items : list (string * json)).
#[local] Set Elimination Schemes.

Definition dict : Type := list (string * json).

(** [d.get(k)] *)
Fixpoint dict_get (d : dict) (k : string) : option json :=
  match d with
  | [] => None
  | (k', v) :: rest => if bool_decide (k' = k) then Some v else dict_get rest k
  end.

(** [d[k] = v]: a key the dict has keeps its place, a new key goes last. *)
Fixpoint dict_set (d : dict) (k : string) (v : json) : dict :=
  match d with
  | [] => [(k, v)]
  | (k', v') :: rest =>
      if bool_decide (k' = k) then (k, v) :: rest else (k', v') :: dict_set rest k v
  end.

Definition keys (d : dict) : list string := map fst d.

(** [bool(j)] *)
Definition json_truthy (j : json) : bool :=
  match j with
  | JNull => false
  | JBool b => b
  | JNum n => negb (n =? 0)
  | JStr s => Py.truthy s
  | JList l => match l with [] => false | _ => true end
  | JDict items => match items with [] => false | _ => true end
  end.

(** [_deep_merge(a, b)] for a dict [b]: the loop over [b.items()]. *)
Fixpoint deep_merge_dict (b : json) (a : dict) {struct b} : dict :=
  match b with
  | JDict items =>
      (fix loop (items : list (string * json)) (a : dict) {struct items} : dict :=
         match items with
         | [] => a
         | (k, v) :: rest =>
             loop rest
               match v, dict_get a k with
               | JDict _, Some (JDict ak) => dict_set a k (JDict (deep_merge_dict v ak))
               | _, _ => dict_set a k v
               end
         end) items a
  | _ => a
  end.

(** The loop of [deep_merge_dict] by itself. *)
Definition merge_loop : list (string * json) -> dict -> dict :=
  fix loop (items : list (string * json)) (a : dict) {struct items} : dict :=
    match items with
    | [] => a
    | (k, v) :: rest =>
        loop rest
          match v, dict_get a k with
          | JDict _, Some (JDict ak) => dict_set a k (JDict (deep_merge_dict v ak))
          | _, _ => dict_set a k v
          end
    end.

(** [_deep_merge(a, b)]: a falsy [b] counts as [{}]; any other [b] that is
    not a dict has no [items] ([None]: the call raises). *)
Definition deep_merge (a : dict) (b : json) : option dict :=
  if negb (json_truthy b) then Some a
  else match b with
       | JDict _ => Some (deep_merge_dict b a)
       | _ => None
       end.

(** [DEFAULTS] as [json.loads(json.dumps(DEFAULTS))] returns it. *)
Definition DEFAULTS_JSON : dict :=
  [("global_enabled", JBool true);
   ("features",
    JDict [("stall", JBool true); ("speedflip", JBool true);
           ("straightdash", JBool true); ("turningdash", JBool true)]);
   ("hotkeys",
    JDict [("toggle_all", JStr "F6"); ("stall", JStr "F"); ("speedflip", JStr "H");
           ("straightdash", JStr "V"); ("turningdash", JStr "N");
           ("emergency", JStr "L"); ("exit", JStr "F10")]);
   ("timings",
    JDict [("stall_click_ms", JNum 3); ("sf_a_hold_ms", JNum 80);
           ("sf_wait_before_jump_ms", JNum 20); ("sf_s_hold_ms", JNum 690);
           ("sf_d_hold_ms", JNum 720); ("sf_airroll_time_ms", JNum 799);
           ("sf_shift_start_ms", JNum 840); ("sf_shift_duration_ms", JNum 130);
           ("sf_prejump_ms", JNum 20); ("sf_click_down_ms", JNum 20);
           ("sf_between_jumps_ms", JNum 40); ("sf_post_shift_ms", JNum 50);
           ("sd_click_down_ms", JNum 15); ("sd_between_clicks_ms", JNum 25);
           ("td_pre_ms", JNum 10); ("td_click_down_ms", JNum 15);
           ("td_between_clicks_ms", JNum 25)]);
   ("telemetry",
    JDict [("enabled", JBool false); ("install_id", JStr "");
           ("installed_sent", JBool false); ("last_daily_ymd", JStr "")])].

(** [_reg_load]; [stored] is what [json.loads] made of the registry value,
    [None] when there is no registry, no value or no JSON in it.  Every
    exception ends in a copy of [DEFAULTS]. *)
Definition reg_load (stored : option json) : dict :=
  match stored with
  | None => DEFAULTS_JSON
  | Some data => default DEFAULTS_JSON (deep_merge DEFAULTS_JSON data)
  end.

(** *** Vocabulary for statements about the stored configuration *)

(** No dict has a key twice, at any depth below dicts. *)
Fixpoint wf_json (j : json) : Prop :=
  match j with
  | JDict items =>
      NoDup (map fst items) ∧
      (fix all (items : list (string * json)) : Prop :=
         match items with
         | [] => True
         | (_, v) :: rest => wf_json v ∧ all rest
         end) items
  | _ => True
  end.

Definition wf_dict (d : dict) : Prop := wf_json (JDict d).

(** The value the merge leaves under a key that [b] has with the value [v],
    when [a] has [old] there. *)
Definition merged_value (v : json) (old : option json) : json :=
  match v, old with
  | JDict _, Some (JDict ak) => JDict (deep_merge_dict v ak)
  | _, _ => v
  end.

(** [b] has a dict wherever [a] has one: a dict of [a] is never replaced
    by something else. *)
Fixpoint fits (b : json) (a : json) {struct b} : Prop :=
  match a, b with
  | JDict aitems, JDict bitems =>
      (fix all (bitems : list (string * json)) : Prop :=
         match bitems with
         | [] => True
         | (k, v) :: rest =>
             match dict_get aitems k with
             | Some ak => fits v ak
             | None => True
             end ∧ all rest
         end) bitems
  | JDict _, _ => False
  | _, _ => True
  end.

(** Every key of [d], at any depth below dicts, is a key of [r] at the same
    place, and where [d] has a dict [r] has one too. *)
Fixpoint covers (d : json) (r : json) {struct d} : Prop :=
  match d, r with
  | JDict items, JDict ritems =>
      (fix all (items : list (string * json)) : Prop :=
         match items with
         | [] => True
         | (k, v) :: rest =>
             (∃ v', dict_get ritems k = Some v' ∧
                    match v with JDict _ => covers v v' | _ => True end) ∧
             all rest
         end) items
  | JDict _, _ => False
  | _, _ => True
  end.
Module PyFacts.
Import Py.

Ltac by_cases_on_char c :=
  destruct c as [[] [] [] [] [] [] [] []]; vm_compute; try reflexivity; try congruence.

Lemma upper_char_idem c : upper_char (upper_char c) = upper_char c.
Proof. by_cases_on_char c. Qed.

Lemma isspace_upper_char c : isspace (upper_char c) = isspace c.
Proof. by_cases_on_char c. Qed.

Lemma upper_char_plus c : upper_char c = "+"%char -> c = "+"%char.
Proof. by_cases_on_char c. Qed.

Lemma upper_char_minus c : upper_char c = "-"%char -> c = "-"%char.
Proof. by_cases_on_char c. Qed.

Lemma upper_idem s : upper (upper s) = upper s.
Proof. induction s as [|c s IH]; simpl; [done|]. by rewrite upper_char_idem, IH. Qed.

Lemma upper_app a b : upper (a +:+ b) = upper a +:+ upper b.
Proof. induction a as [|c a IH]; simpl; [done|]. by rewrite IH. Qed.

Lemma truthy_upper s : truthy (upper s) = truthy s.
Proof. by destruct s. Qed.

Lemma truthy_true s : truthy s = true <-> s <> "".
Proof. destruct s; simpl; split; congruence. Qed.


Lemma has_app c a b : has c (a +:+ b) = has c a || has c b.
Proof. induction a as [|d a IH]; simpl; [done|]. destruct (ascii_dec d c); auto. Qed.

Lemma has_lstrip c s : has c s = false -> has c (lstrip s) = false.
Proof.
  induction s as [|d s IH]; simpl; [done|].
  destruct (ascii_dec d c); [done|]. intros H.
  destruct (isspace d); [auto|]. simpl. by destruct (ascii_dec d c).
Qed.

Lemma has_rstrip c s : has c s = false -> has c (rstrip s) = false.
Proof.
  induction s as [|d s IH]; simpl; [done|].
  destruct (ascii_dec d c) as [|Hd]; [done|]. intros H. specialize (IH H).
  destruct (rstrip s) eqn:E.
  - destruct (isspace d); simpl; [done|]. by destruct (ascii_dec d c).
  - simpl. destruct (ascii_dec d c); [done|]. exact IH.
Qed.

Lemma has_strip c s : has c s = false -> has c (strip s) = false.
Proof. intros. unfold strip. by apply has_rstrip, has_lstrip. Qed.

Lemma has_upper_plus s : has "+" s = false -> has "+" (upper s) = false.
Proof.
  induction s as [|d s IH]; simpl; [done|].
  destruct (ascii_dec d "+"); [done|]. intros H.
  destruct (ascii_dec (upper_char d) "+") as [E|]; [|auto].
  by apply upper_char_plus in E.
Qed.

Lemma has_upper_minus s : has "-" s = false -> has "-" (upper s) = false.
Proof.
  induction s as [|d s IH]; simpl; [done|].
  destruct (ascii_dec d "-"); [done|]. intros H.
  destruct (ascii_dec (upper_char d) "-") as [E|]; [|auto].
  by apply upper_char_minus in E.
Qed.

Lemma has_replace a b s : a <> b -> has a (replace a b s) = false.
Proof.
  intros Hab. induction s as [|d s IH]; simpl; [done|].
  destruct (ascii_dec d a); destruct (ascii_dec _ a); congruence.
Qed.

Lemma replace_absent a b s : has a s = false -> replace a b s = s.
Proof.
  induction s as [|d s IH]; simpl; [done|].
  destruct (ascii_dec d a); [done|]. intros H. by rewrite IH.
Qed.

(** ** [split] *)

Lemma split_nonempty sep s : split sep s <> [].
Proof.
  destruct s as [|c s]; simpl; [done|].
  destruct (ascii_dec c sep); [done|]. by destruct (split sep s).
Qed.

Lemma split_absent sep s : has sep s = false -> split sep s = [s].
Proof.
  induction s as [|c s IH]; simpl; [done|].
  destruct (ascii_dec c sep); [done|]. intros H. by rewrite IH.
Qed.

Lemma split_app sep a b :
  has sep a = false -> split sep (a +:+ String sep b) = a :: split sep b.
Proof.
  induction a as [|c a IH]; simpl.
  - intros _. by destruct (ascii_dec sep sep).
  - destruct (ascii_dec c sep); [done|]. intros H. by rewrite IH.
Qed.

Lemma split_has_sep sep s : Forall (fun p => has sep p = false) (split sep s).
Proof.
  induction s as [|c s IH]; simpl; [by repeat constructor|].
  destruct (ascii_dec c sep); [by constructor|].
  destruct (split sep s) as [|h t]; inversion IH; subst; constructor; simpl; auto.
  - by destruct (ascii_dec c sep).
  - by destruct (ascii_dec c sep).
Qed.

Lemma split_has_other sep c s :
  has c s = false -> Forall (fun p => has c p = false) (split sep s).
Proof.
  induction s as [|d s IH]; simpl; [by repeat constructor|].
  destruct (ascii_dec d c) as [|Hd]; [done|]. intros H. specialize (IH H).
  destruct (ascii_dec d sep); [by constructor|].
  destruct (split sep s) as [|h t]; inversion IH; subst; constructor; simpl; auto;
    by destruct (ascii_dec d c).
Qed.

Lemma split_join sep l :
  l <> [] -> Forall (fun p => has sep p = false) l ->
  split sep (join (String sep "") l) = l.
Proof.
  induction l as [|x l IH]; [done|]. intros _ Hall.
  inversion Hall as [|? ? Hx Hl]; subst.
  destruct l as [|y l]; simpl.
  - by apply split_absent.
  - change (split sep (x +:+ String sep (join (String sep "") (y :: l))) = x :: y :: l).
    rewrite split_app by done. f_equal. by apply IH.
Qed.

(** ** Trimmed strings: first and last characters are not blank. *)



Lemma first_ok_lstrip s : first_ok s = true -> lstrip s = s.
Proof. destruct s as [|c s]; simpl; [done|]. by destruct (isspace c). Qed.

Lemma last_ok_rstrip s : last_ok s = true -> rstrip s = s.
Proof.
  induction s as [|c s IH]; [done|].
  destruct s as [|d s].
  - simpl. by destruct (isspace c).
  - intros H. change (last_ok (String d s) = true) in H.
    specialize (IH H). simpl in *. by rewrite IH.
Qed.

Lemma trimmed_strip s : first_ok s = true -> last_ok s = true -> strip s = s.
Proof. intros Hf Hl. unfold strip. rewrite first_ok_lstrip by done. by apply last_ok_rstrip. Qed.

Lemma first_ok_nonempty s : first_ok s = true -> s <> "".
Proof. by destruct s. Qed.

Lemma lstrip_first_ok s : lstrip s <> "" -> first_ok (lstrip s) = true.
Proof.
  induction s as [|c s IH]; simpl; [done|].
  destruct (isspace c) eqn:E; [auto|]. intros _. simpl. by rewrite E.
Qed.

Lemma rstrip_last_ok s : rstrip s <> "" -> last_ok (rstrip s) = true.
Proof.
  induction s as [|c s IH]; simpl; [done|].
  destruct (rstrip s) as [|d r] eqn:E.
  - destruct (isspace c) eqn:Ec; [done|]. intros _. simpl. by rewrite Ec.
  - intros _. change (last_ok (String d r) = true). by apply IH.
Qed.

Lemma rstrip_first_ok s : first_ok s = true -> first_ok (rstrip s) = true.
Proof.
  destruct s as [|c s]; simpl; [done|].
  destruct (isspace c) eqn:Ec; [discriminate|]. intros _.
  destruct (rstrip s); simpl; by rewrite Ec.
Qed.

Lemma strip_trimmed s :
  strip s <> "" -> first_ok (strip s) = true /\ last_ok (strip s) = true.
Proof.
  unfold strip. intros H. split.
  - apply rstrip_first_ok, lstrip_first_ok. intros E. rewrite E in H. by apply H.
  - by apply rstrip_last_ok.
Qed.

Lemma first_ok_upper s : first_ok (upper s) = first_ok s.
Proof. destruct s; simpl; [done|]. by rewrite isspace_upper_char. Qed.

Lemma last_ok_upper s : last_ok (upper s) = last_ok s.
Proof.
  induction s as [|c s IH]; [done|].
  destruct s as [|d s]; simpl in *; [by rewrite isspace_upper_char|]. exact IH.
Qed.

Lemma first_ok_app a b : first_ok a = true -> first_ok (a +:+ b) = true.
Proof. by destruct a. Qed.

Lemma last_ok_app a b : last_ok b = true -> last_ok (a +:+ b) = true.
Proof.
  intros Hb. induction a as [|c a IH]; simpl; [done|].
  destruct (a +:+ b); [discriminate IH | exact IH].
Qed.

End PyFacts.

Example parse_ctrl_h :
  parse_hotkey " ctrl - h " = inr (Trigger kb {[ "CTRL" ]} "H").
Proof. vm_compute. reflexivity. Qed.

Example parse_gp_dpad :
  parse_hotkey "gp: dpad_down" = inr (Trigger gp ∅ "DPAD_DOWN").
Proof. vm_compute. reflexivity. Qed.

Example format_all :
  format_hotkey {[ "WIN"; "CTRL"; "SHIFT"; "ALT" ]} "h" = "Ctrl+Alt+Shift+Win+H".
Proof. vm_compute. reflexivity. Qed.

(** ** Facts about the string primitives *)


(** The menu shows a controller binding as [format_hotkey] renders its
    trigger: the bare button name. *)
Example display_gp :
  display_hotkey " gp:dpad_down" = inr "DPAD_DOWN" ∧
  format (Trigger gp ∅ "DPAD_DOWN") = "DPAD_DOWN".
Proof. split; reflexivity. Qed.

(** ** The binding grammar *)

Section Grammar.
Import Py PyFacts.

Lemma last_cons_default {A} (a d : A) l : List.last (a :: l) d = List.last l a.
Proof.
  revert a d. induction l as [|b l IH]; intros a d; [done|].
  change (List.last (b :: l) d = List.last (b :: l) a).
  by rewrite (IH b d), (IH b a).
Qed.

Lemma modifier_of_range p m : modifier_of p = Some m -> m ∈ MOD_NAMES.
Proof.
  unfold modifier_of, MOD_NAMES. repeat case_bool_decide; intros [= <-]; set_solver.
Qed.

Lemma modifier_of_canonical m : m ∈ MOD_NAMES -> modifier_of m = Some m.
Proof.
  unfold MOD_NAMES. rewrite !elem_of_union, !elem_of_singleton.
  intros [[[->| ->]| ->]| ->]; reflexivity.
Qed.

(** The loop in closed form: the modifiers named by the parts are added,
    the key is the last part that names none. *)
Lemma parse_loop_spec parts mods key :
  parse_loop parts mods key =
    (list_to_set (omap modifier_of parts) ∪ mods,
     List.last (filter (fun p => modifier_of p = None) parts) key).
Proof.
  revert mods key. induction parts as [|p ps IH]; intros mods key; simpl.
  - f_equal. set_solver.
  - destruct (modifier_of p) as [m|] eqn:E; rewrite IH.
    + rewrite filter_cons_False by congruence. f_equal. set_solver.
    + rewrite filter_cons_True by done. by rewrite last_cons_default.
Qed.

Lemma split1_has sep s :
  has sep s = true -> exists a b, split1 sep s = [a; b].
Proof.
  induction s as [|c s IH]; simpl; [done|].
  destruct (ascii_dec c sep); [eauto|].
  intros H. destruct (IH H) as (a & b & ->). eauto.
Qed.

Lemma has_strip_inv c s : has c (strip s) = true -> has c s = true.
Proof.
  intros H. destruct (has c s) eqn:E; [done|].
  apply has_strip in E. congruence.
Qed.

Lemma startswith_GP_colon s : startswith "GP:" (upper s) = true -> has ":" s = true.
Proof.
  destruct s as [|c1 [|c2 [|c3 s]]]; simpl; try done.
  - by destruct (ascii_dec _ _).
  - by repeat destruct (ascii_dec _ _).
  - destruct (ascii_dec (upper_char c1) "G"); [|done].
    destruct (ascii_dec (upper_char c2) "P"); [|done].
    destruct (ascii_dec (upper_char c3) ":") as [E|]; [|done]. intros _.
    assert (c3 = ":"%char) as ->.
    { clear -E. revert E. by_cases_on_char c3. }
    destruct (ascii_dec c1 ":"); [done|]. destruct (ascii_dec c2 ":"); [done|].
    by destruct (ascii_dec ":" ":").
Qed.

(** [parse_hotkey] is total: the index [[1]] after [split(":", 1)] is only
    taken when the text has a colon. *)
Lemma parse_hotkey_total s : exists t, parse_hotkey s = inr t.
Proof.
  unfold parse_hotkey.
  destruct (negb (truthy (strip s))); [eauto|].
  destruct (is_gamepad_hotkey (strip s)) eqn:G.
  - unfold is_gamepad_hotkey in G.
    apply startswith_GP_colon, has_strip_inv, split1_has in G.
    destruct G as (a & b & ->). simpl. eauto.
  - destruct (parse_loop _ _ _). eauto.
Qed.

(** *** The parts of a keyboard binding *)

Lemma kb_parts_ok s : Forall part_ok (kb_parts s).
Proof.
  unfold kb_parts. apply Forall_map, Forall_forall. intros p Hp.
  apply list_elem_of_filter in Hp as [Hne Hp].
  apply truthy_true in Hne.
  pose proof (split_has_sep "+" (replace "-" "+" s)) as Hplus.
  pose proof (split_has_other "+" "-" (replace "-" "+" s)
                (has_replace "-" "+" s ltac:(discriminate))) as Hminus.
  rewrite Forall_forall in Hplus, Hminus.
  destruct (strip_trimmed p Hne) as [Hf Hl].
  repeat split.
  - by rewrite first_ok_upper.
  - by rewrite last_ok_upper.
  - by apply has_upper_plus, has_strip, Hplus.
  - by apply has_upper_minus, has_strip, Hminus.
  - apply upper_idem.
Qed.

Lemma has_join c l :
  c <> "+"%char -> Forall (fun p => has c p = false) l -> has c (join "+" l) = false.
Proof.
  intros Hc. induction l as [|x l IH]; [done|]. intros Hall.
  inversion Hall as [|? ? Hx Hl]; subst. destruct l as [|y l]; [done|].
  change (has c (x +:+ "+" +:+ join "+" (y :: l)) = false).
  rewrite !has_app, Hx, (IH Hl). cbn [has orb].
  by destruct (ascii_dec "+" c) as [<-|].
Qed.

Lemma first_ok_join x l : first_ok x = true -> first_ok (join "+" (x :: l)) = true.
Proof. intros H. destruct l; [done|]. by apply first_ok_app. Qed.

Lemma last_ok_join l :
  l <> [] -> Forall (fun p => last_ok p = true) l -> last_ok (join "+" l) = true.
Proof.
  induction l as [|x l IH]; [done|]. intros _ Hall.
  inversion Hall as [|? ? Hx Hl]; subst. destruct l as [|y l]; [done|].
  change (last_ok (x +:+ "+" +:+ join "+" (y :: l)) = true).
  apply last_ok_app, last_ok_app. by apply IH.
Qed.

Lemma join_trimmed l :
  l <> [] -> Forall clean l -> strip (join "+" l) = join "+" l /\ join "+" l <> "".
Proof.
  intros Hne Hall.
  assert (first_ok (join "+" l) = true) as Hf.
  { destruct l as [|x l]; [done|]. apply first_ok_join.
    inversion Hall as [|? ? Hx _]; subst. apply Hx. }
  split; [|by apply first_ok_nonempty].
  apply trimmed_strip; [done|]. apply last_ok_join; [done|].
  eapply Forall_impl; [exact Hall|]. by intros p (_ & ? & _).
Qed.

Lemma kb_parts_join l :
  l <> [] -> Forall clean l -> kb_parts (join "+" l) = map upper l.
Proof.
  intros Hne Hall. unfold kb_parts.
  rewrite replace_absent.
  2:{ apply has_join; [discriminate|].
      eapply Forall_impl; [exact Hall|]. by intros p (_ & _ & _ & ?). }
  rewrite split_join; [|done|].
  2:{ eapply Forall_impl; [exact Hall|]. by intros p (_ & _ & ? & _). }
  clear Hne. induction Hall as [|p l (Hf & Hl & _) _ IH]; [done|].
  rewrite filter_cons_True.
  2:{ rewrite trimmed_strip by done. by apply truthy_true, first_ok_nonempty. }
  cbn [map]. by rewrite IH, trimmed_strip.
Qed.

Lemma last_in {A} (l : list A) d : l <> [] -> List.last l d ∈ l.
Proof.
  induction l as [|a l IH]; [done|]. intros _.
  destruct l as [|b l]; [apply list_elem_of_here|].
  apply list_elem_of_further. by apply IH.
Qed.

Lemma last_snoc {A} (l : list A) a d : List.last (l ++ [a]) d = a.
Proof. apply List.last_last. Qed.

(** *** Shape of the keyboard triggers that [parse_hotkey] returns *)

Lemma parse_hotkey_kb_valid s t :
  parse_hotkey s = inr t -> t_kind t = kb -> valid_kb t.
Proof.
  unfold parse_hotkey.
  destruct (negb (truthy (strip s))).
  { intros [= <-] _. repeat split; [set_solver|]. by left. }
  destruct (is_gamepad_hotkey (strip s)).
  { destruct (_ !! _); [|done]. by intros [= <-]. }
  rewrite parse_loop_spec.
  pose proof (kb_parts_ok (strip s)) as Hok. rewrite Forall_forall in Hok.
  set (ps := kb_parts (strip s)) in *.
  set (fl := filter (fun p => modifier_of p = None) ps).
  intros [= <-] _. unfold valid_kb. cbn [t_kind t_mods t_key].
  split; [done|]. split.
  { intros m. rewrite elem_of_union, elem_of_list_to_set, list_elem_of_omap.
    intros [(p & _ & Hm)|Hm]; [|set_solver]. by eapply modifier_of_range. }
  destruct (decide (ps = [])) as [Hps|Hps].
  { left. subst fl. rewrite Hps. cbn. split; [done|]. set_solver. }
  right. rewrite (bool_decide_eq_false_2 _ Hps), andb_true_r.
  destruct (decide (fl = [])) as [Hfl|Hfl].
  - rewrite Hfl. cbn [List.last truthy negb].
    pose proof (last_in ps "" Hps) as Hin. split; [by apply Hok|].
    intros m Hm. rewrite elem_of_union, elem_of_list_to_set, list_elem_of_omap.
    left. eauto.
  - pose proof (last_in fl "" Hfl) as Hin.
    apply list_elem_of_filter in Hin as [Hnone Hin].
    pose proof (Hok _ Hin) as Hp.
    assert (truthy (List.last fl "") = true) as ->.
    { apply truthy_true, first_ok_nonempty, Hp. }
    cbn [negb]. split; [done|]. intros m Hm. congruence.
Qed.

(** *** The labels of [format_hotkey] *)

Lemma mod_labels_clean mods : Forall clean (mod_labels mods).
Proof.
  unfold mod_labels. repeat case_bool_decide; repeat constructor.
Qed.

Lemma mod_labels_upper mods :
  map upper (mod_labels mods) =
    (if bool_decide ("CTRL" ∈ mods) then ["CTRL"] else []) ++
    (if bool_decide ("ALT" ∈ mods) then ["ALT"] else []) ++
    (if bool_decide ("SHIFT" ∈ mods) then ["SHIFT"] else []) ++
    (if bool_decide ("WIN" ∈ mods) then ["WIN"] else []).
Proof. unfold mod_labels. repeat case_bool_decide; reflexivity. Qed.

Lemma mod_labels_all_modifiers mods :
  filter (fun p => modifier_of p = None) (map upper (mod_labels mods)) = [].
Proof. rewrite mod_labels_upper. repeat case_bool_decide; reflexivity. Qed.

Lemma mod_labels_set mods :
  mods ⊆ MOD_NAMES ->
  list_to_set (omap modifier_of (map upper (mod_labels mods))) = mods.
Proof.
  intros Hsub. rewrite mod_labels_upper. unfold MOD_NAMES in Hsub.
  apply set_eq. intros x. rewrite elem_of_list_to_set, list_elem_of_omap.
  split.
  - intros (p & Hp & Hm). revert Hp.
    repeat case_bool_decide; cbn [app];
      rewrite ?elem_of_cons, ?elem_of_nil; intros Hp;
      repeat (destruct Hp as [->|Hp]; [by injection Hm as <-|]); done.
  - intros Hx. pose proof (Hsub _ Hx) as Hn.
    rewrite !elem_of_union, !elem_of_singleton in Hn.
    exists x. split; [|by apply modifier_of_canonical; unfold MOD_NAMES;
                        rewrite !elem_of_union, !elem_of_singleton].
    destruct Hn as [[[->| ->]| ->]| ->];
      rewrite !(bool_decide_eq_true_2 _ Hx) || idtac;
      repeat case_bool_decide; cbn [app]; rewrite ?elem_of_cons; tauto.
Qed.

Lemma mod_labels_not_gamepad mods rest :
  mod_labels mods <> [] ->
  startswith "GP:" (upper (join "+" (mod_labels mods ++ rest))) = false.
Proof.
  unfold mod_labels. repeat case_bool_decide; try done; intros _;
    destruct rest; reflexivity.
Qed.

Lemma format_hotkey_labels mods key :
  key <> "" -> upper key = key ->
  format_hotkey mods key = join "+" (mod_labels mods ++ [key]).
Proof.
  intros Hne Hup. unfold format_hotkey, mod_labels. rewrite Hup.
  apply truthy_true in Hne. rewrite Hne. by rewrite <- !app_assoc.
Qed.

(** *** Parsing what [format_hotkey] renders *)

Lemma mod_labels_nil mods : mods ⊆ MOD_NAMES -> mod_labels mods = [] -> mods = ∅.
Proof.
  unfold mod_labels, MOD_NAMES. intros Hsub.
  repeat case_bool_decide; try done. intros _. set_solver.
Qed.

Lemma parse_format_valid t :
  valid_kb t -> (t_mods t = ∅ -> startswith "GP:" (t_key t) = false) ->
  parse_hotkey (format t) = inr t.
Proof.
  destruct t as [k mods key]. unfold valid_kb, format. cbn [t_kind t_mods t_key].
  intros (-> & Hsub & [[-> ->]|[[Hclean Hup] Hmod]]) Hgp; [reflexivity|].
  assert (key <> "") as Hne by apply first_ok_nonempty, Hclean.
  rewrite format_hotkey_labels by done.
  set (l := mod_labels mods ++ [key]).
  assert (l <> []) as Hl by (subst l; by destruct (mod_labels mods)).
  assert (Forall clean l) as Hall.
  { apply Forall_app. split; [apply mod_labels_clean|by constructor]. }
  destruct (join_trimmed l Hl Hall) as [Hstrip Hjne].
  unfold parse_hotkey, is_gamepad_hotkey. rewrite !Hstrip.
  apply truthy_true in Hjne. rewrite Hjne. cbn [negb].
  assert (startswith "GP:" (upper (join "+" l)) = false) as ->.
  { subst l. destruct (decide (mod_labels mods = [])) as [E|E].
    - rewrite E. cbn [app join]. rewrite Hup. by apply Hgp, mod_labels_nil.
    - by apply mod_labels_not_gamepad. }
  rewrite kb_parts_join by done. subst l.
  rewrite parse_loop_spec, map_app, omap_app, filter_app.
  rewrite mod_labels_all_modifiers, list_to_set_app_L, mod_labels_set by done.
  cbn [map app omap list_omap]. rewrite Hup.
  assert (bool_decide (map upper (mod_labels mods) ++ [key] = []) = false) as ->.
  { apply bool_decide_eq_false_2. by destruct (map upper (mod_labels mods)). }
  rewrite last_snoc.
  destruct (modifier_of key) as [m|] eqn:Em.
  - rewrite filter_cons_False by congruence. cbn.
    f_equal. f_equal. specialize (Hmod m eq_refl). set_solver.
  - rewrite filter_cons_True by done. cbn. rewrite Hjne || idtac.
    apply truthy_true in Hne. rewrite Hne. cbn. f_equal. f_equal. set_solver.
Qed.

(** *** Controller bindings *)

Lemma length_upper s : String.length (upper s) = String.length s.
Proof. induction s as [|c s IH]; simpl; [done|]. by rewrite IH. Qed.

Lemma length_lstrip s : (String.length (lstrip s) <= String.length s)%nat.
Proof.
  induction s as [|c s IH]; simpl; [done|].
  destruct (isspace c); simpl; lia.
Qed.

Lemma length_rstrip s : (String.length (rstrip s) <= String.length s)%nat.
Proof.
  induction s as [|c s IH]; simpl; [done|].
  destruct (rstrip s); [destruct (isspace c)|]; simpl in *; lia.
Qed.

Lemma length_strip s : (String.length (strip s) <= String.length s)%nat.
Proof.
  unfold strip. etrans; [apply length_rstrip|apply length_lstrip].
Qed.

Lemma length_split1 sep s a b :
  split1 sep s = [a; b] -> (String.length b < String.length s)%nat.
Proof.
  revert a. induction s as [|c s IH]; intros a; simpl; [done|].
  destruct (ascii_dec c sep); [intros [= _ <-]; lia|].
  destruct (split1 sep s) as [|h [|h' [|]]] eqn:E; try done.
  intros [= _ <-]. specialize (IH _ eq_refl). lia.
Qed.

Lemma split1_second sep s rest :
  split1 sep s !! 1%nat = Some rest -> (String.length rest < String.length s)%nat.
Proof.
  induction s as [|c s IH]; simpl; [done|].
  destruct (ascii_dec c sep); [intros [= <-]; lia|].
  destruct (split1 sep s) as [|h t]; [done|].
  intros H. specialize (IH H). lia.
Qed.

Lemma parse_hotkey_gp s t :
  parse_hotkey s = inr t -> t_kind t = gp ->
  exists rest, split1 ":" (strip s) !! 1%nat = Some rest /\
               t = Trigger gp ∅ (upper (strip rest)).
Proof.
  unfold parse_hotkey.
  destruct (negb (truthy (strip s))); [by intros [= <-]|].
  destruct (is_gamepad_hotkey (strip s)).
  - destruct (_ !! _) as [rest|]; [|done]. intros [= <-] _. eauto.
  - destruct (parse_loop _ _ _). by intros [= <-].
Qed.

Lemma format_gp_bare s t :
  parse_hotkey s = inr t -> t_kind t = gp -> format t = t_key t.
Proof.
  intros Hp Hk. destruct (parse_hotkey_gp s t Hp Hk) as (rest & _ & ->).
  unfold format, format_hotkey. cbn. rewrite upper_idem.
  by destruct (upper (strip rest)).
Qed.

Lemma blank_lstrip s : blank s = true -> lstrip s = "".
Proof.
  induction s as [|c s IH]; simpl; [done|].
  destruct (isspace c); [auto|done].
Qed.

End Grammar.

(** ** The binding router *)

Section Router.

Lemma gate_some e a b : gate e a = Some b -> b = a.
Proof. unfold gate. repeat case_match; congruence. Qed.

(** The scan in closed form: the first matching action meets the gates,
    and nothing after it is looked at. *)
Lemma scan_spec matches e acts :
  scan matches e acts =
    inr (match List.find (action_matches matches e) acts with
         | Some a => gate e a
         | None => None
         end).
Proof.
  induction acts as [|a rest IH]; [done|].
  cbn [scan List.find]. unfold action_matches at 1, binding.
  destruct (parse_hotkey_total (hotkey_of e (action_name a) "")) as [t ->].
  by destruct (matches t).
Qed.

Lemma find_rank (f : action -> bool) a b :
  List.find f ACTIONS = Some b -> f a = true -> (rank b <= rank a)%nat.
Proof.
  unfold ACTIONS. cbn [List.find].
  destruct (f toggle_all) eqn:E0; [intros [= <-]; destruct a; cbn; lia|].
  destruct (f stall) eqn:E1; [intros [= <-]; destruct a; cbn; (lia || congruence)|].
  destruct (f speedflip) eqn:E2; [intros [= <-]; destruct a; cbn; (lia || congruence)|].
  destruct (f straightdash) eqn:E3; [intros [= <-]; destruct a; cbn; (lia || congruence)|].
  destruct (f turningdash) eqn:E4; [intros [= <-]; destruct a; cbn; (lia || congruence)|].
  destruct (f emergency) eqn:E5; [intros [= <-]; destruct a; cbn; (lia || congruence)|].
  destruct (f exit) eqn:E6; [intros [= <-]; destruct a; cbn; (lia || congruence)|].
  done.
Qed.

Lemma scan_dispatch matches e a :
  scan matches e ACTIONS = inr (Some a) ->
  first_match matches e = Some a ∧ gate e a = Some a.
Proof.
  rewrite scan_spec. fold (first_match matches e).
  destruct (first_match matches e) as [b|]; [|done].
  intros [= H]. pose proof (gate_some _ _ _ H) as ->. done.
Qed.

(** Both routers in closed form. *)
Lemma maybe_trigger_spec e tok :
  maybe_trigger_kb e tok =
    inr (if capture_mode e then None
         else match first_match (matches_kb e tok) e with
              | Some a => gate e a
              | None => None
              end) ∧
  maybe_trigger_gp e tok =
    inr (if capture_mode e then None
         else match first_match (matches_gp tok) e with
              | Some a => gate e a
              | None => None
              end).
Proof.
  unfold maybe_trigger_kb, maybe_trigger_gp.
  destruct (capture_mode e); [done|]. by rewrite !scan_spec.
Qed.

End Router.

(** ** The macro executor *)

Section MacroLaws.
Context {A B : Type}.

Lemma trace_bind (m : M A) (f : A -> M B) e :
  trace_of (m ≫= f) e =
    match outcome_of m e with
    | Returned a => trace_of m e ++ trace_of (f a) (engine_of m e)
    | _ => trace_of m e
    end.
Proof.
  unfold trace_of, outcome_of, engine_of, mbind, M_bind, bind.
  destruct (m e) as [[[a|x|] e1] t1]; cbn; [|done|done].
  by destruct (f a e1) as [[r e2] t2].
Qed.

Lemma engine_bind (m : M A) (f : A -> M B) e :
  engine_of (m ≫= f) e =
    match outcome_of m e with
    | Returned a => engine_of (f a) (engine_of m e)
    | _ => engine_of m e
    end.
Proof.
  unfold trace_of, outcome_of, engine_of, mbind, M_bind, bind.
  destruct (m e) as [[[a|x|] e1] t1]; cbn; [|done|done].
  by destruct (f a e1) as [[r e2] t2].
Qed.

Lemma outcome_bind (m : M A) (f : A -> M B) e :
  outcome_of (m ≫= f) e =
    match outcome_of m e with
    | Returned a => outcome_of (f a) (engine_of m e)
    | Raised x => Raised x
    | Running => Running
    end.
Proof.
  unfold trace_of, outcome_of, engine_of, mbind, M_bind, bind.
  destruct (m e) as [[[a|x|] e1] t1]; cbn; [|done|done].
  by destruct (f a e1) as [[r e2] t2].
Qed.

Lemma emits_bind P (m : M A) (f : A -> M B) :
  emits_only P m -> (∀ a, emits_only P (f a)) -> emits_only P (m ≫= f).
Proof.
  intros Hm Hf e. rewrite trace_bind. specialize (Hm e).
  destruct (outcome_of m e); [|done|done].
  apply Forall_app. split; [done|apply Hf].
Qed.

Lemma keeps_bind (m : M A) (f : A -> M B) :
  keeps_engine m -> (∀ a, keeps_engine (f a)) -> keeps_engine (m ≫= f).
Proof.
  intros Hm Hf e. rewrite engine_bind, Hm.
  destruct (outcome_of m e); [apply Hf|done|done].
Qed.

End MacroLaws.


Lemma emits_ret {A} P (a : A) : emits_only P (ret a).
Proof. intros e. constructor. Qed.

Lemma emits_mret {A} P (a : A) : emits_only P (mret a).
Proof. intros e. constructor. Qed.

Lemma emits_raise {A} P x : emits_only P (@raise A x).
Proof. intros e. constructor. Qed.

Lemma emits_running {A} P : emits_only P (@running A).
Proof. intros e. constructor. Qed.

Lemma emits_get P : emits_only P get.
Proof. intros e. constructor. Qed.

Lemma emits_modify P f : emits_only P (modify f).
Proof. intros e. constructor. Qed.

Lemma emits_emit P ev : P ev -> emits_only P (emit ev).
Proof. intros H e. by repeat constructor. Qed.

Lemma emits_sleep P ms : P (Sleep ms) -> emits_only P (sleep ms).
Proof.
  intros H. unfold sleep. destruct (ms <? 0); [apply emits_raise|].
  destruct (SLEEP_MAX_MS <? ms); [apply emits_raise|by apply emits_emit].
Qed.

Lemma emits_item {A} P (d : gmap string A) k : emits_only P (item d k).
Proof. unfold item. destruct (d !! k); [apply emits_ret|apply emits_raise]. Qed.

Lemma emits_lift {A} P (r : result A) : emits_only P (lift r).
Proof. destruct r; [apply emits_raise|apply emits_ret]. Qed.

Lemma emits_if {A} P (b : bool) (m1 m2 : M A) :
  emits_only P m1 -> emits_only P m2 -> emits_only P (if b then m1 else m2).
Proof. by destruct b. Qed.

Lemma emits_finally {A} P (body : M A) cleanup :
  emits_only P body -> emits_only P cleanup -> emits_only P (finally body cleanup).
Proof.
  intros Hb Hc e. specialize (Hb e). unfold trace_of, finally in *.
  destruct (body e) as [[[a|x|] e1] t1]; cbn in *; [| |done].
  all: specialize (Hc e1); unfold trace_of in Hc.
  all: destruct (cleanup e1) as [[[u|y|] e2] t2]; cbn in *.
  all: by apply Forall_app.
Qed.

Lemma keeps_ret {A} (a : A) : keeps_engine (ret a).
Proof. done. Qed.

Lemma keeps_raise {A} x : keeps_engine (@raise A x).
Proof. done. Qed.

Lemma keeps_running {A} : keeps_engine (@running A).
Proof. done. Qed.

Lemma keeps_emit ev : keeps_engine (emit ev).
Proof. done. Qed.

Lemma keeps_sleep ms : keeps_engine (sleep ms).
Proof. unfold sleep. by destruct (ms <? 0), (SLEEP_MAX_MS <? ms). Qed.

Lemma keeps_item {A} (d : gmap string A) k : keeps_engine (item d k).
Proof. unfold item. by destruct (d !! k). Qed.


Lemma emits_timing P k : emits_only P (timing k).
Proof.
  unfold timing. apply emits_bind; [apply emits_get|]. intros e.
  destruct (cfg_timings (state e)); [apply emits_item|apply emits_raise].
Qed.

Lemma keeps_timing k : keeps_engine (timing k).
Proof.
  intros e. unfold timing, engine_of, mbind, M_bind, bind, get, item, raise, ret.
  cbn. destruct (cfg_timings (state e)) as [tm|]; [|done]. by destruct (tm !! k).
Qed.

Lemma emits_hold_loop P feature cycle k key polls :
  emits_only P cycle -> emits_only P (hold_loop feature cycle k key polls).
Proof.
  intros Hc. induction polls as [|p rest IH]; cbn [hold_loop].
  - apply emits_running.
  - repeat (apply emits_if; [apply emits_ret|]).
    apply emits_bind; [done|]. intros _. exact IH.
Qed.

Lemma keeps_hold_loop feature cycle k key polls :
  keeps_engine cycle -> keeps_engine (hold_loop feature cycle k key polls).
Proof.
  intros Hc. induction polls as [|p rest IH]; cbn [hold_loop]; [done|].
  destruct (negb _); [done|]. destruct (_ || _); [done|].
  apply keeps_bind; [done|]. intros _. exact IH.
Qed.

Lemma finishes_bind {A B} (m : M A) (f : A -> M B) :
  finishes m -> (∀ a, finishes (f a)) -> finishes (m ≫= f).
Proof.
  intros Hm Hf e. rewrite outcome_bind. specialize (Hm e).
  destruct (outcome_of m e); [apply Hf|done|done].
Qed.

Lemma finishes_timing k : finishes (timing k).
Proof.
  intros e. unfold timing, outcome_of, mbind, M_bind, bind, get, item, raise, ret.
  cbn. destruct (cfg_timings (state e)) as [tm|]; [|done]. by destruct (tm !! k).
Qed.

Lemma outcome_bind_finishes {A B} (m : M A) (f : A -> M B) e :
  finishes m -> (∀ a, outcome_of (f a) (engine_of m e) ≠ Running) ->
  outcome_of (m ≫= f) e ≠ Running.
Proof.
  intros Hm Hf. rewrite outcome_bind. specialize (Hm e).
  destruct (outcome_of m e); [apply Hf|done|done].
Qed.

Lemma finishes_emit ev : finishes (emit ev).
Proof. done. Qed.

Lemma finishes_sleep ms : finishes (sleep ms).
Proof. intros e. unfold sleep. by destruct (ms <? 0), (SLEEP_MAX_MS <? ms). Qed.


Lemma emits_nothing {A} (m : M A) e :
  emits_only (fun _ => False) m -> trace_of m e = [].
Proof. intros Hm. specialize (Hm e). by destruct (trace_of m e); [|inversion Hm]. Qed.

Lemma modify_bind {A} f (m : M A) e : (modify f ≫= fun _ => m) e = m (f e).
Proof.
  unfold mbind, M_bind, bind, modify. by destruct (m (f e)) as [[r e2] t2].
Qed.

(** A [finally] whose cleanup always returns: unless the body is still
    running, the cleanup's events follow the body's and the cleanup's
    writes are applied. *)
Lemma finally_cleanup {A} (body : M A) cleanup f tr e :
  (∀ e1, cleanup e1 = (Returned tt, f e1, tr)) ->
  outcome_of (finally body cleanup) e ≠ Running ->
  outcome_of body e ≠ Running ∧
  trace_of (finally body cleanup) e = trace_of body e ++ tr ∧
  engine_of (finally body cleanup) e = f (engine_of body e).
Proof.
  intros Hc. unfold outcome_of, trace_of, engine_of, finally.
  destruct (body e) as [[[a|x|] e1] t1]; cbn; rewrite ?Hc; cbn; done.
Qed.

Lemma finally_finishes {A} (body : M A) cleanup f tr e :
  (∀ e1, cleanup e1 = (Returned tt, f e1, tr)) ->
  outcome_of body e ≠ Running -> outcome_of (finally body cleanup) e ≠ Running.
Proof.
  intros Hc. unfold outcome_of, finally.
  destruct (body e) as [[[a|x|] e1] t1]; cbn; rewrite ?Hc; cbn; done.
Qed.

(** The loop ends at the first poll at which one of its tests fails. *)
Lemma hold_loop_finishes feature cycle t polls e :
  finishes cycle ->
  Exists (fun p => stops feature t p = true) polls ->
  outcome_of (hold_loop feature cycle (t_kind t) (t_key t) polls) e ≠ Running.
Proof.
  intros Hc Hex. revert e. induction polls as [|p rest IH]; intros e.
  { inversion Hex. }
  cbn [hold_loop]. unfold stops in Hex.
  destruct (negb (negb (kill p) && hold_active p (t_kind t) (t_key t))) eqn:E1; [done|].
  destruct (negb (global_enabled p) || negb (feature_enabled p feature)) eqn:E2; [done|].
  rewrite outcome_bind. specialize (Hc e).
  destruct (outcome_of cycle e); [|done|done].
  apply IH. inversion Hex as [? ? Hp|]; subst; [|done].
  rewrite E1 in Hp. cbn [orb] in Hp. rewrite E2 in Hp. discriminate Hp.
Qed.


(** Steps of a search for [emits_only] and [keeps_engine] goals. *)
Create HintDb macro discriminated.
#[local] Hint Resolve emits_ret emits_mret emits_raise emits_running emits_get emits_modify
  emits_item emits_lift emits_timing emits_hold_loop : macro.
#[local] Hint Resolve keeps_ret keeps_raise keeps_running keeps_emit keeps_sleep
  keeps_item keeps_timing keeps_hold_loop : macro.

Ltac macro_step :=
  first
    [ solve [eauto with macro]
    | apply emits_emit; reflexivity
    | apply emits_sleep; reflexivity
    | apply emits_if
    | apply emits_finally
    | apply emits_hold_loop
    | apply keeps_hold_loop
    | apply emits_bind; [|intros ?]
    | apply keeps_bind; [|intros ?]
    | apply finishes_bind; [|intros ?]
    | apply finishes_emit
    | apply finishes_sleep ].

Ltac macro_auto := repeat macro_step.

(** ** Facts about the actions *)

Section Actions.

Lemma release_all_outputs_run e :
  release_all_outputs e = (Returned tt, e, SWEEP).
Proof. reflexivity. Qed.

Lemma act_emergency_run e :
  act_emergency e =
    (Returned tt, set_kill false e,
     [SetKill true] ++ SWEEP ++ [Beep false; Sleep 150; SetKill false]).
Proof. reflexivity. Qed.

(** Every action presses keys of the sweep only. *)
Lemma run_action_presses a polls :
  emits_only (fun ev => pressed_in RELEASE_KEYS ev = true) (run_action a polls).
Proof.
  destruct a; cbn [run_action].
  - unfold act_toggle_all. macro_auto.
  - unfold act_stall. macro_auto.
  - unfold act_speedflip. macro_auto.
  - unfold act_straightdash_hold. macro_auto.
  - unfold act_turningdash_hold. macro_auto.
  - unfold act_emergency, release_all_outputs, key_up, mouse_right. macro_auto.
  - unfold act_exit, release_all_outputs, key_up, mouse_right. macro_auto.
Qed.

Lemma held_after_keys keys tr (h : held) :
  Forall (fun ev => pressed_in keys ev = true) tr ->
  h.1 ⊆ list_to_set keys ->
  (held_after tr h).1 ⊆ list_to_set keys.
Proof.
  intros Htr. revert h. induction Htr as [|ev tr Hev _ IH]; intros h Hh; [done|].
  cbn [held_after fold_left]. apply IH.
  destruct ev; cbn in *; try done.
  - apply bool_decide_eq_true in Hev. set_solver.
  - set_solver.
Qed.

Lemma sweep_clears (h : held) :
  h.1 ⊆ list_to_set RELEASE_KEYS -> held_after SWEEP h = (∅, false).
Proof.
  intros Hh. destruct h as [ks b]. cbn in *. f_equal. set_solver.
Qed.

Lemma all_released_app keys ups tr :
  Forall (fun ev => pressed_in keys ev = true) tr ->
  (∀ k, k ∈ keys -> k ∈ ups) ->
  all_released (tr ++ map KeyUp ups).
Proof.
  intros Htr Hsub i k Hi.
  destruct (decide (i < length tr)%nat) as [Hlt|Hge].
  - rewrite lookup_app_l in Hi by done.
    rewrite Forall_forall in Htr.
    pose proof (Htr _ (list_elem_of_lookup_2 _ _ _ Hi)) as Hk. cbn in Hk.
    apply bool_decide_eq_true, Hsub, list_elem_of_lookup_1 in Hk as [j Hj].
    exists (length tr + j)%nat. split; [lia|].
    rewrite lookup_app_r by lia.
    replace (length tr + j - length tr)%nat with j by lia.
    change (map KeyUp ups) with (KeyUp <$> ups). by rewrite list_lookup_fmap, Hj.
  - rewrite lookup_app_r in Hi by lia.
    change (map KeyUp ups) with (KeyUp <$> ups) in Hi.
    rewrite list_lookup_fmap in Hi.
    destruct (ups !! _); discriminate Hi.
Qed.

(** The frame both hold actions share: mark the registry, run the body
    under [try], release and clear the registry in [finally]. *)
Lemma hold_action_cleanup name (body cleanup : M unit) keys ups e :
  (∀ e1, cleanup e1 = (Returned tt, set_running_hold name false e1, map KeyUp ups)) ->
  emits_only (fun ev => pressed_in keys ev = true) body ->
  (∀ k, k ∈ keys -> k ∈ ups) ->
  let m := modify (set_running_hold name true) ≫= fun _ => finally body cleanup in
  outcome_of m e ≠ Running ->
  ∃ tr, trace_of m e = tr ++ map KeyUp ups ∧
        Forall (fun ev => pressed_in keys ev = true) tr ∧
        all_released (trace_of m e) ∧
        running_hold (engine_of m e) !! name = Some false.
Proof.
  intros Hc Hb Hsub m. subst m.
  unfold outcome_of, trace_of, engine_of. rewrite modify_bind.
  set (e0 := set_running_hold name true e). intros Hrun.
  destruct (finally_cleanup body cleanup _ _ e0 Hc Hrun) as (_ & Htr & Hen).
  unfold trace_of, engine_of in Htr, Hen. rewrite Htr, Hen.
  exists (trace_of body e0). split; [done|]. split; [apply Hb|].
  split; [apply (all_released_app keys); [apply Hb|done]|].
  cbn. apply lookup_insert_eq.
Qed.

Lemma hold_action_finishes name (body cleanup : M unit) tr e :
  (∀ e1, cleanup e1 = (Returned tt, set_running_hold name false e1, tr)) ->
  outcome_of body (set_running_hold name true e) ≠ Running ->
  outcome_of (modify (set_running_hold name true) ≫= fun _ => finally body cleanup) e
    ≠ Running.
Proof.
  intros Hc Hb. unfold outcome_of at 1. rewrite modify_bind.
  by eapply finally_finishes.
Qed.

(** *** Actions whose flags are off *)



Lemma no_press_filter tr :
  Forall (fun ev => is_press ev = false) tr -> List.filter is_press tr = [].
Proof.
  induction 1 as [|ev tr Hev _ IH]; [done|]. cbn. by rewrite Hev.
Qed.


(** *** Running a macro step by step *)

Lemma sleep_nonneg ms e :
  0 <= ms -> ms <= SLEEP_MAX_MS -> sleep ms e = (Returned tt, e, [Sleep ms]).
Proof.
  intros H Hmax. unfold sleep.
  by rewrite (proj2 (Z.ltb_ge ms 0) H), (proj2 (Z.ltb_ge SLEEP_MAX_MS ms) Hmax).
Qed.

Lemma item_found {V} (d : gmap string V) k v e : d !! k = Some v -> item d k e = (Returned v, e, []).
Proof. intros H. unfold item. by rewrite H. Qed.

Lemma bind_run {A B} (m : M A) (f : A -> M B) e a e1 t1 r e2 t2 :
  m e = (Returned a, e1, t1) -> f a e1 = (r, e2, t2) ->
  (m ≫= f) e = (r, e2, t1 ++ t2).
Proof.
  intros H1 H2. unfold mbind, M_bind, bind. by rewrite H1, H2.
Qed.

Ltac run_with tac :=
  cbv beta iota zeta; tac; cbv beta iota zeta;
  first [ eapply bind_run; [run_with tac | run_with tac]
        | apply item_found; eassumption
        | apply sleep_nonneg; lia
        | reflexivity ].

(** *** SpeedFlip, run on timings that are present and can be slept *)

Lemma speedflip_run e p :
  global_enabled e = true -> feature_enabled e "speedflip" = true ->
  sf_reads (default ∅ (cfg_timings (state e))) p -> sf_nonneg p -> sf_bounded p ->
  act_speedflip e =
    (Returned tt, e,
     sf_opening p ++
     (if s_dur p <? d_dur p
      then [Sleep (s_dur p); KeyUp "S"; KeyDown "W"; Sleep (d_dur p - s_dur p); KeyUp "D"]
      else [Sleep (d_dur p); KeyUp "D"; Sleep (s_dur p - d_dur p); KeyUp "S"; KeyDown "W"]) ++
     wait (airroll p - Z.max (s_dur p) (d_dur p)) ++ [KeyUp "E"] ++
     wait (shift_start p - Z.max (airroll p) (Z.max (s_dur p) (d_dur p))) ++
     sf_closing p).
Proof.
  intros Hg Hf (H1&H2&H3&H4&H5&H6&H7&H8&H9&H10&H11) (N1&N2&N3&N4&N5&N6&N7&N8&N9)
         (B1&B2&B3&B4&B5&B6&B7&B8&B9&B10&B11).
  destruct p as [ah wb s d ar ss sd pj cd bj ps].
  cbn [a_hold wait_before s_dur d_dur airroll shift_start shift_dur prejump
       click_down between_jumps post_shift] in *.
  unfold act_speedflip, wait, sf_opening, sf_prelude, sf_closing.
  cbn [a_hold wait_before s_dur d_dur airroll shift_start shift_dur prejump
       click_down between_jumps post_shift].
  destruct (Z.ltb_spec s d) as [L1|L1];
  destruct (Z.ltb_spec 0 (ar - Z.max s d)) as [L2|L2];
  destruct (Z.ltb_spec 0 (ss - Z.max ar (Z.max s d))) as [L3|L3].
  all: eapply eq_trans;
    [run_with ltac:(try rewrite Hg; try rewrite Hf;
                    try rewrite (proj2 (Z.ltb_lt _ _) L1);
                    try rewrite (proj2 (Z.ltb_ge _ _) L1);
                    try rewrite (proj2 (Z.ltb_lt _ _) L2);
                    try rewrite (proj2 (Z.ltb_ge _ _) L2);
                    try rewrite (proj2 (Z.ltb_lt _ _) L3);
                    try rewrite (proj2 (Z.ltb_ge _ _) L3); cbn [negb])
    |reflexivity].
Qed.

End Actions.

(** * The claims *)

(** ** Binding grammar *)

Section GrammarClaims.
Import Py PyFacts.

(** C1, as stated, fails: the controller binding [GP:A] parses to a
    controller trigger, [format_hotkey] renders it as the bare symbol [A], and
    that parses to a keyboard trigger. *)
Lemma round_trip_fails_on_controller_binding :
  parse_hotkey "GP:A" = inr (Trigger gp ∅ "A") ∧
  parse_hotkey (format (Trigger gp ∅ "A")) = inr (Trigger kb ∅ "A") ∧
  ¬ trigger_eq (Trigger kb ∅ "A") (Trigger gp ∅ "A") ∧
  ¬ round_trip "GP:A".
Proof.
  assert (parse_hotkey "GP:A" = inr (Trigger gp ∅ "A")) as H1 by reflexivity.
  assert (parse_hotkey (format (Trigger gp ∅ "A")) = inr (Trigger kb ∅ "A"))
    as H2 by reflexivity.
  assert (¬ trigger_eq (Trigger kb ∅ "A") (Trigger gp ∅ "A")) as H3.
  { intros (Hk & _). discriminate Hk. }
  repeat split; try done.
  intros Hrt. destruct (Hrt _ H1) as (t' & Ht' & Heq).
  rewrite H2 in Ht'. injection Ht' as <-. by apply H3.
Qed.

(** A keyboard binding can also produce a symbol that reads as a controller
    binding. *)
Example keyboard_symbol_with_gp_prefix :
  parse_hotkey "+GP:A" = inr (Trigger kb ∅ "GP:A") ∧
  parse_hotkey (format (Trigger kb ∅ "GP:A")) = inr (Trigger gp ∅ "A").
Proof. split; reflexivity. Qed.

(** C1, amended: for every keyboard trigger [t] that [parse_hotkey]
    returns, parsing the rendering of [t] gives [t] back (same kind, same
    modifier set, same symbol), unless [t] has no modifier and its symbol
    begins with [GP:]; the rendering of such a trigger, and that of every
    controller trigger (its bare symbol), never parses back to an equal
    trigger. *)
Theorem round_trip_keyboard s t :
  parse_hotkey s = inr t ->
  (t_kind t = kb -> (t_mods t = ∅ -> startswith "GP:" (t_key t) = false) ->
   parse_hotkey (format t) = inr t) ∧
  (t_kind t = kb -> t_mods t = ∅ -> startswith "GP:" (t_key t) = true ->
   ∀ t', parse_hotkey (format t) = inr t' -> ¬ trigger_eq t' t) ∧
  (t_kind t = gp ->
   format t = t_key t ∧
   ∀ t', parse_hotkey (format t) = inr t' -> ¬ trigger_eq t' t).
Proof.
  intros Hp. split; [|split].
  - intros Hk Hgp. apply parse_format_valid; [|done].
    by eapply parse_hotkey_kb_valid.
  - intros Hk Hm Hgp t' Hp' (Hk' & _).
    destruct (parse_hotkey_kb_valid s t Hp Hk) as (_ & _ & [[Hkey _]|[[Hclean Hup] _]]).
    { rewrite Hkey in Hgp. discriminate Hgp. }
    assert (t_key t <> "") as Hne by apply first_ok_nonempty, Hclean.
    assert (format t = t_key t) as Hfmt.
    { unfold format. rewrite format_hotkey_labels, Hm by done. reflexivity. }
    rewrite Hfmt in Hp'. revert Hp'. unfold parse_hotkey, is_gamepad_hotkey.
    destruct Hclean as (Hf & Hl & _). rewrite !trimmed_strip by done.
    apply truthy_true in Hne. rewrite Hne, Hup, Hgp. cbn [negb].
    destruct (split1 ":" (t_key t) !! 1%nat); [|done].
    intros [= <-]. rewrite Hk in Hk'. discriminate Hk'.
  - intros Hk. split; [by eapply format_gp_bare|].
    rewrite (format_gp_bare s t Hp Hk).
    intros t' Hp' (Hk' & _ & Hkey). rewrite Hk in Hk'.
    destruct (parse_hotkey_gp _ _ Hp' Hk') as (rest & Hrest & ->).
    apply split1_second in Hrest. cbn in Hkey.
    apply (f_equal String.length) in Hkey. rewrite !length_upper in Hkey.
    pose proof (length_strip rest). pose proof (length_strip (t_key t)). lia.
Qed.

Lemma round_trip_keyboard_witness :
  parse_hotkey (format (Trigger kb {[ "CTRL" ]} "GP:A")) =
  inr (Trigger kb {[ "CTRL" ]} "GP:A").
Proof.
  refine (proj1 (round_trip_keyboard " ctrl - gp:a "
                   (Trigger kb {[ "CTRL" ]} "GP:A") _) _ _).
  - vm_compute. reflexivity.
  - reflexivity.
  - intros H. apply (f_equal (fun s : gset string => bool_decide ("CTRL" ∈ s))) in H.
    vm_compute in H. discriminate H.
Defined.

(** C10: when the text is not a controller binding and each of its tokens
    names a modifier, the symbol is not empty: the result is the keyboard
    trigger whose modifier set is the set of the named modifiers and whose
    symbol is the last token, and it matches that key name once the
    modifiers are down. *)
Theorem modifiers_only_binding s :
  is_gamepad_hotkey (strip s) = false ->
  Forall (fun tok => is_Some (modifier_of (upper (strip tok)))) (raw_tokens s) ->
  let parts := map (fun tok => upper (strip tok)) (raw_tokens s) in
  let t := Trigger kb (list_to_set (omap modifier_of parts)) (List.last parts "") in
  parse_hotkey s = inr t ∧ t_key t <> "" ∧
  (∀ p, p ∈ parts -> ∃ m, modifier_of p = Some m ∧ m ∈ t_mods t) ∧
  (∀ e, t_mods t ⊆ kb_mods e -> matches_kb e (t_key t) t = true).
Proof.
  intros Hgp Hall parts t.
  assert (raw_tokens s <> []) as Hne by apply split_nonempty.
  assert (parts <> []) as Hparts.
  { subst parts. by destruct (raw_tokens s). }
  assert (Forall (fun p => is_Some (modifier_of p)) parts) as Hmods.
  { subst parts. by apply Forall_map. }
  assert (kb_parts (strip s) = parts) as Hkb.
  { unfold kb_parts. fold (raw_tokens s). subst parts. f_equal.
    clear Hne Hparts Hmods. induction Hall as [|tok l Htok _ IH]; [done|].
    rewrite filter_cons_True, IH; [done|].
    destruct (strip tok); [by destruct Htok|done]. }
  assert (filter (fun p => modifier_of p = None) parts = []) as Hfl.
  { clear -Hmods. induction Hmods as [|p l [m Hm] _ IH]; [done|].
    rewrite filter_cons_False; [done|congruence]. }
  assert (t_key t <> "") as Hkey.
  { subst t. cbn. pose proof (last_in parts "" Hparts) as Hin.
    rewrite Forall_forall in Hmods. destruct (Hmods _ Hin) as [m Hm].
    intros E. rewrite E in Hm. discriminate Hm. }
  split; [|split; [done|split]].
  - assert (truthy (strip s) = true) as Htruthy.
    { destruct (strip s) eqn:Es; [|done]. exfalso.
      unfold raw_tokens in Hall. rewrite Es in Hall. cbn in Hall.
      inversion Hall as [|? ? [m Hm] _]. discriminate Hm. }
    unfold parse_hotkey. rewrite Htruthy, Hgp, Hkb, parse_loop_spec, Hfl. cbn.
    rewrite (bool_decide_eq_false_2 _ Hparts). cbn.
    subst t. f_equal. f_equal. set_solver.
  - intros p Hp. rewrite Forall_forall in Hmods. destruct (Hmods _ Hp) as [m Hm].
    exists m. split; [done|]. subst t. cbn.
    rewrite elem_of_list_to_set, list_elem_of_omap. eauto.
  - intros e Hsub. unfold matches_kb.
    apply truthy_true in Hkey. rewrite Hkey.
    rewrite !bool_decide_eq_true_2; done.
Qed.

Lemma modifiers_only_binding_witness :
  parse_hotkey "Ctrl+Shift" = inr (Trigger kb {[ "CTRL"; "SHIFT" ]} "SHIFT").
Proof.
  refine (eq_trans (proj1 (modifiers_only_binding "Ctrl+Shift" _ _)) _).
  - vm_compute. reflexivity.
  - repeat constructor; vm_compute; eauto.
  - vm_compute. reflexivity.
Defined.

(** C9: [parse_hotkey] returns a trigger on every text and so does each
    router; blank text gives the null trigger (keyboard, no modifier, empty
    symbol); a trigger with an empty symbol matches no token, so an action
    whose binding has an empty symbol is never started by a token. *)
Theorem null_binding_never_dispatches :
  (∀ s, ∃ t, parse_hotkey s = inr t) ∧
  (∀ s, blank s = true -> parse_hotkey s = inr (Trigger kb ∅ "")) ∧
  (∀ e name tok t, t_key t = "" ->
     matches_kb e name t = false ∧ matches_gp tok t = false) ∧
  (∀ e tok a t, binding e a = inr t -> t_key t = "" ->
     maybe_trigger_kb e tok <> inr (Some a) ∧
     maybe_trigger_gp e tok <> inr (Some a)) ∧
  (∀ e tok, (∃ d, maybe_trigger_kb e tok = inr d) ∧
            (∃ d, maybe_trigger_gp e tok = inr d)).
Proof.
  split; [exact parse_hotkey_total|].
  split.
  { intros s Hs. unfold parse_hotkey, strip. by rewrite blank_lstrip. }
  assert (∀ e name tok t, t_key t = "" ->
            matches_kb e name t = false ∧ matches_gp tok t = false) as Hnull.
  { intros e name tok t Hk. unfold matches_kb, matches_gp. rewrite Hk. cbn.
    by rewrite !andb_false_r. }
  split; [exact Hnull|].
  split.
  - intros e tok a t Hb Hk.
    assert (∀ matches, matches t = false ->
              scan matches e ACTIONS <> inr (Some a)) as Hscan.
    { intros matches Hm Hs. apply scan_dispatch in Hs as [Hf _].
      apply find_some in Hf as [_ Ha]. unfold action_matches in Ha.
      rewrite Hb in Ha. congruence. }
    destruct (Hnull e tok tok t Hk) as [Hkb Hgp].
    unfold maybe_trigger_kb, maybe_trigger_gp.
    destruct (capture_mode e); [done|]. split; by apply Hscan.
  - intros e tok. unfold maybe_trigger_kb, maybe_trigger_gp.
    destruct (capture_mode e); [by eauto|]. rewrite !scan_spec. eauto.
Qed.

End GrammarClaims.

(** ** Binding router *)

Section RouterClaims.

(** C3: each router starts at most one action per press token, and only
    the first action of the declaration order whose trigger matches can be
    the one: the scan ends there, so of two actions with the same trigger
    the later one is never started. *)
Theorem first_match_wins e tok :
  maybe_trigger_kb e tok =
    inr (if capture_mode e then None
         else match first_match (matches_kb e tok) e with
              | Some a => gate e a
              | None => None
              end) ∧
  maybe_trigger_gp e tok =
    inr (if capture_mode e then None
         else match first_match (matches_gp tok) e with
              | Some a => gate e a
              | None => None
              end) ∧
  (∀ a b, (rank a < rank b)%nat ->
     (action_matches (matches_kb e tok) e a = true ->
      maybe_trigger_kb e tok <> inr (Some b)) ∧
     (action_matches (matches_gp tok) e a = true ->
      maybe_trigger_gp e tok <> inr (Some b))).
Proof.
  destruct (maybe_trigger_spec e tok) as [Ekb Egp].
  split; [done|]. split; [done|].
  intros a b Hlt. rewrite Ekb, Egp.
  assert (∀ matches, action_matches matches e a = true ->
            (if capture_mode e then None
             else match first_match matches e with
                  | Some a => gate e a
                  | None => None
                  end) <> Some b) as H.
  { intros matches Ha. destruct (capture_mode e); [done|].
    destruct (first_match matches e) as [c|] eqn:Hf; [|done].
    intros Hg. apply gate_some in Hg as ->.
    pose proof (find_rank _ _ _ Hf Ha). lia. }
  split; intros Ha [= Hs]; by eapply H.
Qed.

(** The default bindings with [stall] rebound to the key of [speedflip]:
    pressing [H] starts [stall], the earlier of the two. *)
Example shared_trigger_starts_the_earlier_action :
  let st := Config (Some true) (Some DEFAULT_FEATURES)
                   (Some (<["stall" := "H"]> DEFAULT_HOTKEYS))
                   (Some DEFAULT_TIMINGS) in
  dispatched (on_press (new_engine st) "H") = inr (Some stall).
Proof. vm_compute. reflexivity. Qed.

Lemma deliver_running_hold e tk :
  running_hold (fst (deliver e tk)) = running_hold e.
Proof.
  destruct tk as [n|n|t|t]; cbn [deliver fst].
  - unfold on_press. by repeat case_match.
  - unfold on_release. by case_match.
  - unfold on_gamepad_press. by case_match.
  - done.
Qed.

Lemma gate_running e a :
  is_hold a = true -> running_hold e !! action_name a = Some true ->
  gate e a = None.
Proof.
  intros Hh Hr. unfold gate. rewrite Hh, Hr. cbn.
  by destruct (negb (ungated a) && negb (global_enabled e)).
Qed.

Lemma router_never_starts e a :
  gate e a = None ->
  ∀ tok, maybe_trigger_kb e tok <> inr (Some a) ∧
         maybe_trigger_gp e tok <> inr (Some a).
Proof.
  intros Hg tok. unfold maybe_trigger_kb, maybe_trigger_gp.
  destruct (capture_mode e); [done|].
  split; intros Hs; apply scan_dispatch in Hs as [_ Hs]; congruence.
Qed.

Lemma gate_ext e e' a :
  global_enabled e' = global_enabled e -> running_hold e' = running_hold e ->
  gate e' a = gate e a.
Proof. intros Hg Hr. unfold gate. by rewrite Hg, Hr. Qed.

Lemma deliver_global_enabled e tk :
  global_enabled (fst (deliver e tk)) = global_enabled e.
Proof.
  destruct tk as [n|n|t|t]; cbn [deliver fst].
  - unfold on_press. by repeat case_match.
  - unfold on_release. by case_match.
  - unfold on_gamepad_press. by case_match.
  - done.
Qed.

Lemma deliver_dispatch e tk a :
  gate e a = None -> snd (deliver e tk) <> inr (Some a).
Proof.
  intros Hg. destruct tk as [n|n|t|t]; cbn [deliver snd]; try done.
  - unfold on_press. repeat case_match; cbn [dispatched]; try done.
    all: apply router_never_starts; by erewrite gate_ext.
  - unfold on_gamepad_press. case_match; cbn [dispatched]; try done.
    apply router_never_starts. by erewrite gate_ext.
Qed.

(** While the registry entry of a hold action is true, a press token
    never starts that action again (it starts nothing at all when that
    action is the first match) and leaves the registry as it is; this holds
    for a sequence of tokens of any length. *)
Theorem running_hold_blocks_restart e a :
  is_hold a = true ->
  running_hold e !! action_name a = Some true ->
  (∀ tok,
     maybe_trigger_kb e tok <> inr (Some a) ∧
     maybe_trigger_gp e tok <> inr (Some a) ∧
     (capture_mode e = false -> first_match (matches_kb e tok) e = Some a ->
      maybe_trigger_kb e tok = inr None) ∧
     (capture_mode e = false -> first_match (matches_gp tok) e = Some a ->
      maybe_trigger_gp e tok = inr None)) ∧
  (∀ tks,
     (inr (Some a) ∉ snd (deliver_all e tks)) ∧
     running_hold (fst (deliver_all e tks)) = running_hold e).
Proof.
  intros Hh Hr. pose proof (gate_running e a Hh Hr) as Hg. split.
  - intros tok. destruct (router_never_starts e a Hg tok) as [Hkb Hgp].
    split; [done|]. split; [done|].
    destruct (maybe_trigger_spec e tok) as (Ekb & Egp).
    split; intros Hc Hf.
    + by rewrite Ekb, Hc, Hf, Hg.
    + by rewrite Egp, Hc, Hf, Hg.
  - intros tks. revert e Hr Hg. induction tks as [|tk rest IH]; intros e Hr Hg.
    { split; [apply not_elem_of_nil|done]. }
    cbn [deliver_all].
    pose proof (deliver_running_hold e tk) as Hreg.
    pose proof (deliver_global_enabled e tk) as Hglob.
    pose proof (deliver_dispatch e tk a Hg) as Hd.
    destruct (deliver e tk) as [e1 d]. cbn [fst snd] in *.
    destruct (IH e1) as [Hnot Hsame].
    { by rewrite Hreg. }
    { by erewrite gate_ext. }
    destruct (deliver_all e1 rest) as [e2 ds]. cbn [fst snd] in *.
    split; [|congruence].
    rewrite not_elem_of_cons. split; [congruence|done].
Qed.

Lemma running_hold_blocks_restart_witness :
  let e := set_running_hold "straightdash" true (new_engine DEFAULTS) in
  (inr (Some straightdash)
     ∉ snd (deliver_all e [KbPress "V"; KbPress "V"; KbPress "v"])) ∧
  running_hold (fst (deliver_all e [KbPress "V"; KbPress "V"; KbPress "v"])) = running_hold e.
Proof.
  refine (proj2 (running_hold_blocks_restart _ straightdash _ _) _);
    vm_compute; reflexivity.
Defined.

(** C6, at the failing input: the straightdash bound to the controller
    button A, and the press of A delivered twice (once by each adapter)
    before the first hold thread has run its first statement.  The routers
    read the registry and never write it, the entry is still false at the
    second delivery, and both deliveries start the action; each thread then
    runs its loop, whatever the entry says by then. *)
Lemma duplicate_presses_start_two_hold_loops :
  let st := Config (Some true) (Some DEFAULT_FEATURES)
                   (Some (<["straightdash" := "GP:A"]> DEFAULT_HOTKEYS))
                   (Some DEFAULT_TIMINGS) in
  let e0 := new_engine st in
  let r := deliver_all e0 [GpPress "GP:A"; GpPress "GP:A"] in
  r.2 = [inr (Some straightdash); inr (Some straightdash)] ∧
  running_hold r.1 !! "straightdash" = Some false ∧
  KeyDown "W" ∈ trace_of (act_straightdash_hold [r.1]) r.1 ∧
  running_hold (engine_of (modify (set_running_hold "straightdash" true)) r.1)
    !! "straightdash" = Some true ∧
  KeyDown "W" ∈ trace_of (act_straightdash_hold [r.1])
                  (set_running_hold "straightdash" true r.1).
Proof.
  repeat split; try (vm_compute; reflexivity);
    apply (bool_decide_unpack _); vm_compute; exact I.
Qed.

End RouterClaims.

(** ** Macro executor *)

Section MacroClaims.

(** What the emergency action does: it sets the kill flag, sends a key-up
    for each of W, A, S, D, Q, E, I, LShift and a right-button-up whatever
    the engine holds, then beeps, pauses and clears the kill flag.  Every
    key any action presses is among the eight, so after any action's trace
    followed by the sweep nothing is left down, and a second sweep changes
    nothing.  With the flag cleared a token handler that is called reaches
    its router again. *)
Theorem emergency_releases_everything :
  (∀ e, act_emergency e =
          (Returned tt, set_kill false e,
           [SetKill true] ++ SWEEP ++ [Beep false; Sleep 150; SetKill false])) ∧
  (∀ e, release_all_outputs e = (Returned tt, e, SWEEP)) ∧
  (∀ a polls e k,
     KeyDown k ∈ trace_of (run_action a polls) e -> k ∈ RELEASE_KEYS) ∧
  (∀ h : held,
     (∀ k, k ∈ RELEASE_KEYS -> k ∉ (held_after SWEEP h).1) ∧
     (held_after SWEEP h).2 = false ∧
     held_after SWEEP (held_after SWEEP h) = held_after SWEEP h) ∧
  (∀ a polls e,
     held_after (trace_of (run_action a polls) e ++ SWEEP) (∅, false) = (∅, false)) ∧
  (∀ e tok,
     let e' := engine_of act_emergency e in
     kill e' = false ∧
     keep_listening (on_press e' tok) = true ∧
     (tok <> "" ->
      dispatched (on_press e' tok) = maybe_trigger_kb (after (on_press e' tok)) tok) ∧
     dispatched (on_gamepad_press e' tok) =
       maybe_trigger_gp (after (on_gamepad_press e' tok)) (Py.upper tok)).
Proof.
  split; [exact act_emergency_run|].
  split; [exact release_all_outputs_run|].
  split.
  { intros a polls e k Hk.
    pose proof (run_action_presses a polls e) as H. rewrite Forall_forall in H.
    specialize (H _ Hk). by apply bool_decide_eq_true in H. }
  split.
  { intros [ks b]. cbn. split; [|split; [done|f_equal]].
    - intros k Hk. unfold RELEASE_KEYS in Hk. set_solver.
    - set_solver. }
  split.
  { intros a polls e. unfold held_after. rewrite fold_left_app.
    apply sweep_clears.
    apply (held_after_keys RELEASE_KEYS); [apply run_action_presses|done]. }
  intros e tok e'. subst e'. split; [done|]. split.
  { unfold on_press. cbn. by destruct (negb (Py.truthy tok)). }
  split; [|done].
  intros Htok. unfold on_press. cbn.
  apply PyFacts.truthy_true in Htok. by rewrite Htok.
Qed.

(** After an emergency stop a handler that is called dispatches again. *)
Example triggers_work_after_emergency :
  let e := engine_of act_emergency (new_engine DEFAULTS) in
  dispatched (on_press e "V") = inr (Some straightdash) ∧
  dispatched (on_gamepad_press (set_kill true e) "GP:A") = inr None.
Proof. split; vm_compute; reflexivity. Qed.

(** C8, at the failing input: a key pressed while the emergency action
    holds the kill flag.  [_on_press] returns [False] there, which ends the
    keyboard listener; the action then clears the flag, but the key of the
    stall, which the engine would dispatch, no longer reaches it.  A
    controller press still does. *)
Lemma emergency_can_end_the_keyboard_listener :
  let e0 := new_engine DEFAULTS in
  let during :=
    engine_of (modify (set_kill true);; emit (SetKill true);;
               release_all_outputs;; emit (Beep false)) e0 in
  kill during = true ∧
  listen true during [KbPress "X"] = (false, during, [inr None]) ∧
  engine_of (emit (Sleep 150);; modify (set_kill false);; emit (SetKill false)) during
    = e0 ∧
  engine_of act_emergency e0 = e0 ∧ kill e0 = false ∧
  listen false e0 [KbPress "F"] = (false, e0, [inr None]) ∧
  (listen true e0 [KbPress "F"]).2 = [inr (Some stall)] ∧
  (listen false e0 [GpPress "GP:A"]).2 = (listen true e0 [GpPress "GP:A"]).2.
Proof. repeat split; vm_compute; reflexivity. Qed.

(** C5: when a hold action has ended, by return or by an exception, its
    trace ends with the key-ups of its [finally] block, every key it
    pressed is among them (so each key-down is followed by a key-up of
    that key), and its registry entry is false.  It does end as soon as
    a poll shows the kill flag set, the trigger released or a flag
    turned off. *)
Theorem hold_loop_cleanup e polls :
  (outcome_of (act_straightdash_hold polls) e ≠ Running ->
   ∃ tr, trace_of (act_straightdash_hold polls) e = tr ++ map KeyUp ["Q"; "W"] ∧
         Forall (fun ev => pressed_in ["W"; "Q"] ev = true) tr ∧
         all_released (trace_of (act_straightdash_hold polls) e) ∧
         running_hold (engine_of (act_straightdash_hold polls) e) !! "straightdash"
           = Some false) ∧
  (outcome_of (act_turningdash_hold polls) e ≠ Running ->
   ∃ tr, trace_of (act_turningdash_hold polls) e
           = tr ++ map KeyUp ["A"; "D"; "Q"; "W"] ∧
         Forall (fun ev => pressed_in ["W"; "Q"; "D"; "A"] ev = true) tr ∧
         all_released (trace_of (act_turningdash_hold polls) e) ∧
         running_hold (engine_of (act_turningdash_hold polls) e) !! "turningdash"
           = Some false) ∧
  (∀ t, parse_hotkey (hotkey_of e "straightdash" "V") = inr t ->
        Exists (fun p => stops "straightdash" t p = true) polls ->
        outcome_of (act_straightdash_hold polls) e ≠ Running) ∧
  (∀ t, parse_hotkey (hotkey_of e "turningdash" "N") = inr t ->
        Exists (fun p => stops "turningdash" t p = true) polls ->
        outcome_of (act_turningdash_hold polls) e ≠ Running).
Proof.
  split; [|split; [|split]].
  - apply hold_action_cleanup; [done| |].
    + macro_auto.
    + intros k. rewrite !elem_of_cons. tauto.
  - apply hold_action_cleanup; [done| |].
    + macro_auto.
    + intros k. rewrite !elem_of_cons. tauto.
  - intros t Hp Hex. eapply hold_action_finishes; [done|].
    rewrite outcome_bind. cbn. change (hotkey_of _ ?a ?b) with (hotkey_of e a b).
    rewrite Hp. rewrite outcome_bind. cbn.
    do 2 (apply outcome_bind_finishes; [apply finishes_timing|intros ?]).
    apply hold_loop_finishes; [macro_auto|done].
  - intros t Hp Hex. eapply hold_action_finishes; [done|].
    rewrite outcome_bind. cbn. change (hotkey_of _ ?a ?b) with (hotkey_of e a b).
    rewrite Hp. rewrite outcome_bind. cbn.
    do 3 (apply outcome_bind_finishes; [apply finishes_timing|intros ?]).
    apply hold_loop_finishes; [macro_auto|done].
Qed.

(** The trigger is let go after two cycles: the loop ends and releases. *)
Example straightdash_ends_on_release :
  let e := after (on_press (new_engine DEFAULTS) "V") in
  let m := act_straightdash_hold [e; e; on_release e "V"] in
  outcome_of m e = Returned tt ∧
  List.filter is_synthetic (trace_of m e) =
    [KeyDown "W"; KeyDown "Q"; MouseRight true; MouseRight false;
     MouseRight true; MouseRight false;
     KeyDown "W"; KeyDown "Q"; MouseRight true; MouseRight false;
     MouseRight true; MouseRight false;
     KeyUp "Q"; KeyUp "W"] ∧
  running_hold (engine_of m e) !! "straightdash" = Some false.
Proof. repeat split; vm_compute; reflexivity. Qed.

(** A negative click time makes [time.sleep] raise inside the first cycle:
    both keys are still released and the registry entry is cleared. *)
Example turningdash_cleans_up_after_exception :
  let st := Config (Some true) (Some DEFAULT_FEATURES) (Some DEFAULT_HOTKEYS)
                   (Some (<["td_click_down_ms" := -1]> DEFAULT_TIMINGS)) in
  let e := after (on_press (new_engine st) "N") in
  let m := act_turningdash_hold [e; e] in
  outcome_of m e = Raised ValueError ∧
  trace_of m e =
    [KeyDown "W"; KeyDown "Q"; KeyDown "D"; Sleep 10; KeyUp "D"; KeyDown "A";
     MouseRight true; KeyUp "A"; KeyUp "D"; KeyUp "Q"; KeyUp "W"] ∧
  running_hold (engine_of m e) !! "turningdash" = Some false.
Proof. repeat split; vm_compute; reflexivity. Qed.




(** *** SpeedFlip *)

(** C2: the wait before E is released is [airroll - max(s, d)] and the wait
    before the shift pulse is [shift_start - max(airroll, max(s, d))];
    each is slept only when it is positive, so the time slept is the wait
    clamped at zero.  With s = 690, d = 720 and airroll = 799 the first
    wait is 79 ms; with airroll = 500 nothing is slept.  This is the run
    on timings [time.sleep] takes: none negative, none beyond
    [SLEEP_MAX_MS]. *)
Theorem speedflip_waits e p :
  global_enabled e = true -> feature_enabled e "speedflip" = true ->
  sf_reads (default ∅ (cfg_timings (state e))) p -> sf_nonneg p -> sf_bounded p ->
  let max_hold := Z.max (s_dur p) (d_dur p) in
  let until_e := airroll p - max_hold in
  let until_shift := shift_start p - Z.max (airroll p) max_hold in
  trace_of act_speedflip e =
    sf_opening p ++
    (if s_dur p <? d_dur p then sf_release_s_first p else sf_release_d_first p) ++
    wait until_e ++ [KeyUp "E"] ++ wait until_shift ++ sf_closing p ∧
  wait until_e = (if 0 <? until_e then [Sleep until_e] else []) ∧
  wait until_shift = (if 0 <? until_shift then [Sleep until_shift] else []) ∧
  sleep_total (wait until_e) = Z.max 0 until_e ∧
  sleep_total (wait until_shift) = Z.max 0 until_shift ∧
  (s_dur p = 690 -> d_dur p = 720 -> airroll p = 799 -> wait until_e = [Sleep 79]) ∧
  (s_dur p = 690 -> d_dur p = 720 -> airroll p = 500 -> wait until_e = []).
Proof.
  intros Hg Hf Hr Hn Hb max_hold until_e until_shift.
  split.
  { unfold trace_of. by rewrite (speedflip_run e p Hg Hf Hr Hn Hb). }
  split; [done|]. split; [done|].
  assert (∀ ms, sleep_total (wait ms) = Z.max 0 ms) as Hw.
  { intros ms. unfold wait. destruct (Z.ltb_spec 0 ms); cbn; lia. }
  split; [apply Hw|]. split; [apply Hw|].
  subst until_e max_hold. split; intros -> -> ->; reflexivity.
Qed.

Lemma speedflip_waits_witness :
  trace_of act_speedflip (new_engine DEFAULTS) =
    sf_opening DEFAULT_SF ++ sf_release_s_first DEFAULT_SF ++
    [Sleep 79] ++ [KeyUp "E"] ++ [Sleep 41] ++ sf_closing DEFAULT_SF.
Proof.
  refine (proj1 (speedflip_waits (new_engine DEFAULTS) DEFAULT_SF _ _ _ _ _)).
  - vm_compute. reflexivity.
  - vm_compute. reflexivity.
  - repeat split; vm_compute; reflexivity.
  - repeat split; vm_compute; discriminate.
  - repeat split; vm_compute; discriminate.
Defined.

(** The same run with [sf_airroll_time_ms] set to 500: E is released
    right after D, with no sleep in between. *)
Example speedflip_short_airroll :
  let st := Config (Some true) (Some DEFAULT_FEATURES) (Some DEFAULT_HOTKEYS)
                   (Some (<["sf_airroll_time_ms" := 500]> DEFAULT_TIMINGS)) in
  trace_of act_speedflip (new_engine st) =
    sf_opening DEFAULT_SF ++ sf_release_s_first DEFAULT_SF ++
    [KeyUp "E"] ++ [Sleep 120] ++ sf_closing DEFAULT_SF.
Proof. vm_compute. reflexivity. Qed.

(** The same run with [sf_a_hold_ms] one millisecond beyond
    [SLEEP_MAX_MS]: the first sleep raises, and I and A stay down. *)
Example speedflip_sleep_overflow :
  let st := Config (Some true) (Some DEFAULT_FEATURES) (Some DEFAULT_HOTKEYS)
                   (Some (<["sf_a_hold_ms" := SLEEP_MAX_MS + 1]> DEFAULT_TIMINGS)) in
  outcome_of act_speedflip (new_engine st) = Raised OverflowError ∧
  trace_of act_speedflip (new_engine st) = [KeyDown "I"; KeyDown "A"].
Proof. split; vm_compute; reflexivity. Qed.

(** C7: once S and D are both down, the key with the smaller duration is
    released first: for [s < d] S is released after [s] ms, W goes down
    and D is released [d - s] ms later; otherwise D is released after
    [d] ms and S, followed by W going down, [s - d] ms later.  Neither key
    is released again afterwards.  This is the run on timings
    [time.sleep] takes: none negative, none beyond [SLEEP_MAX_MS]. *)
Theorem speedflip_release_order e p :
  global_enabled e = true -> feature_enabled e "speedflip" = true ->
  sf_reads (default ∅ (cfg_timings (state e))) p -> sf_nonneg p -> sf_bounded p ->
  ∃ tail,
    Forall (fun ev => ev ≠ KeyUp "S" ∧ ev ≠ KeyUp "D") tail ∧
    (s_dur p < d_dur p ->
     0 < d_dur p - s_dur p ∧
     trace_of act_speedflip e =
       sf_prelude p ++ [KeyDown "S"; KeyDown "D"] ++
       [Sleep (s_dur p); KeyUp "S"; KeyDown "W";
        Sleep (d_dur p - s_dur p); KeyUp "D"] ++ tail) ∧
    (d_dur p <= s_dur p ->
     0 <= s_dur p - d_dur p ∧
     trace_of act_speedflip e =
       sf_prelude p ++ [KeyDown "S"; KeyDown "D"] ++
       [Sleep (d_dur p); KeyUp "D";
        Sleep (s_dur p - d_dur p); KeyUp "S"; KeyDown "W"] ++ tail).
Proof.
  intros Hg Hf Hr Hn Hb.
  exists (wait (airroll p - Z.max (s_dur p) (d_dur p)) ++ [KeyUp "E"] ++
          wait (shift_start p - Z.max (airroll p) (Z.max (s_dur p) (d_dur p))) ++
          sf_closing p).
  split.
  { unfold wait, sf_closing. repeat case_match; repeat constructor; discriminate. }
  unfold trace_of. rewrite (speedflip_run e p Hg Hf Hr Hn Hb). cbn [snd].
  unfold sf_opening. rewrite <- !app_assoc.
  split; intros Hlt; (split; [lia|]).
  - apply Z.ltb_lt in Hlt. rewrite Hlt. reflexivity.
  - apply Z.ltb_ge in Hlt. rewrite Hlt. reflexivity.
Qed.

Lemma speedflip_release_order_witness :
  ∃ tail,
    Forall (fun ev => ev ≠ KeyUp "S" ∧ ev ≠ KeyUp "D") tail ∧
    (690 < 720 ->
     0 < 720 - 690 ∧
     trace_of act_speedflip (new_engine DEFAULTS) =
       sf_prelude DEFAULT_SF ++ [KeyDown "S"; KeyDown "D"] ++
       [Sleep 690; KeyUp "S"; KeyDown "W"; Sleep (720 - 690); KeyUp "D"] ++ tail) ∧
    (720 <= 690 ->
     0 <= 690 - 720 ∧
     trace_of act_speedflip (new_engine DEFAULTS) =
       sf_prelude DEFAULT_SF ++ [KeyDown "S"; KeyDown "D"] ++
       [Sleep 720; KeyUp "D"; Sleep (690 - 720); KeyUp "S"; KeyDown "W"] ++ tail).
Proof.
  refine (speedflip_release_order (new_engine DEFAULTS) DEFAULT_SF _ _ _ _ _).
  - vm_compute. reflexivity.
  - vm_compute. reflexivity.
  - repeat split; vm_compute; reflexivity.
  - repeat split; vm_compute; discriminate.
  - repeat split; vm_compute; discriminate.
Defined.

(** With the two durations swapped D is released first. *)
Example speedflip_d_first :
  let st := Config (Some true) (Some DEFAULT_FEATURES) (Some DEFAULT_HOTKEYS)
                   (Some (<["sf_s_hold_ms" := 720]>
                            (<["sf_d_hold_ms" := 690]> DEFAULT_TIMINGS))) in
  let p := SfTimings 80 20 720 690 799 840 130 20 20 40 50 in
  trace_of act_speedflip (new_engine st) =
    sf_opening p ++
    [Sleep 690; KeyUp "D"; Sleep 30; KeyUp "S"; KeyDown "W"] ++
    [Sleep 79; KeyUp "E"; Sleep 41] ++ sf_closing p.
Proof. vm_compute. reflexivity. Qed.

End MacroClaims.

(** * Further properties *)

(** ** Token handlers *)

Section EngineExtras.

Lemma update_kb_mods_range name down mods :
  mods ⊆ MOD_NAMES -> update_kb_mods name down mods ⊆ MOD_NAMES.
Proof.
  intros H. unfold update_kb_mods, set_member, MOD_NAMES in *.
  repeat case_match; set_solver.
Qed.

Lemma deliver_tracked e tk : tracked_ok e -> tracked_ok (deliver e tk).1.
Proof.
  intros [Hm Hp]. destruct tk as [n|n|t|t]; cbn [deliver fst].
  - unfold on_press. destruct (kill e); [done|].
    destruct (negb (Py.truthy n)); [done|]. cbn. split.
    + by apply update_kb_mods_range.
    + intros m Hmem. case_bool_decide; [by apply Hp|].
      specialize (Hp m Hmem). set_solver.
  - unfold on_release. destruct (negb (Py.truthy n)); [done|]. cbn. split.
    + by apply update_kb_mods_range.
    + intros m Hmem. specialize (Hp m Hmem). set_solver.
  - unfold on_gamepad_press. by destruct (kill e).
  - done.
Qed.

Lemma deliver_all_tracked e tks : tracked_ok e -> tracked_ok (deliver_all e tks).1.
Proof.
  revert e. induction tks as [|tk rest IH]; intros e He; [done|].
  cbn [deliver_all]. pose proof (deliver_tracked e tk He) as H1.
  destruct (deliver e tk) as [e1 d]. specialize (IH e1 H1).
  by destruct (deliver_all e1 rest) as [e2 ds].
Qed.

(** X1: whatever tokens are delivered to a new engine, [_kb_mods] holds
    names of [MOD_NAMES] only and [_kb_pressed] holds none of the four
    names of [MOD_NAMES].  (A key pynput names otherwise, as CTRL_L or
    SHIFT_R, is not in [MOD_NAMES]: its name does enter [_kb_pressed].) *)
Theorem keyboard_sets_invariant st tks :
  let e := (deliver_all (new_engine st) tks).1 in
  kb_mods e ⊆ MOD_NAMES ∧ ∀ m, m ∈ MOD_NAMES -> m ∉ kb_pressed e.
Proof.
  apply deliver_all_tracked. split; [set_solver|]. intros m _. set_solver.
Qed.

(** The left control key, as pynput names it: the modifier is recorded and
    the key's own name is tracked as pressed. *)
Example ctrl_l_is_tracked_as_pressed :
  let e := (deliver_all (new_engine DEFAULTS) [KbPress "CTRL_L"]).1 in
  kb_mods e = {[ "CTRL" ]} ∧ kb_pressed e = {[ "CTRL_L" ]}.
Proof. split; vm_compute; reflexivity. Qed.

(** *** Hold loops and the pressed sets *)

Lemma hold_loop_not_held feature cycle k key polls :
  Forall (fun p => hold_active p k key = false) polls ->
  emits_only (fun _ => False) (hold_loop feature cycle k key polls).
Proof.
  intros Hp. destruct Hp as [|p rest Hoff _]; cbn [hold_loop].
  - apply emits_running.
  - rewrite Hoff, andb_false_r. apply emits_ret.
Qed.

Lemma trace_finally_forall {A} P (body : M A) cleanup e :
  Forall P (trace_of body e) -> emits_only P cleanup ->
  Forall P (trace_of (finally body cleanup) e).
Proof.
  intros Hb Hc. unfold trace_of, finally in *.
  destruct (body e) as [[[a|x|] e1] t1]; cbn in *; [| |done].
  all: specialize (Hc e1); unfold trace_of in Hc.
  all: destruct (cleanup e1) as [[[u|y|] e2] t2]; cbn in *.
  all: by apply Forall_app.
Qed.

Lemma trace_timing_bind {B} P k (f : Z -> M B) e :
  (∀ v, Forall P (trace_of (f v) e)) -> Forall P (trace_of (timing k ≫= f) e).
Proof.
  intros Hf. rewrite trace_bind, keeps_timing.
  rewrite (emits_nothing (timing k) e) by apply emits_timing.
  destruct (outcome_of (timing k) e); [apply Hf|done|done].
Qed.

(** The trace of a hold action whose loop never finds its trigger held. *)
Lemma hold_action_not_held a e polls t :
  is_hold a = true ->
  parse_hotkey (hold_binding e a) = inr t ->
  Forall (fun p => hold_active p (t_kind t) (t_key t) = false) polls ->
  Forall (fun ev => is_press ev = false) (trace_of (run_action a polls) e).
Proof.
  intros Hh Hp Hpolls.
  destruct a; try discriminate Hh; cbn [run_action];
    unfold act_straightdash_hold, act_turningdash_hold, trace_of;
    rewrite modify_bind; fold (@trace_of unit);
    (apply trace_finally_forall; [|macro_auto]);
    rewrite trace_bind; cbn;
    change (hotkey_of _ ?n ?d) with (hotkey_of e n d);
    unfold hold_binding in Hp; cbn [action_name] in Hp; rewrite Hp;
    rewrite trace_bind; cbn;
    repeat (apply trace_timing_bind; intros ?);
    (eapply Forall_impl;
     [apply (hold_loop_not_held _ _ _ _ _ Hpolls)|done]).
Qed.

(** X2: a hold action whose keyboard symbol is the name of a modifier
    (a binding such as [Shift] or [Ctrl+Alt]) never runs a cycle: the
    handlers never put such a name into [_kb_pressed], so the loop finds
    its trigger released at the first poll and presses nothing. *)
Theorem modifier_bound_hold_never_cycles a e polls t :
  is_hold a = true ->
  parse_hotkey (hold_binding e a) = inr t ->
  t_kind t = kb -> Py.upper (t_key t) ∈ MOD_NAMES ->
  Forall tracked_ok polls ->
  List.filter is_press (trace_of (run_action a polls) e) = [].
Proof.
  intros Hh Hp Hk Hm Hpolls. apply no_press_filter.
  apply (hold_action_not_held a e polls t Hh Hp).
  eapply Forall_impl; [exact Hpolls|]. intros p [_ Hnot]. cbn beta.
  rewrite Hk. cbn. apply bool_decide_eq_false_2. by apply Hnot.
Qed.

Lemma modifier_bound_hold_never_cycles_witness :
  let st := Config (Some true) (Some DEFAULT_FEATURES)
                   (Some (<["straightdash" := "Ctrl+Shift"]> DEFAULT_HOTKEYS))
                   (Some DEFAULT_TIMINGS) in
  let e := (deliver_all (new_engine st) [KbPress "CTRL"; KbPress "SHIFT"]).1 in
  List.filter is_press (trace_of (run_action straightdash [e; e]) e) = [].
Proof.
  refine (modifier_bound_hold_never_cycles straightdash _ _
            (Trigger kb {[ "CTRL"; "SHIFT" ]} "SHIFT") _ _ _ _ _).
  - reflexivity.
  - vm_compute. reflexivity.
  - reflexivity.
  - vm_compute. set_solver.
  - repeat constructor; try (vm_compute; set_solver).
    all: intros m Hm; vm_compute; set_solver.
Defined.

(** *** From the press that starts a hold loop to the release that ends it *)

Lemma hold_action_ends a e polls t :
  is_hold a = true ->
  parse_hotkey (hold_binding e a) = inr t ->
  Exists (fun p => stops (action_name a) t p = true) polls ->
  outcome_of (run_action a polls) e ≠ Running.
Proof.
  intros Hh Hp Hex. unfold hold_binding in Hp.
  destruct a; try discriminate Hh; cbn [run_action action_name] in *.
  - eapply hold_action_finishes; [done|].
    rewrite outcome_bind. cbn. change (hotkey_of _ ?a ?b) with (hotkey_of e a b).
    rewrite Hp. rewrite outcome_bind. cbn.
    do 2 (apply outcome_bind_finishes; [apply finishes_timing|intros ?]).
    apply hold_loop_finishes; [macro_auto|done].
  - eapply hold_action_finishes; [done|].
    rewrite outcome_bind. cbn. change (hotkey_of _ ?a ?b) with (hotkey_of e a b).
    rewrite Hp. rewrite outcome_bind. cbn.
    do 3 (apply outcome_bind_finishes; [apply finishes_timing|intros ?]).
    apply hold_loop_finishes; [macro_auto|done].
Qed.

Lemma hold_action_after a e polls :
  is_hold a = true ->
  outcome_of (run_action a polls) e ≠ Running ->
  running_hold (engine_of (run_action a polls) e) !! action_name a = Some false ∧
  all_released (trace_of (run_action a polls) e).
Proof.
  intros Hh Hrun.
  destruct a; try discriminate Hh; cbn [run_action action_name] in *.
  - assert (∃ tr, trace_of (act_straightdash_hold polls) e
                      = tr ++ map KeyUp ["Q"; "W"] ∧
                    Forall (fun ev => pressed_in ["W"; "Q"] ev = true) tr ∧
                    all_released (trace_of (act_straightdash_hold polls) e) ∧
                    running_hold (engine_of (act_straightdash_hold polls) e)
                      !! "straightdash" = Some false) as (tr & _ & _ & Hrel & Hreg).
    { revert Hrun. apply hold_action_cleanup; [done|macro_auto|].
      intros k. rewrite !elem_of_cons. tauto. }
    done.
  - assert (∃ tr, trace_of (act_turningdash_hold polls) e
                      = tr ++ map KeyUp ["A"; "D"; "Q"; "W"] ∧
                    Forall (fun ev => pressed_in ["W"; "Q"; "D"; "A"] ev = true) tr ∧
                    all_released (trace_of (act_turningdash_hold polls) e) ∧
                    running_hold (engine_of (act_turningdash_hold polls) e)
                      !! "turningdash" = Some false) as (tr & _ & _ & Hrel & Hreg).
    { revert Hrun. apply hold_action_cleanup; [done|macro_auto|].
      intros k. rewrite !elem_of_cons. tauto. }
    done.
Qed.

(** A hold action the keyboard router starts has a stored binding that
    parses to the trigger the loop will poll. *)
Lemma dispatched_binding matches e a :
  (∀ t, matches t = true -> t_key t <> "") ->
  scan matches e ACTIONS = inr (Some a) ->
  ∃ t, parse_hotkey (hold_binding e a) = inr t ∧ matches t = true.
Proof.
  intros Hkey Hs. apply scan_dispatch in Hs as [Hf _].
  apply find_some in Hf as [_ Ha]. unfold action_matches, binding in Ha.
  unfold hold_binding, hotkey_of in *.
  destruct (default ∅ (cfg_hotkeys (state e)) !! action_name a) as [s|]; cbn in *.
  - destruct (parse_hotkey s) as [|t]; [done|]. eauto.
  - exfalso. by apply (Hkey (Trigger kb ∅ "")).
Qed.

(** X3: when a key press (or controller press) starts a hold action and a
    later poll shows the engine after the release of that key (or button),
    the action ends there at the latest: its registry entry is false again
    and every key it pressed has been released. *)
Theorem hold_ends_when_trigger_released e a before p rest :
  is_hold a = true ->
  (∀ name, Py.upper name = name ->
     dispatched (on_press e name) = inr (Some a) ->
     let e1 := after (on_press e name) in
     let m := run_action a (before ++ on_release p name :: rest) in
     outcome_of m e1 ≠ Running ∧
     running_hold (engine_of m e1) !! action_name a = Some false ∧
     all_released (trace_of m e1)) ∧
  (∀ tok,
     dispatched (on_gamepad_press e tok) = inr (Some a) ->
     let e1 := after (on_gamepad_press e tok) in
     let m := run_action a (before ++ on_gamepad_release p tok :: rest) in
     outcome_of m e1 ≠ Running ∧
     running_hold (engine_of m e1) !! action_name a = Some false ∧
     all_released (trace_of m e1)).
Proof.
  intros Hh. split.
  - intros name Hup Hd e1 m.
    assert (outcome_of m e1 ≠ Running) as Hrun; [|by split; [|apply hold_action_after]].
    subst m e1. unfold on_press in *.
    destruct (kill e); [discriminate Hd|].
    destruct (Py.truthy name) eqn:Hname; cbn [negb] in *; [|discriminate Hd].
    cbn [after dispatched] in *. unfold maybe_trigger_kb in Hd.
    destruct (capture_mode _); [discriminate Hd|].
    apply dispatched_binding in Hd as (t & Hp & Hm).
    2:{ intros t Ht. unfold matches_kb in Ht.
        apply PyFacts.truthy_true. by destruct (Py.truthy (t_key t)); [|rewrite andb_false_r in Ht]. }
    apply (hold_action_ends a _ _ t Hh Hp).
    apply Exists_app. right. apply Exists_cons_hd.
    unfold matches_kb in Hm. apply andb_prop in Hm as [Hm _].
    apply andb_prop in Hm as [Hm Heq]. apply andb_prop in Hm as [Hk _].
    apply bool_decide_eq_true in Hk, Heq.
    unfold stops, hold_active, on_release. rewrite Hk, Hname. cbn.
    rewrite <- Heq, Hup. rewrite bool_decide_eq_false_2 by set_solver.
    by rewrite andb_false_r.
  - intros tok Hd e1 m.
    assert (outcome_of m e1 ≠ Running) as Hrun; [|by split; [|apply hold_action_after]].
    subst m e1. unfold on_gamepad_press in *.
    destruct (kill e); [discriminate Hd|].
    cbn [after dispatched] in *. unfold maybe_trigger_gp in Hd.
    destruct (capture_mode _); [discriminate Hd|].
    apply dispatched_binding in Hd as (t & Hp & Hm).
    2:{ intros t Ht. unfold matches_gp in Ht.
        apply PyFacts.truthy_true. by destruct (Py.truthy (t_key t)); [|rewrite andb_false_r in Ht]. }
    apply (hold_action_ends a _ _ t Hh Hp).
    apply Exists_app. right. apply Exists_cons_hd.
    unfold matches_gp in Hm. apply andb_prop in Hm as [Hm Heq].
    apply andb_prop in Hm as [Hk _].
    apply bool_decide_eq_true in Hk, Heq.
    unfold stops, hold_active, on_gamepad_release. rewrite Hk. cbn.
    rewrite <- Heq. rewrite bool_decide_eq_false_2 by set_solver.
    by rewrite andb_false_r.
Qed.

Lemma hold_ends_when_trigger_released_witness :
  let st := Config (Some true) (Some DEFAULT_FEATURES)
                   (Some (<["straightdash" := "GP:A"]> DEFAULT_HOTKEYS))
                   (Some DEFAULT_TIMINGS) in
  let e := new_engine st in
  let e1 := after (on_gamepad_press e "GP:A") in
  let m := run_action straightdash ([e1] ++ on_gamepad_release e1 "GP:A" :: []) in
  outcome_of m e1 ≠ Running ∧
  running_hold (engine_of m e1) !! "straightdash" = Some false ∧
  all_released (trace_of m e1).
Proof.
  refine (proj2 (hold_ends_when_trigger_released _ straightdash _ _ _ _) "GP:A" _);
    vm_compute; reflexivity.
Defined.

(** *** Tokens that start nothing *)

Lemma deliver_kill e tk :
  kill e = true ->
  (deliver e tk).2 = inr None ∧ kill (deliver e tk).1 = true ∧
  kb_pressed (deliver e tk).1 ⊆ kb_pressed e ∧
  gp_pressed (deliver e tk).1 ⊆ gp_pressed e.
Proof.
  intros Hk. destruct tk as [n|n|t|t]; cbn [deliver fst snd].
  - unfold on_press. by rewrite Hk.
  - unfold on_release. destruct (negb (Py.truthy n)); cbn; [done|].
    repeat split; [done|set_solver|done].
  - unfold on_gamepad_press. by rewrite Hk.
  - cbn. repeat split; [done|done|set_solver].
Qed.

Lemma deliver_capture e tk :
  capture_mode e = true ->
  (deliver e tk).2 = inr None ∧ capture_mode (deliver e tk).1 = true.
Proof.
  intros Hc. destruct tk as [n|n|t|t]; cbn [deliver fst snd].
  - unfold on_press. destruct (kill e); [done|].
    destruct (negb (Py.truthy n)); [done|].
    cbn. unfold maybe_trigger_kb. cbn. by rewrite Hc.
  - unfold on_release. by case_match.
  - unfold on_gamepad_press. destruct (kill e); [done|].
    cbn. unfold maybe_trigger_gp. cbn. by rewrite Hc.
  - done.
Qed.

(** X4: while the kill flag is set no token starts an action and no
    press is recorded (the pressed sets can only shrink, through releases);
    while capture mode is set no token starts an action either, however
    many tokens arrive. *)
Theorem kill_and_capture_suppress_dispatch e tks :
  (kill e = true ->
   Forall (fun d => d = inr None) (deliver_all e tks).2 ∧
   kill (deliver_all e tks).1 = true ∧
   kb_pressed (deliver_all e tks).1 ⊆ kb_pressed e ∧
   gp_pressed (deliver_all e tks).1 ⊆ gp_pressed e) ∧
  (capture_mode e = true ->
   Forall (fun d => d = inr None) (deliver_all e tks).2 ∧
   capture_mode (deliver_all e tks).1 = true).
Proof.
  split.
  - revert e. induction tks as [|tk rest IH]; intros e Hk; [done|].
    cbn [deliver_all]. destruct (deliver_kill e tk Hk) as (Hd & Hk1 & Hkb & Hgp).
    destruct (deliver e tk) as [e1 d]. cbn [fst snd] in *.
    destruct (IH e1 Hk1) as (Hds & Hk2 & Hkb2 & Hgp2).
    destruct (deliver_all e1 rest) as [e2 ds]. cbn [fst snd] in *.
    repeat split; [by constructor|done|set_solver|set_solver].
  - revert e. induction tks as [|tk rest IH]; intros e Hc; [done|].
    cbn [deliver_all]. destruct (deliver_capture e tk Hc) as (Hd & Hc1).
    destruct (deliver e tk) as [e1 d]. cbn [fst snd] in *.
    destruct (IH e1 Hc1) as (Hds & Hc2).
    destruct (deliver_all e1 rest) as [e2 ds]. cbn [fst snd] in *.
    split; [by constructor|done].
Qed.

(** *** Who writes the configuration *)

Lemma keeps_state_bind {A B} (m : M A) (f : A -> M B) :
  keeps_state m -> (∀ a, keeps_state (f a)) -> keeps_state (m ≫= f).
Proof.
  intros Hm Hf e. rewrite engine_bind.
  destruct (outcome_of m e); [by rewrite Hf|done|done].
Qed.

Lemma keeps_state_of_keeps {A} (m : M A) : keeps_engine m -> keeps_state m.
Proof. intros H e. by rewrite H. Qed.

Lemma keeps_state_modify f : (∀ e, state (f e) = state e) -> keeps_state (modify f).
Proof. intros Hf e. apply Hf. Qed.

Lemma keeps_state_if {A} (b : bool) (m1 m2 : M A) :
  keeps_state m1 -> keeps_state m2 -> keeps_state (if b then m1 else m2).
Proof. by destruct b. Qed.

Lemma keeps_state_finally {A} (body : M A) cleanup :
  keeps_state body -> keeps_state cleanup -> keeps_state (finally body cleanup).
Proof.
  intros Hb Hc e. specialize (Hb e). unfold engine_of, finally in *.
  destruct (body e) as [[[a|x|] e1] t1]; cbn in *; [| |done].
  all: specialize (Hc e1); unfold engine_of in Hc.
  all: destruct (cleanup e1) as [[[u|y|] e2] t2]; cbn in *; congruence.
Qed.

Lemma keeps_state_hold_loop feature cycle k key polls :
  keeps_state cycle -> keeps_state (hold_loop feature cycle k key polls).
Proof.
  intros Hc. induction polls as [|p rest IH]; cbn [hold_loop]; [done|].
  destruct (negb _); [done|]. destruct (_ || _); [done|].
  apply keeps_state_bind; [done|]. intros _. exact IH.
Qed.

Lemma keeps_engine_get : keeps_engine get.
Proof. done. Qed.

Lemma keeps_engine_lift {A} (r : result A) : keeps_engine (lift r).
Proof. by destruct r. Qed.

Ltac state_step :=
  first
    [ apply keeps_state_modify; reflexivity
    | apply keeps_state_of_keeps;
      first [ apply keeps_engine_get | apply keeps_engine_lift | apply keeps_timing
            | apply keeps_item | apply keeps_emit | apply keeps_sleep
            | apply keeps_ret | apply keeps_raise ]
    | apply keeps_state_if
    | apply keeps_state_finally
    | apply keeps_state_hold_loop
    | apply keeps_state_bind; [|intros ?] ].

Lemma actions_keep_state a polls :
  a <> toggle_all -> keeps_state (run_action a polls).
Proof.
  intros Ha. destruct a; try congruence; cbn [run_action].
  - unfold act_stall. repeat state_step.
  - unfold act_speedflip. repeat state_step.
  - unfold act_straightdash_hold. repeat state_step.
  - unfold act_turningdash_hold. repeat state_step.
  - unfold act_emergency, release_all_outputs. repeat state_step.
  - unfold act_exit, release_all_outputs. repeat state_step.
Qed.

(** X5: of all actions only [toggle_all] writes the configuration, and it
    writes the global flag only: the flag is negated (an absent flag
    counts as true), features, hotkeys and timings stay, the new
    configuration is saved once, and a second run restores the flag. *)
Theorem only_toggle_all_writes_configuration e :
  (∀ a polls, a <> toggle_all -> state (engine_of (run_action a polls) e) = state e) ∧
  (let e' := engine_of act_toggle_all e in
   state e' = Config (Some (negb (global_enabled e))) (cfg_features (state e))
                     (cfg_hotkeys (state e)) (cfg_timings (state e)) ∧
   same_runtime e' e ∧ kill e' = kill e ∧
   trace_of act_toggle_all e =
     [RegSave; Beep (negb (global_enabled e))] ++
     (if on_toggle_all e then [ToggleNotify (negb (global_enabled e))] else []) ∧
   global_enabled (engine_of act_toggle_all e') = global_enabled e).
Proof.
  split; [intros a polls Ha; by apply actions_keep_state|].
  unfold act_toggle_all, engine_of, trace_of, mbind, M_bind, bind, get, modify, emit.
  cbn. destruct (on_toggle_all e) eqn:Ht; cbn; rewrite ?Ht; cbn;
    unfold same_runtime, global_enabled; cbn; by rewrite negb_involutive.
Qed.

End EngineExtras.

(** *** Modifier keys *)

Section Modifiers.
Import Py PyFacts.

Lemma contains_nonempty sub s : contains sub s = true -> sub <> "" -> s <> "".
Proof. intros H Hsub ->. cbn in H. destruct sub; [done|]. by cbn in H. Qed.

Lemma modifier_key_named name m :
  m ∈ update_kb_mods name true ∅ -> truthy name = true.
Proof.
  unfold update_kb_mods, set_member.
  destruct name as [|c r]; [|done]. cbn. set_solver.
Qed.

Lemma release_clears_kind name m mods :
  m ∈ update_kb_mods name true ∅ -> m ∉ update_kb_mods name false mods.
Proof.
  unfold update_kb_mods, set_member. cbn zeta.
  generalize (contains "CTRL" (upper name) || contains "CONTROL" (upper name)).
  generalize (contains "ALT" (upper name)).
  generalize (contains "SHIFT" (upper name)).
  generalize (contains "WIN" (upper name) || contains "SUPER" (upper name)
              || contains "META" (upper name) || contains "CMD" (upper name)).
  intros [] [] [] []; rewrite ?elem_of_union, ?elem_of_singleton, ?elem_of_empty;
    intros H; rewrite ?not_elem_of_difference, ?elem_of_singleton;
    set_solver.
Qed.

Lemma press_sets_kind name m mods :
  m ∈ update_kb_mods name true ∅ -> m ∈ update_kb_mods name true mods.
Proof.
  unfold update_kb_mods, set_member. cbn zeta.
  generalize (contains "CTRL" (upper name) || contains "CONTROL" (upper name)).
  generalize (contains "ALT" (upper name)).
  generalize (contains "SHIFT" (upper name)).
  generalize (contains "WIN" (upper name) || contains "SUPER" (upper name)
              || contains "META" (upper name) || contains "CMD" (upper name)).
  intros [] [] [] []; set_solver.
Qed.

(** X26: the engine tracks a modifier by kind, not by key.  With two keys
    of one kind down (both Ctrl keys, say), the release of one of them
    takes the modifier out of [_kb_mods] although the other is still held,
    and from then on no binding that needs the modifier matches any key. *)
Theorem modifier_tracked_per_kind e n1 n2 m :
  m ∈ update_kb_mods n1 true ∅ -> m ∈ update_kb_mods n2 true ∅ ->
  kill e = false ->
  let e2 := (deliver_all e [KbPress n1; KbPress n2]).1 in
  let e3 := (deliver e2 (KbRelease n1)).1 in
  m ∈ kb_mods e2 ∧ (m ∉ kb_mods e3) ∧
  ∀ name t, m ∈ t_mods t -> matches_kb e3 name t = false.
Proof.
  intros H1 H2 Hk e2 e3.
  pose proof (modifier_key_named n1 m H1) as T1.
  pose proof (modifier_key_named n2 m H2) as T2.
  assert (m ∈ kb_mods e2) as Hin.
  { subst e2. cbn [deliver_all deliver fst]. unfold on_press.
    rewrite Hk, T1. cbn [negb after kill set_kb]. rewrite Hk, T2.
    cbn [negb after kb_mods set_kb]. by apply press_sets_kind. }
  assert (m ∉ kb_mods e3) as Hout.
  { subst e3. cbn [deliver fst]. unfold on_release. rewrite T1.
    cbn [negb kb_mods set_kb]. by apply release_clears_kind. }
  split; [done|split; [done|]]. intros name t Ht. unfold matches_kb.
  rewrite (bool_decide_eq_false_2 (t_mods t ⊆ kb_mods e3)) by set_solver.
  by rewrite andb_false_r.
Qed.

Lemma modifier_tracked_per_kind_witness :
  let e := new_engine DEFAULTS in
  let e2 := (deliver_all e [KbPress "CTRL_L"; KbPress "CTRL_R"]).1 in
  let e3 := (deliver e2 (KbRelease "CTRL_L")).1 in
  "CTRL" ∈ kb_mods e2 ∧ ("CTRL" ∉ kb_mods e3) ∧
  ∀ name t, "CTRL" ∈ t_mods t -> matches_kb e3 name t = false.
Proof.
  refine (modifier_tracked_per_kind (new_engine DEFAULTS) "CTRL_L" "CTRL_R" "CTRL" _ _ _).
  - apply (bool_decide_unpack _). vm_compute. exact I.
  - apply (bool_decide_unpack _). vm_compute. exact I.
  - reflexivity.
Defined.

End Modifiers.

(** ** Bindings as the menu captures and shows them *)

Section GrammarExtras.
Import Py PyFacts.

Lemma strip_idem s : strip (strip s) = strip s.
Proof.
  destruct (strip s) eqn:E; [done|]. rewrite <- E.
  destruct (strip_trimmed s) as [Hf Hl]; [by rewrite E|].
  by apply trimmed_strip.
Qed.

Lemma strip_upper s : strip (upper s) = upper (strip s).
Proof.
  assert (∀ s, lstrip (upper s) = upper (lstrip s)) as Hl.
  { induction s0 as [|c r IH]; cbn; [done|].
    rewrite isspace_upper_char. by destruct (isspace c). }
  assert (∀ s, rstrip (upper s) = upper (rstrip s)) as Hr.
  { induction s0 as [|c r IH]; cbn; [done|].
    rewrite IH, isspace_upper_char.
    destruct (rstrip r); cbn; [by destruct (isspace c)|done]. }
  unfold strip. by rewrite Hl, Hr.
Qed.

Lemma has_upper_inv c s :
  upper_char c = c -> has c s = true -> has c (upper s) = true.
Proof.
  intros Hc. induction s as [|d s IH]; cbn; [done|].
  destruct (ascii_dec d c) as [->|]; [rewrite Hc; by destruct (ascii_dec c c)|].
  intros H. rewrite (IH H). by destruct (ascii_dec _ _).
Qed.

(** X6: a keyboard hotkey captured as a modifier set and a key name is
    stored as text that parses back to exactly that pair, provided the key
    name is upper case, has no blank at either end, contains no ['+'] or
    ['-'], is not a modifier name and does not begin with [GP:]; the
    parsed trigger then matches that key exactly when the modifiers are
    down. *)
Theorem captured_keyboard_hotkey mods key :
  mods ⊆ MOD_NAMES -> part_ok key -> modifier_of key = None ->
  startswith "GP:" key = false ->
  parse_hotkey (format_hotkey mods key) = inr (Trigger kb mods key) ∧
  ∀ e name, upper name = key ->
            (matches_kb e name (Trigger kb mods key) = true ↔ mods ⊆ kb_mods e).
Proof.
  intros Hsub Hok Hmod Hgp. split.
  - apply (parse_format_valid (Trigger kb mods key)); [|by intros _].
    repeat split; [done|]. right. split; [done|]. cbn. congruence.
  - intros e name Hname. unfold matches_kb. cbn.
    destruct Hok as [Hclean Hup].
    assert (truthy key = true) as -> by apply truthy_true, first_ok_nonempty, Hclean.
    rewrite Hname, Hup. rewrite (bool_decide_eq_true_2 (key = key)) by done. cbn.
    apply bool_decide_eq_true.
Qed.

Lemma captured_keyboard_hotkey_witness :
  parse_hotkey (format_hotkey {[ "CTRL"; "SHIFT" ]} "F5")
    = inr (Trigger kb {[ "CTRL"; "SHIFT" ]} "F5").
Proof.
  refine (proj1 (captured_keyboard_hotkey {[ "CTRL"; "SHIFT" ]} "F5" _ _ _ _)).
  - unfold MOD_NAMES. set_solver.
  - repeat split; reflexivity.
  - reflexivity.
  - reflexivity.
Defined.

(** X7: the symbol of a keyboard trigger returned by [parse_hotkey] is
    upper case, has no blank at either end and contains no ['+'] and no
    ['-'], and its modifiers are canonical.  So when the captured key name
    contains ['+'] or ['-'] (the plus and the minus key), the stored
    binding does not parse back to that key. *)
Theorem keyboard_symbol_normal_form s t :
  parse_hotkey s = inr t -> t_kind t = kb ->
  t_mods t ⊆ MOD_NAMES ∧
  strip (t_key t) = t_key t ∧ upper (t_key t) = t_key t ∧
  has "+" (t_key t) = false ∧ has "-" (t_key t) = false ∧
  (∀ mods key, s = format_hotkey mods key ->
               has "+" key = true ∨ has "-" key = true ->
               t_key t <> upper key).
Proof.
  intros Hp Hk.
  destruct (parse_hotkey_kb_valid s t Hp Hk) as (_ & Hsub & Hshape).
  assert (strip (t_key t) = t_key t ∧ upper (t_key t) = t_key t ∧
          has "+" (t_key t) = false ∧ has "-" (t_key t) = false)
    as (H1 & H2 & H3 & H4).
  { destruct Hshape as [[-> _]|[[(Hf & Hl & Hplus & Hminus) Hup] _]]; [done|].
    repeat split; [by apply trimmed_strip|done..]. }
  repeat split; try done.
  intros mods key _ [Hc|Hc] E; rewrite E in *.
  - rewrite (has_upper_inv "+" key eq_refl Hc) in H3. discriminate H3.
  - rewrite (has_upper_inv "-" key eq_refl Hc) in H4. discriminate H4.
Qed.

Lemma keyboard_symbol_normal_form_witness :
  t_key (Trigger kb {[ "CTRL" ]} "CTRL") <> upper "+".
Proof.
  refine (proj2 (proj2 (proj2 (proj2 (proj2
            (keyboard_symbol_normal_form (format_hotkey {[ "CTRL" ]} "+")
               (Trigger kb {[ "CTRL" ]} "CTRL") _ _)))))
            {[ "CTRL" ]} "+" eq_refl (or_introl eq_refl)).
  - vm_compute. reflexivity.
  - reflexivity.
Defined.

(** X8: [display_hotkey] never raises.  For a controller binding it shows
    the symbol of the trigger [parse_hotkey] returns, which is also how
    [format_hotkey] renders that trigger; any other text is shown
    stripped.  [parse_hotkey] returns a controller trigger exactly for the
    texts [is_gamepad_hotkey] accepts. *)
Theorem display_shows_parsed_symbol s :
  ∃ t, parse_hotkey s = inr t ∧
       (t_kind t = gp ↔ is_gamepad_hotkey s = true) ∧
       (is_gamepad_hotkey s = true ->
        display_hotkey s = inr (t_key t) ∧ format t = t_key t) ∧
       (is_gamepad_hotkey s = false -> display_hotkey s = inr (strip s)).
Proof.
  destruct (parse_hotkey_total s) as [t Hp]. exists t. split; [done|].
  assert (is_gamepad_hotkey (strip s) = is_gamepad_hotkey s) as Hidem.
  { unfold is_gamepad_hotkey. by rewrite strip_idem. }
  assert (t_kind t = gp ↔ is_gamepad_hotkey s = true) as Hkind.
  { revert Hp. unfold parse_hotkey. rewrite Hidem.
    destruct (truthy (strip s)) eqn:Et; cbn [negb].
    - destruct (is_gamepad_hotkey s).
      + destruct (_ !! _); [|done]. by intros [= <-].
      + destruct (parse_loop _ _ _). by intros [= <-].
    - intros [= <-]. unfold is_gamepad_hotkey.
      destruct (strip s); [|done]. by cbn. }
  split; [done|]. split.
  - intros Hg. pose proof (proj2 Hkind Hg) as Hk.
    split; [|by eapply format_gp_bare].
    destruct (parse_hotkey_gp s t Hp Hk) as (rest & Hrest & ->).
    unfold display_hotkey. unfold is_gamepad_hotkey in Hg. by rewrite Hg, Hrest.
  - intros Hg. unfold display_hotkey. unfold is_gamepad_hotkey in Hg. by rewrite Hg.
Qed.

Lemma gp_token_eq btn : gp_token btn = "GP:" +:+ upper btn.
Proof. reflexivity. Qed.

Lemma split1_gp x : split1 ":" ("GP:" +:+ x) !! 1%nat = Some x.
Proof. reflexivity. Qed.

Lemma startswith_gp x : startswith "GP:" ("GP:" +:+ x) = true.
Proof. reflexivity. Qed.

Lemma capture_gp_parses btn :
  first_ok btn = true -> last_ok btn = true ->
  capture_gp (gp_token btn) = inr ("GP:" +:+ upper btn) ∧
  parse_hotkey ("GP:" +:+ upper btn) = inr (Trigger gp ∅ (upper btn)) ∧
  matches_gp (gp_token btn) (Trigger gp ∅ (upper btn)) = true.
Proof.
  intros Hf Hl.
  assert (strip (upper btn) = upper btn) as Hs.
  { apply trimmed_strip; by rewrite ?first_ok_upper, ?last_ok_upper. }
  assert (upper btn <> "") as Hne.
  { apply first_ok_nonempty. by rewrite first_ok_upper. }
  rewrite gp_token_eq. split; [|split].
  - unfold capture_gp. rewrite split1_gp. by rewrite Hs, upper_idem.
  - assert (strip ("GP:" +:+ upper btn) = "GP:" +:+ upper btn) as Hs2.
    { apply trimmed_strip; [done|]. apply last_ok_app. by rewrite last_ok_upper. }
    unfold parse_hotkey, is_gamepad_hotkey. rewrite !Hs2.
    change (upper ("GP:" +:+ upper btn)) with ("GP:" +:+ upper (upper btn)).
    rewrite startswith_gp, split1_gp. cbn [truthy negb append].
    by rewrite Hs, upper_idem.
  - unfold matches_gp. cbn [t_kind t_key].
    apply truthy_true in Hne. rewrite Hne.
    change (upper ("GP:" +:+ upper btn)) with ("GP:" +:+ upper (upper btn)).
    rewrite upper_idem. by rewrite !bool_decide_eq_true_2.
Qed.

(** X9: a controller button captured from the token an adapter emits is
    stored as a binding that parses to the controller trigger with the
    upper-cased button name and matches that same token, provided the
    button name has no blank at either end. *)
Theorem captured_controller_button btn :
  first_ok btn = true -> last_ok btn = true ->
  ∃ b, capture_gp (gp_token btn) = inr b ∧
       parse_hotkey b = inr (Trigger gp ∅ (upper btn)) ∧
       matches_gp (gp_token btn) (Trigger gp ∅ (upper btn)) = true.
Proof.
  intros Hf Hl. exists ("GP:" +:+ upper btn). by apply capture_gp_parses.
Qed.

Lemma captured_controller_button_witness :
  ∃ b, capture_gp (gp_token "dpad_up") = inr b ∧
       parse_hotkey b = inr (Trigger gp ∅ (upper "dpad_up")) ∧
       matches_gp (gp_token "dpad_up") (Trigger gp ∅ (upper "dpad_up")) = true.
Proof.
  refine (captured_controller_button "dpad_up" _ _); reflexivity.
Defined.

End GrammarExtras.

(** ** Virtual-key codes *)

Section SendInputExtras.
Import Py PyFacts.

Example vk_examples :
  vk_for_key " w " = inr 0x57 ∧ vk_for_key "LShift" = inr 0xA0 ∧
  vk_for_key "f10" = inr 0x79 ∧ vk_for_key "F25" = inr 0 ∧
  vk_for_key "ctrl_l" = inr 0 ∧ vk_for_key "" = inr 0.
Proof. repeat split; vm_compute; reflexivity. Qed.

Lemma run_action_keys a polls :
  emits_only (fun ev => keys_in RELEASE_KEYS ev = true) (run_action a polls).
Proof.
  destruct a; cbn [run_action].
  - unfold act_toggle_all. macro_auto.
  - unfold act_stall. macro_auto.
  - unfold act_speedflip. macro_auto.
  - unfold act_straightdash_hold. macro_auto.
  - unfold act_turningdash_hold. macro_auto.
  - unfold act_emergency, release_all_outputs, key_up, mouse_right. macro_auto.
  - unfold act_exit, release_all_outputs, key_up, mouse_right. macro_auto.
Qed.

(** X10: every key-down, key-up and right-button event of every action
    reaches [SendInput] as one input: each key name an action uses has a
    virtual-key code other than zero, so [_send_key] never drops it, and
    the code is that of W, A, S, D, Q, E, I or left shift. *)
Theorem macro_events_are_sent a polls e ev :
  ev ∈ trace_of (run_action a polls) e -> is_synthetic ev = true ->
  ∃ i, os_inputs ev = [i] ∧
       match i with
       | KeybdInput vk flags =>
           vk ∈ [0x57; 0x41; 0x53; 0x44; 0x51; 0x45; 0x49; 0xA0] ∧
           flags = (if is_press ev then 0 else KEYEVENTF_KEYUP)
       | MouseInput flags =>
           flags = (if is_press ev then MOUSEEVENTF_RIGHTDOWN
                    else MOUSEEVENTF_RIGHTUP)
       end.
Proof.
  intros Hev Hsyn.
  pose proof (run_action_keys a polls e) as H. rewrite Forall_forall in H.
  specialize (H _ Hev).
  destruct ev as [k|k|b| | | | | |]; try discriminate Hsyn; cbn in H.
  - apply bool_decide_eq_true in H. unfold RELEASE_KEYS in H.
    rewrite !elem_of_cons, elem_of_nil in H.
    destruct H as [->|[->|[->|[->|[->|[->|[->|[->|[]]]]]]]]];
      (eexists; split; [vm_compute; reflexivity|]); cbn;
      (split; [|done]); rewrite !elem_of_cons; tauto.
  - apply bool_decide_eq_true in H. unfold RELEASE_KEYS in H.
    rewrite !elem_of_cons, elem_of_nil in H.
    destruct H as [->|[->|[->|[->|[->|[->|[->|[->|[]]]]]]]]];
      (eexists; split; [vm_compute; reflexivity|]); cbn;
      (split; [|done]); rewrite !elem_of_cons; tauto.
  - eexists. split; [reflexivity|]. by destruct b.
Qed.

Lemma macro_events_are_sent_witness :
  ∃ i, os_inputs (KeyDown "LShift") = [i] ∧
       match i with
       | KeybdInput vk flags =>
           vk ∈ [0x57; 0x41; 0x53; 0x44; 0x51; 0x45; 0x49; 0xA0] ∧
           flags = (if is_press (KeyDown "LShift") then 0 else KEYEVENTF_KEYUP)
       | MouseInput flags =>
           flags = (if is_press (KeyDown "LShift") then MOUSEEVENTF_RIGHTDOWN
                    else MOUSEEVENTF_RIGHTUP)
       end.
Proof.
  refine (macro_events_are_sent speedflip [] (new_engine DEFAULTS) _ _ _).
  - apply (bool_decide_unpack _). vm_compute. exact I.
  - reflexivity.
Defined.

(** *** The codes [_vk_for_key] can return *)

Lemma alnum_upper_range c :
  implb (is_alnum_char (upper_char c))
        ((48 <=? ord (upper_char c)) && (ord (upper_char c) <=? 90)) = true.
Proof. by_cases_on_char c. Qed.

Lemma digit_char_facts c :
  implb (is_digit_char c)
        (negb (isspace c) && bool_decide (upper_char c = c) &&
         (0 <=? ord c - 48) && (ord c - 48 <=? 9)) = true.
Proof. by_cases_on_char c. Qed.

Lemma special_vk_values name v :
  SPECIAL_VK !! name = Some v ->
  (name, v) ∈ [("LSHIFT", 0xA0); ("SHIFT", 0x10); ("LCTRL", 0xA2); ("CTRL", 0x11);
               ("LALT", 0xA4); ("ALT", 0x12); ("WIN", 0x5B); ("ENTER", 0x0D);
               ("SPACE", 0x20); ("TAB", 0x09); ("ESC", 0x1B); ("BACKSPACE", 0x08)].
Proof. apply elem_of_list_to_map_2. Qed.

Lemma upper_strip_idem s : upper (strip (upper (strip s))) = upper (strip s).
Proof. by rewrite strip_upper, strip_idem, upper_idem. Qed.

Lemma special_vk_range n :
  default 0 (SPECIAL_VK !! n) = 0 ∨ 8 <= default 0 (SPECIAL_VK !! n) <= 164.
Proof.
  destruct (SPECIAL_VK !! n) as [v|] eqn:E4; cbn; [|by left].
  right. apply special_vk_values in E4. rewrite !elem_of_cons, elem_of_nil in E4.
  repeat (destruct E4 as [[= _ ->]|E4]; [lia|]). done.
Qed.

(** X11: on a name of ASCII characters [_vk_for_key] ignores case and
    surrounding blanks, and what it returns is 0 (nothing will be sent) or
    a code between 8 and 164, so it fits the 16-bit [wVk] field; it raises
    only on [F] followed by more digits than [int] takes, and then
    [ValueError]. *)
Theorem vk_for_key_range name :
  is_ascii name = true ->
  vk_for_key (upper (strip name)) = vk_for_key name ∧
  match vk_for_key name with
  | inr v => v = 0 ∨ 8 <= v <= 164
  | inl x =>
      x = ValueError ∧
      ∃ d, upper (strip name) = "F" +:+ d ∧ isdigit d = true ∧
           INT_MAX_STR_DIGITS < Z.of_nat (String.length d)
  end.
Proof.
  intros _. split.
  { unfold vk_for_key. by rewrite upper_strip_idem. }
  unfold vk_for_key. set (n := upper (strip name)).
  destruct ((String.length n =? 1)%nat && isalnum n) eqn:E1.
  - apply andb_prop in E1 as [Hlen Hal].
    assert (∃ c, strip name = String c "") as [c Hc].
    { subst n. destruct (strip name) as [|c [|? ?]]; try discriminate Hlen. eauto. }
    subst n. rewrite Hc in *. cbn in *.
    unfold isalnum in Hal. cbn in Hal. rewrite andb_true_r in Hal.
    pose proof (alnum_upper_range c) as H. rewrite Hal in H. cbn in H. right. lia.
  - destruct (startswith "F" n && isdigit (tail n)) eqn:E2; [|apply special_vk_range].
    apply andb_prop in E2 as [HF Hdig]. unfold int.
    destruct (Z.ltb_spec INT_MAX_STR_DIGITS (Z.of_nat (String.length (tail n)))) as [L|L].
    + split; [done|]. exists (tail n). repeat split; [|done|done].
      destruct n as [|c r]; [done|]. cbn in HF. cbn [tail].
      destruct (ascii_dec c "F") as [->|]; [done|discriminate HF].
    + destruct ((1 <=? int_from 0 (tail n)) && (int_from 0 (tail n) <=? 24)) eqn:E3;
        [right; lia|apply special_vk_range].
Qed.

Lemma vk_for_key_range_witness :
  vk_for_key (upper (strip " f12 ")) = vk_for_key " f12 " ∧
  match vk_for_key " f12 " with
  | inr v => v = 0 ∨ 8 <= v <= 164
  | inl x =>
      x = ValueError ∧
      ∃ d, upper (strip " f12 ") = "F" +:+ d ∧ isdigit d = true ∧
           INT_MAX_STR_DIGITS < Z.of_nat (String.length d)
  end.
Proof. refine (vk_for_key_range " f12 " _). reflexivity. Defined.

Lemma digit_char_props c :
  is_digit_char c = true ->
  isspace c = false ∧ upper_char c = c ∧ 0 <= ord c - 48 <= 9.
Proof.
  intros Hc. pose proof (digit_char_facts c) as H. rewrite Hc in H. cbn in H.
  rewrite !andb_true_iff, negb_true_iff, bool_decide_eq_true in H.
  destruct H as [[[H1 H2] H3] H4]. repeat split; [done|done|lia|lia].
Qed.

Lemma int_from_nonneg d acc :
  all_chars is_digit_char d = true -> 0 <= acc -> 0 <= int_from acc d.
Proof.
  revert acc. induction d as [|c r IH]; intros acc Hd Hacc; cbn in *; [done|].
  apply andb_prop in Hd as [Hc Hr].
  destruct (digit_char_props c Hc) as (_ & _ & Hrange).
  apply IH; [done|]. lia.
Qed.

Lemma digits_fixed d :
  all_chars is_digit_char d = true ->
  upper d = d ∧ (d <> "" -> last_ok d = true) ∧ 0 <= int_from 0 d.
Proof.
  intros Hd. split; [|split; [|by apply int_from_nonneg]].
  - induction d as [|c r IH]; cbn in *; [done|].
    apply andb_prop in Hd as [Hc Hr].
    destruct (digit_char_props c Hc) as (_ & -> & _). by rewrite IH.
  - induction d as [|c r IH]; [done|]. intros _.
    cbn in Hd. apply andb_prop in Hd as [Hc Hr].
    destruct r as [|c' r'].
    + destruct (digit_char_props c Hc) as (Hsp & _ & _). cbn. by rewrite Hsp.
    + change (last_ok (String c' r') = true). by apply IH.
Qed.

(** X12: for a name made of [F] and ASCII digits, no more of them than
    [int] takes, [_vk_for_key] returns [0x70 + (n - 1)] when the number
    [n] is between 1 and 24 (leading zeros allowed) and 0 otherwise:
    F1..F24 are 0x70..0x87, and F0, F25 and beyond cannot be sent.  With
    more digits than that it raises [ValueError]. *)
Theorem vk_for_function_keys d :
  isdigit d = true ->
  let n := int_from 0 d in
  (Z.of_nat (String.length d) <= INT_MAX_STR_DIGITS ->
   vk_for_key ("F" +:+ d) =
     inr (if (1 <=? n) && (n <=? 24) then 0x70 + (n - 1) else 0) ∧
   ∀ v, vk_for_key ("F" +:+ d) = inr v -> v <> 0 -> 0x70 <= v <= 0x87) ∧
  (INT_MAX_STR_DIGITS < Z.of_nat (String.length d) ->
   vk_for_key ("F" +:+ d) = inl ValueError).
Proof.
  intros Hd n. unfold isdigit in Hd. apply andb_prop in Hd as [Hne Hall].
  destruct (digits_fixed d Hall) as (Hup & Hlast & _).
  apply truthy_true in Hne. specialize (Hlast Hne).
  assert (upper (strip ("F" +:+ d)) = "F" +:+ d) as Hname.
  { rewrite trimmed_strip; [|done|by apply last_ok_app].
    change (upper ("F" +:+ d)) with ("F" +:+ upper d). by rewrite Hup. }
  assert (vk_for_key ("F" +:+ d) =
            match int d with
            | inl x => inl x
            | inr m => inr (if (1 <=? m) && (m <=? 24) then 0x70 + (m - 1) else 0)
            end) as Hvk.
  { unfold vk_for_key. rewrite Hname.
    assert ((String.length ("F" +:+ d) =? 1)%nat = false) as ->.
    { destruct d; [done|]. reflexivity. }
    cbn [andb]. change (startswith "F" ("F" +:+ d)) with true.
    change (tail ("F" +:+ d)) with d.
    unfold isdigit. apply truthy_true in Hne. rewrite Hne, Hall. cbn [andb].
    destruct (int d) as [x|m]; [done|].
    destruct ((1 <=? m) && (m <=? 24)); [done|].
    destruct (SPECIAL_VK !! ("F" +:+ d)) as [v|] eqn:E; [|done].
    apply special_vk_values in E. rewrite !elem_of_cons, elem_of_nil in E.
    repeat (destruct E as [E|E]; [discriminate E|]). done. }
  rewrite Hvk. unfold int. split; intros L.
  - rewrite (proj2 (Z.ltb_ge _ _) L). fold n. split; [done|].
    intros v [= <-]. destruct ((1 <=? n) && (n <=? 24)) eqn:E; [lia|done].
  - by rewrite (proj2 (Z.ltb_lt _ _) L).
Qed.

Lemma vk_for_function_keys_witness :
  let n := int_from 0 "024" in
  (Z.of_nat (String.length "024") <= INT_MAX_STR_DIGITS ->
   vk_for_key ("F" +:+ "024") =
     inr (if (1 <=? n) && (n <=? 24) then 0x70 + (n - 1) else 0) ∧
   ∀ v, vk_for_key ("F" +:+ "024") = inr v -> v <> 0 -> 0x70 <= v <= 0x87) ∧
  (INT_MAX_STR_DIGITS < Z.of_nat (String.length "024") ->
   vk_for_key ("F" +:+ "024") = inl ValueError).
Proof. refine (vk_for_function_keys "024" _). reflexivity. Defined.

End SendInputExtras.

(** ** Controller adapters *)

Section AdapterExtras.
Import Py PyFacts.

Lemma emit_one_member c p tok :
  tok ∈ (emit_one c p).1 ↔
  match c with
  | EmitPress b => tok = gp_token b ∨ tok ∈ p
  | EmitRelease b => tok <> gp_token b ∧ tok ∈ p
  end.
Proof.
  destruct c as [b|b]; cbn; unfold emit_press, emit_release.
  - case_bool_decide; cbn; set_solver.
  - case_bool_decide; cbn; set_solver.
Qed.

Lemma count_single c c' :
  count_occ callback_eq_dec [c'] c = if decide (c' = c) then 1%nat else 0%nat.
Proof. reflexivity. Qed.

Lemma emit_one_balanced c p tok :
  (count_cb (CbPress tok) (emit_one c p).2 + Nat.b2n (bool_decide (tok ∈ p)) =
   count_cb (CbRelease tok) (emit_one c p).2
   + Nat.b2n (bool_decide (tok ∈ (emit_one c p).1)))%nat.
Proof.
  destruct c as [b|b]; cbn [emit_one]; unfold emit_press, emit_release, count_cb.
  - case_bool_decide as Hin; cbn [fst snd negb]; [done|].
    rewrite !count_single.
    repeat case_decide; simplify_eq; repeat case_bool_decide; cbn; set_solver.
  - case_bool_decide as Hin; cbn [fst snd negb]; [|done].
    rewrite !count_single.
    repeat case_decide; simplify_eq; repeat case_bool_decide; cbn; set_solver.
Qed.

(** X13: over any sequence of [_emit_press] and [_emit_release] calls, and
    for every token, the press callbacks made plus one if the token was in
    [_pressed] at the start equal the release callbacks made plus one if
    it is in [_pressed] at the end.  So the callbacks of a token
    alternate: a press is never repeated before a release, and a release
    without a press is never passed on. *)
Theorem emit_calls_balanced calls pressed tok :
  (count_cb (CbPress tok) (emit_all calls pressed).2
   + Nat.b2n (bool_decide (tok ∈ pressed)) =
   count_cb (CbRelease tok) (emit_all calls pressed).2
   + Nat.b2n (bool_decide (tok ∈ (emit_all calls pressed).1)))%nat.
Proof.
  revert pressed. induction calls as [|c rest IH]; intros pressed; [done|].
  cbn [emit_all]. pose proof (emit_one_balanced c pressed tok) as H1.
  destruct (emit_one c pressed) as [p1 c1]. specialize (IH p1).
  destruct (emit_all rest p1) as [p2 c2]. cbn [fst snd] in *.
  unfold count_cb in *. rewrite !count_occ_app. lia.
Qed.

(** *** XInput: button words *)

Lemma emit_all_member calls p tok :
  tok ∈ (emit_all calls p).1 ↔
  match last_call_for tok calls with
  | Some b => b = true
  | None => tok ∈ p
  end.
Proof.
  revert p. induction calls as [|c rest IH]; intros p; [done|].
  cbn [emit_all last_call_for]. pose proof (emit_one_member c p tok) as Hc.
  destruct (emit_one c p) as [p1 c1]. specialize (IH p1).
  destruct (emit_all rest p1) as [p2 c2]. cbn [fst snd] in *.
  rewrite IH. destruct (last_call_for tok rest); [done|].
  rewrite Hc. destruct c as [b|b]; case_bool_decide; naive_solver.
Qed.

Lemma last_call_none m changed buttons tok :
  tok ∉ map (fun x : Z * string => gp_token x.2) m ->
  last_call_for tok (calls_for m changed buttons) = None.
Proof.
  induction m as [|[mk nm] rest IH]; [done|]. intros Hnot.
  cbn in Hnot. apply not_elem_of_cons in Hnot as [Hne Hrest].
  unfold calls_for in *. cbn [omap list_omap].
  destruct (Z.land changed mk =? 0); [by apply IH|].
  destruct (Z.land buttons mk =? 0); cbn [last_call_for]; rewrite IH by done;
    by rewrite bool_decide_eq_false_2.
Qed.

Lemma last_call_calls_for m changed buttons mask name :
  NoDup (map (fun x : Z * string => gp_token x.2) m) ->
  (mask, name) ∈ m ->
  last_call_for (gp_token name) (calls_for m changed buttons) =
    if Z.land changed mask =? 0 then None
    else Some (negb (Z.land buttons mask =? 0)).
Proof.
  induction m as [|[mk nm] rest IH]; intros Hnd Hin; [by apply elem_of_nil in Hin|].
  cbn in Hnd. apply NoDup_cons in Hnd as [Hhead Hnd].
  apply elem_of_cons in Hin as [[= -> ->]|Hin].
  - unfold calls_for. cbn [omap list_omap].
    pose proof (last_call_none rest changed buttons _ Hhead) as Hnone.
    unfold calls_for in Hnone.
    destruct (Z.land changed mk =? 0); [done|].
    destruct (Z.land buttons mk =? 0); cbn [last_call_for negb]; rewrite Hnone;
      by rewrite bool_decide_eq_true_2.
  - specialize (IH Hnd Hin).
    assert (gp_token nm <> gp_token name) as Hne.
    { intros E. apply Hhead. rewrite E.
      apply (list_elem_of_fmap_2 (fun x : Z * string => gp_token x.2) rest (mask, name)).
      done. }
    unfold calls_for in *. cbn [omap list_omap].
    destruct (Z.land changed mk =? 0); [done|].
    destruct (Z.land buttons mk =? 0); cbn [last_call_for]; rewrite IH;
      (destruct (Z.land changed mask =? 0); [by rewrite bool_decide_eq_false_2|done]).
Qed.

Lemma xinput_tokens_nodup :
  NoDup (map (fun x : Z * string => gp_token x.2) XINPUT_BTN_MAP).
Proof. apply (bool_decide_unpack _). vm_compute. exact I. Qed.

Lemma land_unchanged a b mask :
  Z.land (Z.lxor a b) mask = 0 -> Z.land a mask = Z.land b mask.
Proof.
  intros H. apply Z.lxor_eq. rewrite <- H.
  apply Z.bits_inj'. intros n Hn.
  rewrite !Z.lxor_spec, !Z.land_spec, Z.lxor_spec.
  by destruct (Z.testbit a n), (Z.testbit b n), (Z.testbit mask n).
Qed.

(** X14: one XInput poll of a connected pad keeps [_pressed] in step with
    the button word: if before the poll each mapped button's token is in
    [_pressed] exactly when its bit is set in the previous word, then
    after it each is there exactly when its bit is set in the new word.
    A word equal to the previous one makes no callback and changes
    nothing, and tokens of no mapped button are never touched. *)
Theorem xinput_poll_keeps_sync i buttons st :
  xinput_in_sync (default 0 (prev_buttons st !! i)) (xi_pressed st) ->
  let r := xinput_slot i (Some buttons) st in
  xinput_in_sync buttons (xi_pressed r.1) ∧
  (buttons = default 0 (prev_buttons st !! i) ->
   r.2 = [] ∧ xi_pressed r.1 = xi_pressed st) ∧
  (∀ tok, tok ∉ map (fun x : Z * string => gp_token x.2) XINPUT_BTN_MAP ->
          (tok ∈ xi_pressed r.1 ↔ tok ∈ xi_pressed st)).
Proof.
  intros Hsync r. subst r. unfold xinput_slot.
  set (prev := default 0 (prev_buttons st !! i)) in *.
  destruct (Z.eqb_spec (Z.lxor buttons prev) 0) as [E|E]; cbn [fst snd xi_pressed].
  - apply Z.lxor_eq in E. subst buttons. done.
  - destruct (emit_all (xinput_calls (Z.lxor buttons prev) buttons) (xi_pressed st))
      as [p cbs] eqn:Er. cbn [fst snd xi_pressed].
    assert (p = (emit_all (xinput_calls (Z.lxor buttons prev) buttons)
                          (xi_pressed st)).1) as -> by by rewrite Er.
    split; [|split].
    + intros mask name Hin. rewrite emit_all_member. unfold xinput_calls.
      rewrite (last_call_calls_for _ _ _ mask name xinput_tokens_nodup Hin).
      destruct (Z.eqb_spec (Z.land (Z.lxor buttons prev) mask) 0) as [E0|E0].
      * rewrite (Hsync mask name Hin). by rewrite (land_unchanged _ _ _ E0).
      * destruct (Z.eqb_spec (Z.land buttons mask) 0); cbn; naive_solver.
    + intros ->. by rewrite Z.lxor_nilpotent in E.
    + intros tok Htok. rewrite emit_all_member. unfold xinput_calls.
      by rewrite last_call_none.
Qed.

Lemma xinput_poll_keeps_sync_witness :
  let st := XInput [0; 0; 0; 0] ∅ in
  let r := xinput_slot 0 (Some 0x1001) st in
  xinput_in_sync 0x1001 (xi_pressed r.1) ∧
  (0x1001 = default 0 (prev_buttons st !! 0%nat) ->
   r.2 = [] ∧ xi_pressed r.1 = xi_pressed st) ∧
  (∀ tok, tok ∉ map (fun x : Z * string => gp_token x.2) XINPUT_BTN_MAP ->
          (tok ∈ xi_pressed r.1 ↔ tok ∈ xi_pressed st)).
Proof.
  refine (xinput_poll_keeps_sync 0 0x1001 (XInput [0; 0; 0; 0] ∅) _).
  intros mask name Hin. cbn. rewrite Z.land_0_l. set_solver.
Defined.

Example xinput_poll_example :
  (xinput_slot 0 (Some 0x1001) (XInput [0; 0; 0; 0] ∅)).2
    = [CbPress "GP:A"; CbPress "GP:DPAD_UP"].
Proof. vm_compute. reflexivity. Qed.

Lemma xinput_calls_single mask name :
  (mask, name) ∈ XINPUT_BTN_MAP ->
  mask <> 0 ∧ xinput_calls mask mask = [EmitPress name] ∧
  xinput_calls mask 0 = [EmitRelease name].
Proof.
  unfold XINPUT_BTN_MAP. rewrite !elem_of_cons, elem_of_nil. intros H.
  repeat (destruct H as [[= -> ->]|H]; [by repeat split|]). done.
Qed.

(** X15: when a pad stops answering, its slot's previous word is reset
    to 0 but no release callback is made, and none is made either when it
    answers again with every button up: the tokens held at the moment of
    the disconnection stay in [_pressed].  Pressing such a button again
    makes no callback (the press is taken for a repeat); only letting it go
    after that releases the token. *)
Theorem xinput_disconnect_makes_no_release i st :
  (i < length (prev_buttons st))%nat ->
  let r1 := xinput_slot i None st in
  let r2 := xinput_slot i (Some 0) r1.1 in
  r1.2 = [] ∧ r2.2 = [] ∧ xi_pressed r2.1 = xi_pressed st ∧
  prev_buttons r2.1 !! i = Some 0 ∧
  (∀ mask name, (mask, name) ∈ XINPUT_BTN_MAP -> gp_token name ∈ xi_pressed st ->
     let r3 := xinput_slot i (Some mask) r2.1 in
     let r4 := xinput_slot i (Some 0) r3.1 in
     r3.2 = [] ∧ r4.2 = [CbRelease (gp_token name)]).
Proof.
  intros Hi r1 r2. subst r1 r2.
  assert (∀ (l : list Z) p, (i < length l)%nat ->
            xinput_slot i (Some 0) (XInput (<[i:=0]> l) p) =
              (XInput (<[i:=0]> (<[i:=0]> l)) p, [])) as Hzero.
  { intros l p Hl. unfold xinput_slot. cbn [prev_buttons xi_pressed].
    by rewrite list_lookup_insert_eq by done. }
  change (xinput_slot i None st)
    with (XInput (<[i:=0]> (prev_buttons st)) (xi_pressed st), @nil callback).
  cbn [fst snd]. rewrite Hzero by done. cbn [fst snd prev_buttons xi_pressed].
  split; [done|]. split; [done|]. split; [done|].
  split; [apply list_lookup_insert_eq; by rewrite length_insert|].
  intros mask name Hin Htok.
  destruct (xinput_calls_single mask name Hin) as (Hne & Hpress & Hrel).
  assert (xinput_slot i (Some mask)
            (XInput (<[i:=0]> (<[i:=0]> (prev_buttons st))) (xi_pressed st)) =
          (XInput (<[i:=mask]> (<[i:=0]> (<[i:=0]> (prev_buttons st))))
                  (xi_pressed st), [])) as ->.
  { unfold xinput_slot. cbn [prev_buttons xi_pressed].
    rewrite list_lookup_insert_eq by by rewrite length_insert.
    cbn [default from_option id]. rewrite Z.lxor_0_r.
    rewrite (proj2 (Z.eqb_neq mask 0) Hne), Hpress. cbn [emit_all emit_one].
    unfold emit_press. by rewrite bool_decide_eq_true_2. }
  cbn [fst snd]. split; [done|].
  unfold xinput_slot. cbn [prev_buttons xi_pressed].
  rewrite list_lookup_insert_eq by by rewrite !length_insert.
  cbn [default from_option id]. rewrite Z.lxor_0_l.
  rewrite (proj2 (Z.eqb_neq mask 0) Hne), Hrel. cbn [emit_all emit_one].
  unfold emit_release. by rewrite bool_decide_eq_true_2.
Qed.

Lemma xinput_disconnect_makes_no_release_witness :
  let st := (xinput_slot 1 (Some 0x1000) (XInput [0; 0; 0; 0] ∅)).1 in
  let r1 := xinput_slot 1 None st in
  let r2 := xinput_slot 1 (Some 0) r1.1 in
  r1.2 = [] ∧ r2.2 = [] ∧ xi_pressed r2.1 = xi_pressed st ∧
  prev_buttons r2.1 !! 1%nat = Some 0 ∧
  (∀ mask name, (mask, name) ∈ XINPUT_BTN_MAP -> gp_token name ∈ xi_pressed st ->
     let r3 := xinput_slot 1 (Some mask) r2.1 in
     let r4 := xinput_slot 1 (Some 0) r3.1 in
     r3.2 = [] ∧ r4.2 = [CbRelease (gp_token name)]).
Proof.
  refine (xinput_disconnect_makes_no_release 1
            (xinput_slot 1 (Some 0x1000) (XInput [0; 0; 0; 0] ∅)).1 _).
  vm_compute. lia.
Defined.

End AdapterExtras.

(** *** The hat of a joystick *)

Lemma emit_releases_member l p tok :
  tok ∈ (emit_all (map EmitRelease l) p).1 ↔
  tok ∈ p ∧ ∀ d, d ∈ l -> tok <> gp_token d.
Proof.
  revert p. induction l as [|d l IH]; intros p.
  { cbn. split; [|tauto]. intros H. split; [done|]. intros d Hd. by apply elem_of_nil in Hd. }
  cbn [map emit_all]. pose proof (emit_one_member (EmitRelease d) p tok) as Hc.
  destruct (emit_one (EmitRelease d) p) as [p1 c1]. specialize (IH p1).
  destruct (emit_all (map EmitRelease l) p1) as [p2 c2]. cbn [fst snd] in *.
  rewrite IH, Hc. split.
  - intros [[Hne Hin] Hall]. split; [done|]. intros d' Hd'.
    apply elem_of_cons in Hd' as [->|Hd']; [done|by apply Hall].
  - intros [Hin Hall]. split; [split; [|done]|].
    + apply Hall, list_elem_of_here.
    + intros d' Hd'. by apply Hall, list_elem_of_further.
Qed.

Lemma emit_presses_member l p tok :
  tok ∈ (emit_all (map EmitPress l) p).1 ↔
  tok ∈ p ∨ ∃ d, d ∈ l ∧ tok = gp_token d.
Proof.
  revert p. induction l as [|d l IH]; intros p.
  { cbn. split; [tauto|]. intros [H|(d & Hd & _)]; [done|]. by apply elem_of_nil in Hd. }
  cbn [map emit_all]. pose proof (emit_one_member (EmitPress d) p tok) as Hc.
  destruct (emit_one (EmitPress d) p) as [p1 c1]. specialize (IH p1).
  destruct (emit_all (map EmitPress l) p1) as [p2 c2]. cbn [fst snd] in *.
  rewrite IH, Hc. split.
  - intros [[->|Hin]|(d' & Hd' & ->)].
    + right. exists d. split; [apply list_elem_of_here|done].
    + by left.
    + right. exists d'. split; [by apply list_elem_of_further|done].
  - intros [Hin|(d' & Hd' & ->)]; [by left; right|].
    apply elem_of_cons in Hd' as [->|Hd']; [by left; left|].
    right. by exists d'.
Qed.

Lemma dirs_range v : dirs v ⊆ DPAD_NAMES.
Proof.
  intros x. unfold dirs, DPAD_NAMES. rewrite !elem_of_union.
  repeat case_match; rewrite ?elem_of_singleton, ?elem_of_empty; tauto.
Qed.

Lemma dpad_token_inj a b :
  a ∈ DPAD_NAMES -> b ∈ DPAD_NAMES -> gp_token a = gp_token b -> a = b.
Proof.
  unfold DPAD_NAMES. rewrite !elem_of_union, !elem_of_singleton.
  intros [[[->| ->]| ->]| ->] [[[->| ->]| ->]| ->]; vm_compute; congruence.
Qed.

Lemma dirs_opposite v :
  ¬ ("DPAD_UP" ∈ dirs v ∧ "DPAD_DOWN" ∈ dirs v) ∧
  ¬ ("DPAD_LEFT" ∈ dirs v ∧ "DPAD_RIGHT" ∈ dirs v).
Proof.
  unfold dirs. rewrite !elem_of_union.
  destruct (v.2 =? 1) eqn:E1, (v.2 =? -1) eqn:E2, (v.1 =? 1) eqn:E3, (v.1 =? -1) eqn:E4;
    try lia; rewrite ?elem_of_singleton, ?elem_of_empty; split; intros [H1 H2];
    intuition congruence.
Qed.

Section Hat.

(** Any order in which a [for] may visit a set. *)
Variable order : gset string -> list string.
Hypothesis order_elems : ∀ s x, x ∈ order s ↔ x ∈ s.

Lemma order_empty s : s ≡ ∅ -> order s = [].
Proof.
  intros Hs. destruct (order s) as [|x l] eqn:E; [done|].
  assert (x ∈ order s) as H by (rewrite E; apply list_elem_of_here).
  apply order_elems in H. apply Hs in H. by apply elem_of_empty in H.
Qed.

(** X16: whatever order the two loops of [_handle_hat] visit their sets
    in, the directional tokens in [_pressed] follow the hat: if before the
    call each of the four is there exactly when the stored hat value shows
    its direction, then afterwards each is there exactly when the new
    value shows it, and the new value is stored.  Tokens other than the
    four are not touched, a value showing the same directions makes no
    callback, and no value shows two opposite directions. *)
Theorem hat_keeps_sync joy_id value st :
  let prev := default (0, 0) (hat_state st !! joy_id) in
  (∀ d, d ∈ DPAD_NAMES -> (gp_token d ∈ pg_pressed st ↔ d ∈ dirs prev)) ->
  let r := handle_hat order joy_id value st in
  (∀ d, d ∈ DPAD_NAMES -> (gp_token d ∈ pg_pressed r.1 ↔ d ∈ dirs value)) ∧
  hat_state r.1 !! joy_id = Some value ∧
  (∀ tok, (∀ d, d ∈ DPAD_NAMES -> tok <> gp_token d) ->
          (tok ∈ pg_pressed r.1 ↔ tok ∈ pg_pressed st)) ∧
  (dirs value = dirs prev -> r.2 = [] ∧ pg_pressed r.1 = pg_pressed st) ∧
  ¬ ("DPAD_UP" ∈ dirs value ∧ "DPAD_DOWN" ∈ dirs value) ∧
  ¬ ("DPAD_LEFT" ∈ dirs value ∧ "DPAD_RIGHT" ∈ dirs value).
Proof.
  intros prev Hsync r. subst r. unfold handle_hat. fold prev.
  pose proof (dirs_range prev) as Hrp. pose proof (dirs_range value) as Hrv.
  pose proof (dirs_opposite value) as Hopp.
  set (dp := dirs prev) in *. set (dv := dirs value) in *. clearbody dp dv.
  pose proof (emit_releases_member (order (dp ∖ dv)) (pg_pressed st)) as Hrel.
  destruct (emit_all (map EmitRelease (order (dp ∖ dv))) (pg_pressed st))
    as [p1 c1] eqn:E1.
  pose proof (emit_presses_member (order (dv ∖ dp)) p1) as Hpr.
  destruct (emit_all (map EmitPress (order (dv ∖ dp))) p1) as [p2 c2] eqn:E2.
  cbn [fst snd pg_pressed hat_state] in *.
  split; [|split; [apply lookup_insert_eq|split; [|split; [|exact Hopp]]]].
  - intros d Hd. rewrite Hpr, Hrel, (Hsync d Hd).
    setoid_rewrite order_elems. setoid_rewrite elem_of_difference. split.
    + intros [[Hin Hno]|(d' & [Hd' _] & Heq)].
      * destruct (decide (d ∈ dv)) as [|Hnv]; [done|].
        exfalso. by apply (Hno d).
      * apply dpad_token_inj in Heq; [by subst|done|by apply Hrv].
    + intros Hv. destruct (decide (d ∈ dp)) as [Hp|Hp].
      * left. split; [done|]. intros d' [Hd' Hn] Heq.
        apply dpad_token_inj in Heq; [by subst|done|by apply Hrp].
      * right. by exists d.
  - intros tok Htok. rewrite Hpr, Hrel. setoid_rewrite order_elems.
    setoid_rewrite elem_of_difference. split.
    + intros [[Hin _]|(d' & [Hd' _] & Heq)]; [done|].
      exfalso. apply (Htok d'); [by apply Hrv|done].
    + intros Hin. left. split; [done|]. intros d' [Hd' _]. apply Htok. by apply Hrp.
  - intros Heq. subst dp.
    rewrite (order_empty (dv ∖ dv)) in E1, E2
      by (intros x; rewrite elem_of_difference, elem_of_empty; tauto).
    cbn in E1, E2. by simplify_eq.
Qed.

End Hat.

Lemma hat_keeps_sync_witness :
  let st := PygameMgr ∅ ∅ ∅ in
  let r := handle_hat elements 0 (1, 1) st in
  (∀ d, d ∈ DPAD_NAMES -> (gp_token d ∈ pg_pressed r.1 ↔ d ∈ dirs (1, 1))) ∧
  hat_state r.1 !! 0 = Some (1, 1) ∧
  (∀ tok, (∀ d, d ∈ DPAD_NAMES -> tok <> gp_token d) ->
          (tok ∈ pg_pressed r.1 ↔ tok ∈ pg_pressed st)) ∧
  (dirs (1, 1) = dirs (default (0, 0) (hat_state st !! 0)) ->
   r.2 = [] ∧ pg_pressed r.1 = pg_pressed st) ∧
  ¬ ("DPAD_UP" ∈ dirs (1, 1) ∧ "DPAD_DOWN" ∈ dirs (1, 1)) ∧
  ¬ ("DPAD_LEFT" ∈ dirs (1, 1) ∧ "DPAD_RIGHT" ∈ dirs (1, 1)).
Proof.
  refine (hat_keeps_sync elements _ 0 (1, 1) (PygameMgr ∅ ∅ ∅) _).
  - intros s x. apply elem_of_elements.
  - intros d Hd. cbn [pg_pressed hat_state]. rewrite lookup_empty. cbn [default].
    split; [intros H; by apply elem_of_empty in H|].
    unfold dirs. cbn [fst snd Z.eqb]. rewrite !elem_of_union, !elem_of_empty. tauto.
Defined.

(** *** Button names *)

Section Buttons.
Import Py PyFacts.

Lemma uint_digits d :
  all_chars is_digit_char (DecimalString.NilEmpty.string_of_uint d) = true.
Proof. induction d; cbn [DecimalString.NilEmpty.string_of_uint all_chars]; [done|by rewrite IHd..]. Qed.

Lemma uint_nonempty d :
  d <> Decimal.Nil -> DecimalString.NilEmpty.string_of_uint d <> "".
Proof. by destruct d. Qed.

Lemma str_of_int_shape n :
  ∃ d, all_chars is_digit_char d = true ∧ d <> "" ∧
       (str_of_int n = d ∨ str_of_int n = "-" +:+ d).
Proof.
  unfold str_of_int. destruct n as [|p|p]; cbn [Z.to_int DecimalString.NilZero.string_of_int].
  - exists "0". by repeat split; [|left].
  - pose proof (DecimalPos.Unsigned.to_uint_nonnil p) as Hp.
    exists (DecimalString.NilEmpty.string_of_uint (Pos.to_uint p)).
    split; [apply uint_digits|split; [by apply uint_nonempty|left]].
    by destruct (Pos.to_uint p).
  - pose proof (DecimalPos.Unsigned.to_uint_nonnil p) as Hp.
    exists (DecimalString.NilEmpty.string_of_uint (Pos.to_uint p)).
    split; [apply uint_digits|split; [by apply uint_nonempty|right]].
    by destruct (Pos.to_uint p).
Qed.

Lemma str_of_int_inj n m : str_of_int n = str_of_int m -> n = m.
Proof.
  unfold str_of_int. intros H. apply DecimalZ.to_int_inj.
  assert (∀ z, Z.to_int z <> Decimal.Pos Decimal.Nil ∧ Z.to_int z <> Decimal.Neg Decimal.Nil)
    as Hnn.
  { intros [|p|p]; cbn; split; try discriminate;
      intros [= Hp]; by apply DecimalPos.Unsigned.to_uint_nonnil in Hp. }
  apply (f_equal DecimalString.NilZero.int_of_string) in H.
  rewrite !DecimalString.NilZero.isi in H by apply Hnn. congruence.
Qed.

Lemma btn_name_plain n :
  upper ("BTN" +:+ str_of_int n) = "BTN" +:+ str_of_int n ∧
  first_ok ("BTN" +:+ str_of_int n) = true ∧
  last_ok ("BTN" +:+ str_of_int n) = true.
Proof.
  destruct (str_of_int_shape n) as (d & Hd & Hne & [-> | ->]);
    destruct (digits_fixed d Hd) as (Hu & Hl & _).
  - split; [|split; [done|]].
    + change (upper ("BTN" +:+ d)) with ("BTN" +:+ upper d). by rewrite Hu.
    + apply last_ok_app. by apply Hl.
  - split; [|split; [done|]].
    + change (upper ("BTN" +:+ "-" +:+ d)) with ("BTN-" +:+ upper d). by rewrite Hu.
    + apply (last_ok_app "BTN-" d). by apply Hl.
Qed.


Lemma map_button_cases names joy_id :
  ∃ M, (M = XBOX_BUTTONS ∨ M = PS_BUTTONS) ∧
       ∀ b, map_button names joy_id b = default ("BTN" +:+ str_of_int b) (M !! b).
Proof.
  unfold map_button. repeat case_match; eauto.
Qed.

Ltac list_cases H :=
  repeat (apply elem_of_cons in H as [H|H]); [..|by apply elem_of_nil in H].

Lemma known_button M b v :
  M = XBOX_BUTTONS ∨ M = PS_BUTTONS -> M !! b = Some v ->
  upper v = v ∧ first_ok v = true ∧ last_ok v = true ∧
  (∀ n, v <> "BTN" +:+ n) ∧
  (∀ b', M !! b' = Some v -> b' = b).
Proof.
  intros [-> | ->] H; apply elem_of_list_to_map_2 in H; list_cases H;
    injection H as -> ->;
    (split; [reflexivity|split; [reflexivity|split; [reflexivity|split;
      [intros n Hn; vm_compute in Hn; congruence
      |intros b' H'; apply elem_of_list_to_map_2 in H'; list_cases H'; congruence]]]]).
Qed.

Lemma plain_bindable btn :
  upper btn = btn -> first_ok btn = true -> last_ok btn = true -> bindable btn.
Proof.
  intros Hu Hf Hl. destruct (capture_gp_parses _ Hf Hl) as (Hc & Hp & Hm).
  rewrite Hu in Hc, Hp, Hm. by repeat split.
Qed.

(** X17: every button name an adapter can emit can be bound.  Whatever the
    joystick is called and whatever the button index, the name
    [_map_button] returns is upper case and trimmed, so that capturing its
    token stores [GP:<name>], which parses to the trigger matching that
    token; and two buttons of one joystick never share a name.  The same
    holds for the four D-pad names and the names of the XInput map. *)
Theorem pad_buttons_can_be_bound :
  (∀ names joy_id b,
     bindable (map_button names joy_id b) ∧
     ∀ b', map_button names joy_id b' = map_button names joy_id b -> b' = b) ∧
  (∀ d, d ∈ DPAD_NAMES -> bindable d) ∧
  (∀ mask name, (mask, name) ∈ XINPUT_BTN_MAP -> bindable name).
Proof.
  split; [|split]; cycle 1.
  { intros d. unfold DPAD_NAMES. rewrite !elem_of_union, !elem_of_singleton.
    intros [[[->| ->]| ->]| ->]; by apply plain_bindable. }
  { intros mask name H. unfold XINPUT_BTN_MAP in H. list_cases H;
      injection H as -> ->; by apply plain_bindable. }
  intros names joy_id b.
  destruct (map_button_cases names joy_id) as (M & HM & Hmap).
  assert (upper (map_button names joy_id b) = map_button names joy_id b ∧
          first_ok (map_button names joy_id b) = true ∧
          last_ok (map_button names joy_id b) = true) as (Hu & Hf & Hl).
  { rewrite Hmap. destruct (M !! b) as [v|] eqn:E; cbn [default from_option id].
    - by destruct (known_button M b v HM E) as (? & ? & ? & _).
    - apply btn_name_plain. }
  split; [by apply plain_bindable|].
  intros b'. rewrite !Hmap.
  destruct (M !! b) as [v|] eqn:E, (M !! b') as [v'|] eqn:E'; cbn [default from_option id].
  - intros ->. by destruct (known_button M b v HM E) as (_ & _ & _ & _ & Hinj); apply Hinj.
  - intros Heq. by destruct (known_button M b v HM E) as (_ & _ & _ & Hno & _); destruct (Hno (str_of_int b')).
  - intros Heq. by destruct (known_button M b' v' HM E') as (_ & _ & _ & Hno & _); destruct (Hno (str_of_int b)).
  - intros [= Heq]. by apply str_of_int_inj.
Qed.

End Buttons.

(** *** Two adapters, one engine *)

Section Rig.
Import Py PyFacts.

Lemma gp_token_upper btn : upper (gp_token btn) = gp_token btn.
Proof. unfold gp_token. apply upper_idem. Qed.

Lemma scan_same matches e e' acts :
  state e' = state e -> running_hold e' = running_hold e ->
  scan matches e' acts = scan matches e acts.
Proof.
  intros Hs Hr. induction acts as [|a rest IH]; [done|].
  cbn [scan]. unfold hotkey_of, gate, global_enabled. rewrite Hs, Hr, IH. done.
Qed.

Lemma rig_step_covered which c capturing r :
  gp_pressed (eng r) ⊆ xi_set r ∪ pg_set r ->
  let r' := (rig_step which c capturing r).1 in
  gp_pressed (eng r') ⊆ xi_set r' ∪ pg_set r' ∧
  kill (eng r') = kill (eng r) ∧
  (kill (eng r) = false -> capturing = false ->
   gp_pressed (eng r) = pad_set which r ->
   gp_pressed (eng r') = pad_set which r').
Proof.
  intros Hsub. unfold rig_step.
  destruct c as [btn|btn]; cbn [emit_one]; unfold emit_press, emit_release.
  - case_bool_decide as Hin; cbn [flat_map deliver_all negb].
    { destruct which; cbn; done. }
    destruct capturing; cbn [gui_route flat_map app deliver_all deliver].
    { destruct which; cbn; repeat split; try done; set_solver. }
    unfold on_gamepad_press. rewrite gp_token_upper.
    destruct (kill (eng r)) eqn:Hk; cbn [after dispatched].
    { destruct which; cbn; repeat split; try done; set_solver. }
    destruct which; cbn; (split; [set_solver|split; [done|]]); intros _ _ ->; done.
  - case_bool_decide as Hin; cbn [flat_map deliver_all negb]; cycle 1.
    { destruct which; cbn; done. }
    cbn [gui_route flat_map app deliver_all deliver].
    unfold on_gamepad_release. rewrite gp_token_upper.
    destruct which; cbn; (split; [set_solver|split; [done|]]); intros _ _ ->; done.
Qed.


(** X18: the engine never believes a controller button down that no
    adapter holds: if [_gp_pressed] is within the union of the two
    adapters' [_pressed] sets, it stays so over any sequence of adapter
    calls, whichever adapter makes them, with or without a capture window
    and whatever the kill flag.  When only one adapter is active, the kill
    flag is clear and no capture is open, the two sets stay equal. *)
Theorem engine_follows_adapters steps r :
  gp_pressed (eng r) ⊆ xi_set r ∪ pg_set r ->
  let r' := (rig_run steps r).1 in
  gp_pressed (eng r') ⊆ xi_set r' ∪ pg_set r' ∧
  (∀ which, kill (eng r) = false ->
     Forall (fun s : pad * emit_call * bool => s.1.1 = which ∧ s.2 = false) steps ->
     gp_pressed (eng r) = pad_set which r ->
     gp_pressed (eng r') = pad_set which r').
Proof.
  revert r. induction steps as [|[[w c] capturing] rest IH]; intros r Hsub.
  { cbn. split; [done|]. by intros. }
  cbn [rig_run]. destruct (rig_step_covered w c capturing r Hsub) as (H1 & Hk & Heq).
  destruct (rig_step w c capturing r) as [r1 ds1]. cbn [fst] in H1, Hk, Heq.
  destruct (IH r1 H1) as (H2 & Heq2).
  destruct (rig_run rest r1) as [r2 ds2]. cbn [fst] in *.
  split; [done|]. intros which Hkill Hall Hstart.
  apply Forall_cons in Hall as [[Hw Hc] Hall]. cbn in Hw, Hc. subst w capturing.
  apply Heq2; [congruence|done|by apply Heq].
Qed.

Lemma engine_follows_adapters_witness :
  let r := Rig ∅ ∅ (new_engine DEFAULTS) in
  let r' := (rig_run [(Xi, EmitPress "A", false); (Pg, EmitPress "A", false);
                      (Xi, EmitRelease "A", false)] r).1 in
  gp_pressed (eng r') ⊆ xi_set r' ∪ pg_set r' ∧
  (∀ which, kill (eng r) = false ->
     Forall (fun s : pad * emit_call * bool => s.1.1 = which ∧ s.2 = false)
            [(Xi, EmitPress "A", false); (Pg, EmitPress "A", false);
             (Xi, EmitRelease "A", false)] ->
     gp_pressed (eng r) = pad_set which r ->
     gp_pressed (eng r') = pad_set which r').
Proof.
  refine (engine_follows_adapters _ (Rig ∅ ∅ (new_engine DEFAULTS)) _). done.
Defined.

Lemma press_again_same_decision e tok :
  kill e = false ->
  dispatched (on_gamepad_press (after (on_gamepad_press e tok)) tok) =
  dispatched (on_gamepad_press e tok).
Proof.
  intros Hk. unfold on_gamepad_press. rewrite Hk. cbn [after dispatched kill set_gp_pressed].
  rewrite Hk. cbn [dispatched]. unfold maybe_trigger_gp. cbn [capture_mode set_gp_pressed].
  destruct (capture_mode e); [done|]. by apply scan_same.
Qed.

Ltac keeps_step :=
  first [ solve [eauto with macro] | apply keeps_engine_get
        | apply keeps_bind; [|intros ?] | case_match ].

Lemma quick_actions_keep_engine a polls :
  a = stall ∨ a = speedflip -> keeps_engine (run_action a polls).
Proof.
  intros [-> | ->]; cbn [run_action].
  - unfold act_stall, key_down, key_up, mouse_right. repeat keeps_step.
  - unfold act_speedflip, key_down, key_up, mouse_right. repeat keeps_step.
Qed.

Lemma rig_step_press which btn r :
  gp_token btn ∉ pad_set which r ->
  rig_step which (EmitPress btn) false r =
  (let dl := on_gamepad_press (eng r) (gp_token btn) in
   (match which with
    | Xi => Rig ({[ gp_token btn ]} ∪ xi_set r) (pg_set r) (after dl)
    | Pg => Rig (xi_set r) ({[ gp_token btn ]} ∪ pg_set r) (after dl)
    end, [dispatched dl])).
Proof.
  intros Hno. unfold rig_step. cbn [emit_one]. unfold emit_press. cbn zeta.
  rewrite bool_decide_eq_false_2 by done. by destruct which.
Qed.

Lemma rig_step_release which btn r :
  gp_token btn ∈ pad_set which r ->
  rig_step which (EmitRelease btn) false r =
  (let e' := on_gamepad_release (eng r) (gp_token btn) in
   (match which with
    | Xi => Rig (xi_set r ∖ {[ gp_token btn ]}) (pg_set r) e'
    | Pg => Rig (xi_set r) (pg_set r ∖ {[ gp_token btn ]}) e'
    end, [inr None])).
Proof.
  intros Hin. unfold rig_step. cbn [emit_one]. unfold emit_release. cbn zeta.
  rewrite bool_decide_eq_true_2 by done. by destruct which.
Qed.

(** X19: the engine does not tell the adapters apart.  When both report
    the press of one button, each press reaches the router and gets the
    same decision, so a bound action is started twice (the stall and the
    speedflip leave the engine as it is, so this holds even when the first
    run is over before the second press arrives); and after the release by
    one adapter the token is gone from [_gp_pressed] although the other
    adapter still holds it. *)
Theorem both_adapters_dispatch_twice btn r :
  gp_token btn ∉ xi_set r -> gp_token btn ∉ pg_set r -> kill (eng r) = false ->
  let tok := gp_token btn in
  let d := dispatched (on_gamepad_press (eng r) tok) in
  let run := rig_run [(Xi, EmitPress btn, false); (Pg, EmitPress btn, false);
                      (Xi, EmitRelease btn, false)] r in
  run.2 = [d; d; inr None] ∧
  tok ∈ pg_set run.1 ∧ (tok ∉ gp_pressed (eng run.1)) ∧
  (∀ a polls e, d = inr (Some a) -> a = stall ∨ a = speedflip ->
                engine_of (run_action a polls) e = e).
Proof.
  intros Hxi Hpg Hk tok d run. subst run.
  pose proof (press_again_same_decision (eng r) tok Hk) as Hsame. fold d in Hsame.
  pose proof (gp_token_upper btn) as Hup. fold tok in Hup.
  cbn [rig_run].
  rewrite (rig_step_press Xi) by done. cbv beta iota zeta.
  rewrite (rig_step_press Pg) by done. cbv beta iota zeta.
  rewrite (rig_step_release Xi) by (cbn [pad_set xi_set]; set_solver).
  cbv beta iota zeta.
  cbn [fst snd app eng pg_set xi_set]. fold tok. rewrite Hsame. fold d.
  split; [done|split; [set_solver|split]].
  - unfold on_gamepad_release. cbn [gp_pressed set_gp_pressed].
    rewrite Hup. set_solver.
  - intros a polls e _ Ha. by apply quick_actions_keep_engine.
Qed.

Lemma both_adapters_dispatch_twice_witness :
  let st := Config (Some true) (Some DEFAULT_FEATURES)
                   (Some (<["stall" := "GP:A"]> DEFAULT_HOTKEYS))
                   (Some DEFAULT_TIMINGS) in
  let r := Rig ∅ ∅ (new_engine st) in
  let tok := gp_token "A" in
  let d := dispatched (on_gamepad_press (eng r) tok) in
  let run := rig_run [(Xi, EmitPress "A", false); (Pg, EmitPress "A", false);
                      (Xi, EmitRelease "A", false)] r in
  run.2 = [d; d; inr None] ∧
  tok ∈ pg_set run.1 ∧ (tok ∉ gp_pressed (eng run.1)) ∧
  (∀ a polls e, d = inr (Some a) -> a = stall ∨ a = speedflip ->
                engine_of (run_action a polls) e = e).
Proof.
  refine (both_adapters_dispatch_twice "A"
            (Rig ∅ ∅ (new_engine
                        (Config (Some true) (Some DEFAULT_FEATURES)
                                (Some (<["stall" := "GP:A"]> DEFAULT_HOTKEYS))
                                (Some DEFAULT_TIMINGS)))) _ _ _);
    cbn; [set_solver|set_solver|reflexivity].
Defined.

End Rig.

(** ** The stored configuration *)

Section RegistryExtras.

Lemma json_dict_ind (P : json -> Prop) :
  (∀ j, (∀ items, j <> JDict items) -> P j) ->
  (∀ items, Forall (fun kv : string * json => P kv.2) items -> P (JDict items)) ->
  ∀ j, P j.
Proof.
  intros Hleaf Hdict. fix F 1. intros j. destruct j as [|b|n|s|l|items].
  1-5: by apply Hleaf.
  apply Hdict. induction items as [|kv rest IH]; constructor; [apply F|apply IH].
Qed.

Lemma deep_merge_dict_eq items a :
  deep_merge_dict (JDict items) a = merge_loop items a.
Proof. reflexivity. Qed.

Lemma merge_loop_cons k v rest a :
  merge_loop ((k, v) :: rest) a =
  merge_loop rest (dict_set a k (merged_value v (dict_get a k))).
Proof.
  cbn [merge_loop]. unfold merged_value. f_equal.
  by destruct v, (dict_get a k) as [[]|].
Qed.

Lemma get_set d k v k' :
  dict_get (dict_set d k v) k' = if bool_decide (k = k') then Some v else dict_get d k'.
Proof.
  induction d as [|[k0 v0] rest IH]; cbn [dict_set dict_get].
  - done.
  - destruct (bool_decide (k0 = k)) eqn:E; cbn [dict_get].
    + apply bool_decide_eq_true in E. subst k0. by case_bool_decide.
    + apply bool_decide_eq_false in E. rewrite IH.
      repeat case_bool_decide; congruence.
Qed.

Lemma get_none d k : dict_get d k = None <-> k ∉ keys d.
Proof.
  induction d as [|[k0 v0] rest IH]; cbn [dict_get keys map fst].
  - split; [intros _; apply not_elem_of_nil|done].
  - rewrite not_elem_of_cons. case_bool_decide; [|unfold keys in IH].
    + split; [done|]. intros [? _]. congruence.
    + rewrite IH. split; [intros ?; split; congruence|tauto].
Qed.

Lemma get_some_key d k v : dict_get d k = Some v -> k ∈ keys d.
Proof.
  intros H. destruct (decide (k ∈ keys d)) as [|Hn]; [done|].
  apply get_none in Hn. congruence.
Qed.

Lemma keys_set d k v :
  keys (dict_set d k v) = if bool_decide (k ∈ keys d) then keys d else keys d ++ [k].
Proof.
  induction d as [|[k0 v0] rest IH]; cbn [dict_set keys map fst app].
  - by rewrite bool_decide_eq_false_2 by apply not_elem_of_nil.
  - destruct (bool_decide (k0 = k)) eqn:E; cbn [map fst].
    + apply bool_decide_eq_true in E. subst.
      by rewrite bool_decide_eq_true_2 by apply list_elem_of_here.
    + apply bool_decide_eq_false in E. fold (keys (dict_set rest k v)). rewrite IH.
      fold (keys rest). case_bool_decide as H1.
      * by rewrite bool_decide_eq_true_2 by by apply list_elem_of_further.
      * rewrite bool_decide_eq_false_2; [done|].
        rewrite not_elem_of_cons. split; congruence.
Qed.


Lemma set_nodup d k v : NoDup (keys d) -> NoDup (keys (dict_set d k v)).
Proof.
  intros Hd. rewrite keys_set. case_bool_decide as H; [done|].
  apply NoDup_app. split; [done|split; [|apply NoDup_singleton]].
  intros x Hx ->%list_elem_of_singleton. done.
Qed.

Lemma filter_not_in_snoc (ks : list string) (k : string) (l : list string) :
  k ∉ l ->
  filter (fun x => x ∉ ks ++ [k]) l = filter (fun x => x ∉ ks) l.
Proof.
  induction l as [|x l IH]; [done|]. intros [Hx Hl]%not_elem_of_cons.
  rewrite !filter_cons, IH by done.
  destruct (decide (x ∉ ks)) as [H|H].
  - rewrite decide_True; [done|]. rewrite not_elem_of_app, list_elem_of_singleton.
    split; [done|congruence].
  - rewrite decide_False; [done|]. rewrite not_elem_of_app. tauto.
Qed.

Lemma filter_members_out (ks l : list string) :
  l ⊆ ks -> filter (fun x => x ∉ ks) l = [].
Proof.
  induction l as [|x l IH]; [done|]. intros Hsub. rewrite filter_cons.
  rewrite decide_False.
  - apply IH. intros y Hy. by apply Hsub, list_elem_of_further.
  - intros Hx. apply Hx, Hsub, list_elem_of_here.
Qed.

Lemma filter_twice (ks l : list string) :
  filter (fun x => x ∉ ks) (filter (fun x => x ∉ ks) l) = filter (fun x => x ∉ ks) l.
Proof.
  induction l as [|x l IH]; [done|]. rewrite filter_cons.
  destruct (decide (x ∉ ks)) as [H|H]; [|done].
  by rewrite filter_cons, decide_True, IH.
Qed.

(** The merge key by key. *)
Lemma merge_loop_get items a k :
  NoDup (keys items) ->
  dict_get (merge_loop items a) k =
  match dict_get items k with
  | None => dict_get a k
  | Some v => Some (merged_value v (dict_get a k))
  end.
Proof.
  revert a. induction items as [|[k0 v0] rest IH]; intros a Hnd; [done|].
  cbn [keys map fst] in Hnd. apply NoDup_cons in Hnd as [Hk0 Hnd].
  rewrite merge_loop_cons, IH by done. cbn [dict_get]. rewrite get_set.
  case_bool_decide as E.
  - subst k0. apply get_none in Hk0. by rewrite Hk0.
  - done.
Qed.

Lemma merge_loop_keys items a :
  NoDup (keys items) ->
  keys (merge_loop items a) =
  keys a ++ filter (fun k => k ∉ keys a) (keys items).
Proof.
  revert a. induction items as [|[k0 v0] rest IH]; intros a Hnd.
  { cbn. by rewrite app_nil_r. }
  cbn [keys map fst] in Hnd. apply NoDup_cons in Hnd as [Hk0 Hnd].
  rewrite merge_loop_cons, IH by done. rewrite keys_set.
  cbn [keys map fst]. fold (keys rest). rewrite filter_cons.
  case_bool_decide as E.
  - by rewrite decide_False by tauto.
  - rewrite decide_True by done. rewrite <- app_assoc. cbn [app]. do 2 f_equal.
    by apply filter_not_in_snoc.
Qed.

Lemma merge_loop_nodup items a :
  NoDup (keys items) -> NoDup (keys a) -> NoDup (keys (merge_loop items a)).
Proof.
  intros Hi Ha. rewrite merge_loop_keys by done. apply NoDup_app.
  split; [done|split].
  - intros x Hx [Hn _]%list_elem_of_filter. done.
  - by apply NoDup_filter.
Qed.

(** Two dicts with the same keys in the same order and the same values. *)
Lemma dict_ext (d1 d2 : dict) :
  NoDup (keys d1) -> keys d1 = keys d2 ->
  (∀ k, dict_get d1 k = dict_get d2 k) -> d1 = d2.
Proof.
  revert d2. induction d1 as [|[k v] r IH]; intros [|[k2 v2] r2] Hnd Hk Hg; try done.
  cbn [keys map fst] in Hk, Hnd. injection Hk as <- Hk.
  apply NoDup_cons in Hnd as [Hk1 Hnd].
  pose proof (Hg k) as Hv. cbn [dict_get] in Hv.
  rewrite !bool_decide_eq_true_2 in Hv by done. injection Hv as <-.
  f_equal. apply IH; [done|done|]. intros k'. specialize (Hg k'). cbn [dict_get] in Hg.
  case_bool_decide as E; [|done]. subst k'.
  apply get_none in Hk1 as H1. rewrite H1. symmetry. apply get_none.
  unfold keys. by rewrite <- Hk.
Qed.

Lemma get_in (d : dict) k v : NoDup (keys d) -> (k, v) ∈ d -> dict_get d k = Some v.
Proof.
  induction d as [|[k0 v0] rest IH]; intros Hnd Hin; [by apply elem_of_nil in Hin|].
  cbn [keys map fst] in Hnd. apply NoDup_cons in Hnd as [Hk0 Hnd].
  apply elem_of_cons in Hin as [[= <- <-]|Hin]; cbn [dict_get].
  - by rewrite bool_decide_eq_true_2.
  - rewrite bool_decide_eq_false_2; [by apply IH|]. intros ->.
    apply Hk0. apply list_elem_of_fmap. by exists (k, v).
Qed.

Lemma in_get (d : dict) k v : dict_get d k = Some v -> (k, v) ∈ d.
Proof.
  induction d as [|[k0 v0] rest IH]; cbn [dict_get]; [done|].
  case_bool_decide as E.
  - intros [= <-]. subst. apply list_elem_of_here.
  - intros H. by apply list_elem_of_further, IH.
Qed.

Lemma set_same d k v : dict_get d k = Some v -> dict_set d k v = d.
Proof.
  induction d as [|[k0 v0] rest IH]; cbn [dict_get dict_set]; [done|].
  case_bool_decide as E.
  - intros [= <-]. by subst.
  - intros H. by rewrite IH.
Qed.

Lemma wf_dict_iff d :
  wf_dict d <-> NoDup (keys d) ∧ Forall (fun kv : string * json => wf_json kv.2) d.
Proof.
  unfold wf_dict. cbn [wf_json]. fold (keys d).
  assert ((fix all (items : list (string * json)) : Prop :=
             match items with
             | [] => True
             | (_, v) :: rest => wf_json v ∧ all rest
             end) d <-> Forall (fun kv : string * json => wf_json kv.2) d) as ->; [|done].
  induction d as [|[k v] rest IH]; [by split; [constructor|]|].
  rewrite Forall_cons, IH. done.
Qed.

Lemma wf_get d k v : wf_dict d -> dict_get d k = Some v -> wf_json v.
Proof.
  intros [_ Hall]%wf_dict_iff Hg%in_get.
  by apply (proj1 (Forall_forall _ _) Hall (k, v)).
Qed.

Lemma wf_set d k v : wf_dict d -> wf_json v -> wf_dict (dict_set d k v).
Proof.
  rewrite !wf_dict_iff. intros [Hnd Hall] Hv. split; [by apply set_nodup|].
  clear Hnd. induction Hall as [|[k0 v0] rest H0 Hall IH]; cbn [dict_set].
  - by repeat constructor.
  - case_bool_decide; by constructor.
Qed.

(** What the merge returns has no key twice either. *)
Lemma wf_merge b : ∀ a, wf_json b -> wf_dict a -> wf_dict (deep_merge_dict b a).
Proof.
  induction b as [j Hleaf|items IH] using json_dict_ind; intros a Hb Ha.
  { destruct j; try done. by destruct (Hleaf items). }
  rewrite deep_merge_dict_eq. apply wf_dict_iff in Hb as [_ Hb].
  revert a Ha. induction items as [|[k v] rest IHl]; intros a Ha; [done|].
  apply Forall_cons in IH as [IHv IHrest]. apply Forall_cons in Hb as [Hv Hrest].
  cbn [snd] in *. rewrite merge_loop_cons. apply IHl; [done|done|].
  apply wf_set; [done|]. unfold merged_value.
  destruct v; try done. destruct (dict_get a k) as [[]|] eqn:E; try done.
  apply IHv; [done|]. by apply (wf_get a k).
Qed.

(** Merging a dict into itself changes nothing. *)
Lemma merge_self j : ∀ d, j = JDict d -> wf_dict d -> merge_loop d d = d.
Proof.
  induction j as [j Hleaf|items IH] using json_dict_ind; intros d Hj Hd.
  { by destruct (Hleaf d). }
  injection Hj as <-. apply wf_dict_iff in Hd as [Hnd Hwf].
  assert (∀ rest, rest ⊆ items -> merge_loop rest items = items) as Hloop;
    [|by apply Hloop].
  induction rest as [|[k v] rest IHr]; intros Hsub; [done|].
  rewrite merge_loop_cons.
  assert ((k, v) ∈ items) as Hin by (apply Hsub, list_elem_of_here).
  rewrite (get_in items k v) by done.
  assert (merged_value v (Some v) = v) as ->.
  { destruct v; try done. cbn [merged_value]. rewrite deep_merge_dict_eq. f_equal.
    apply (proj1 (Forall_forall _ _) IH (k, JDict items0) Hin); [done|].
    apply (proj1 (Forall_forall _ _) Hwf (k, JDict items0) Hin). }
  rewrite set_same by by apply get_in.
  apply IHr. intros x Hx. by apply Hsub, list_elem_of_further.
Qed.

Lemma merged_self v : wf_json v -> merged_value v (Some v) = v.
Proof.
  destruct v; try done. intros Hv. cbn [merged_value].
  rewrite deep_merge_dict_eq. f_equal. by apply (merge_self (JDict items)).
Qed.

(** Merging the result into the first dict again changes nothing. *)
Lemma merge_again b :
  ∀ a, wf_json b -> wf_dict a ->
       merge_loop (deep_merge_dict b a) a = deep_merge_dict b a.
Proof.
  induction b as [j Hleaf|items IH] using json_dict_ind; intros a Hb Ha.
  { assert (deep_merge_dict j a = a) as ->.
    { destruct j; try done. by destruct (Hleaf items). }
    by apply (merge_self (JDict a)). }
  rewrite deep_merge_dict_eq.
  pose proof Hb as [Hndi Hwfi]%wf_dict_iff. pose proof Ha as [Hnda Hwfa]%wf_dict_iff.
  assert (NoDup (keys (merge_loop items a))) as Hndr by by apply merge_loop_nodup.
  apply dict_ext.
  - by apply merge_loop_nodup.
  - rewrite merge_loop_keys by done. rewrite (merge_loop_keys items a) by done.
    f_equal. rewrite filter_app.
    rewrite filter_members_out by done. cbn [app]. apply filter_twice.
  - intros k. rewrite merge_loop_get by done. rewrite (merge_loop_get items a) by done.
    destruct (dict_get items k) as [v|] eqn:Ei.
    + f_equal. unfold merged_value at 1 3.
      destruct v; try done.
      destruct (dict_get a k) as [va|] eqn:Ea; [|done].
      destruct va; try done. cbn [merged_value]. f_equal.
      rewrite (deep_merge_dict_eq (deep_merge_dict _ _)).
      apply in_get in Ei as Hin.
      apply (proj1 (Forall_forall _ _) IH (k, JDict items0) Hin).
      * apply (proj1 (Forall_forall _ _) Hwfi (k, JDict items0) Hin).
      * by apply (wf_get a k).
    + destruct (dict_get a k) as [va|] eqn:Ea; [|done].
      f_equal. apply merged_self. by apply (wf_get a k).
Qed.

Lemma merge_loop_keeps_keys items a k : k ∈ keys a -> k ∈ keys (merge_loop items a).
Proof.
  revert a. induction items as [|[k0 v0] rest IH]; intros a Hk; [done|].
  rewrite merge_loop_cons. apply IH. rewrite keys_set.
  case_bool_decide; [done|]. apply elem_of_app. by left.
Qed.

Lemma covers_iff items ritems :
  covers (JDict items) (JDict ritems) <->
  Forall (fun kv : string * json =>
            ∃ v', dict_get ritems kv.1 = Some v' ∧
                  match kv.2 with JDict _ => covers kv.2 v' | _ => True end) items.
Proof.
  cbn [covers]. induction items as [|[k v] rest IH]; [by split; [constructor|]|].
  rewrite Forall_cons, IH. done.
Qed.

Lemma fits_iff bitems aitems :
  fits (JDict bitems) (JDict aitems) <->
  Forall (fun kv : string * json =>
            match dict_get aitems kv.1 with
            | Some ak => fits kv.2 ak
            | None => True
            end) bitems.
Proof.
  cbn [fits]. induction bitems as [|[k v] rest IH]; [by split; [constructor|]|].
  rewrite Forall_cons, IH. done.
Qed.

Lemma covers_refl j : wf_json j -> covers j j.
Proof.
  induction j as [j Hleaf|items IH] using json_dict_ind; intros Hwf.
  { destruct j; try done. by destruct (Hleaf items). }
  apply wf_dict_iff in Hwf as [Hnd Hwf]. apply covers_iff, Forall_forall.
  intros [k v] Hin. exists v. split; [by apply get_in|]. cbn [snd].
  destruct v; try done.
  apply (proj1 (Forall_forall _ _) IH (k, JDict items0) Hin).
  apply (proj1 (Forall_forall _ _) Hwf (k, JDict items0) Hin).
Qed.

(** When [b] has dicts where [a] has them, no key of [a] is lost. *)
Lemma covers_merge b :
  ∀ a, wf_json b -> wf_dict a -> fits b (JDict a) ->
       covers (JDict a) (JDict (deep_merge_dict b a)).
Proof.
  induction b as [j Hleaf|items IH] using json_dict_ind; intros a Hb Ha Hfit.
  { destruct j; try done. by destruct (Hleaf items). }
  rewrite deep_merge_dict_eq.
  pose proof Hb as [Hndi Hwfi]%wf_dict_iff. pose proof Ha as [Hnda Hwfa]%wf_dict_iff.
  apply fits_iff in Hfit. apply covers_iff, Forall_forall.
  intros [k va] Hina. cbn [fst snd]. rewrite merge_loop_get by done.
  rewrite (get_in a k va) by done.
  assert (wf_json va) as Hva by apply (proj1 (Forall_forall _ _) Hwfa (k, va) Hina).
  destruct (dict_get items k) as [v|] eqn:Ei.
  - eexists. split; [done|]. destruct va; try done.
    apply in_get in Ei as Hin.
    pose proof (proj1 (Forall_forall _ _) Hfit (k, v) Hin) as Hf. cbn [fst snd] in Hf.
    rewrite (get_in a k (JDict items0)) in Hf by done.
    destruct v; try done. cbn [merged_value].
    apply (proj1 (Forall_forall _ _) IH (k, JDict items1) Hin); [|done|done].
    apply (proj1 (Forall_forall _ _) Hwfi (k, JDict items1) Hin).
  - exists va. split; [done|]. destruct va; try done. by apply covers_refl.
Qed.

Lemma wf_defaults : wf_dict DEFAULTS_JSON.
Proof.
  unfold wf_dict, DEFAULTS_JSON. cbn [wf_json map fst].
  repeat split; apply (bool_decide_unpack _); vm_compute; exact I.
Qed.

(** X23: [_deep_merge] key by key.  When [b] is a dict, the value under a
    key is that of [a] where [b] has none; where both have a dict it is
    the merge of the two; anywhere else it is that of [b], be it a dict or
    not.  The keys of [a] keep their order and the new keys of [b] follow
    in the order of [b].  The call raises exactly for a [b] that is truthy
    and not a dict. *)
Theorem deep_merge_by_key items a :
  NoDup (keys items) ->
  deep_merge a (JDict items) = Some (deep_merge_dict (JDict items) a) ∧
  (∀ k, dict_get (deep_merge_dict (JDict items) a) k =
        match dict_get items k with
        | None => dict_get a k
        | Some v => Some (merged_value v (dict_get a k))
        end) ∧
  keys (deep_merge_dict (JDict items) a) =
    keys a ++ filter (fun k => k ∉ keys a) (keys items) ∧
  (∀ b, deep_merge a b = None <->
        json_truthy b = true ∧ ∀ its, b <> JDict its).
Proof.
  intros Hnd. split; [by destruct items|split; [|split]].
  - intros k. by apply merge_loop_get.
  - by apply merge_loop_keys.
  - intros b. unfold deep_merge. destruct (json_truthy b) eqn:Ht; cbn [negb].
    + destruct b; split; try done; try (by intros [_ H]; destruct (H items0)).
      all: by intros _; split.
    + split; [done|]. by intros [? _].
Qed.

Lemma deep_merge_by_key_witness :
  let items := [("timings", JDict [("td_pre_ms", JNum 12)]); ("theme", JStr "dark")] in
  let a := DEFAULTS_JSON in
  deep_merge a (JDict items) = Some (deep_merge_dict (JDict items) a) ∧
  (∀ k, dict_get (deep_merge_dict (JDict items) a) k =
        match dict_get items k with
        | None => dict_get a k
        | Some v => Some (merged_value v (dict_get a k))
        end) ∧
  keys (deep_merge_dict (JDict items) a) =
    keys a ++ filter (fun k => k ∉ keys a) (keys items) ∧
  (∀ b, deep_merge a b = None <->
        json_truthy b = true ∧ ∀ its, b <> JDict its).
Proof.
  refine (deep_merge_by_key
            [("timings", JDict [("td_pre_ms", JNum 12)]); ("theme", JStr "dark")]
            DEFAULTS_JSON _).
  apply (bool_decide_unpack _). vm_compute. exact I.
Defined.

Lemma reg_load_cases stored :
  reg_load stored = DEFAULTS_JSON ∨
  ∃ items, stored = Some (JDict items) ∧
           reg_load stored = deep_merge_dict (JDict items) DEFAULTS_JSON.
Proof.
  destruct stored as [data|]; [|by left]. unfold reg_load, deep_merge.
  destruct (json_truthy data); cbn [negb default from_option id]; [|by left].
  destruct data; try (by left). right. by eexists.
Qed.

(** X24: what [_reg_load] returns has every top-level key of [DEFAULTS],
    whatever the registry holds.  When the stored value has no key twice
    and has a dict wherever [DEFAULTS] has one, every key of [DEFAULTS]
    is there at every depth.  But a stored value that is not a dict is
    taken as it is, also where [DEFAULTS] has a dict: a stored
    ["timings": 5] leaves the state without its timings. *)
Theorem reg_load_keeps_defaults stored :
  (∀ k, k ∈ keys DEFAULTS_JSON -> k ∈ keys (reg_load stored)) ∧
  (∀ data, stored = Some data -> wf_json data -> fits data (JDict DEFAULTS_JSON) ->
           covers (JDict DEFAULTS_JSON) (JDict (reg_load stored))) ∧
  (∀ items k v, stored = Some (JDict items) -> NoDup (keys items) ->
                dict_get items k = Some v -> (∀ its, v <> JDict its) ->
                dict_get (reg_load stored) k = Some v).
Proof.
  split; [|split].
  - intros k Hk. destruct (reg_load_cases stored) as [-> |(items & _ & ->)]; [done|].
    rewrite deep_merge_dict_eq. by apply merge_loop_keeps_keys.
  - intros data -> Hwf Hfit.
    destruct (reg_load_cases (Some data)) as [-> |(items & [= ->] & ->)].
    + apply covers_refl, wf_defaults.
    + apply covers_merge; [done|apply wf_defaults|done].
  - intros items k v -> Hnd Hget Hleaf. unfold reg_load, deep_merge.
    destruct items as [|kv rest]; [done|].
    cbn [json_truthy negb default from_option id].
    rewrite deep_merge_dict_eq, merge_loop_get, Hget by done.
    f_equal. destruct v; try done. by destruct (Hleaf items).
Qed.

(** X25: saving what was loaded and loading it again gives the same
    state, keys in the same order: when the stored value has no key twice,
    [_reg_load] of the dict [_reg_load] returned is that dict. *)
Theorem save_then_load stored :
  match stored with Some data => wf_json data | None => True end ->
  reg_load (Some (JDict (reg_load stored))) = reg_load stored.
Proof.
  intros Hwf.
  assert (∀ r, r <> [] -> wf_dict r -> merge_loop r DEFAULTS_JSON = r ->
               reg_load (Some (JDict r)) = r) as Hload.
  { intros r Hne _ Hr. unfold reg_load, deep_merge.
    destruct r as [|kv rest]; [done|]. cbn [json_truthy negb default from_option id].
    by rewrite deep_merge_dict_eq. }
  destruct (reg_load_cases stored) as [-> |(items & -> & ->)].
  - apply Hload; [done|apply wf_defaults|]. apply (merge_self (JDict DEFAULTS_JSON)); [done|].
    apply wf_defaults.
  - apply Hload.
    + intros Hnil. assert ("timings" ∈ keys (deep_merge_dict (JDict items) DEFAULTS_JSON)) as H.
      { rewrite deep_merge_dict_eq. apply merge_loop_keeps_keys.
        apply (bool_decide_unpack _). vm_compute. exact I. }
      rewrite Hnil in H. by apply elem_of_nil in H.
    + apply wf_merge; [done|apply wf_defaults].
    + apply merge_again; [done|apply wf_defaults].
Qed.

Lemma save_then_load_witness :
  let stored := Some (JDict [("timings", JDict [("td_pre_ms", JNum 12)]);
                             ("hotkeys", JNum 5); ("theme", JStr "dark")]) in
  reg_load (Some (JDict (reg_load stored))) = reg_load stored.
Proof.
  refine (save_then_load
            (Some (JDict [("timings", JDict [("td_pre_ms", JNum 12)]);
                          ("hotkeys", JNum 5); ("theme", JStr "dark")])) _).
  cbn [wf_json map fst].
  repeat split; apply (bool_decide_unpack _); vm_compute; exact I.
Defined.

End RegistryExtras.
(** ** Telemetry *)

Section TelemetryExtras.
Import Py PyFacts.

Lemma hex_char_plain c : is_hex_char c = true -> isspace c = false.
Proof. by_cases_on_char c. Qed.

Lemma hex_last_ok s :
  all_chars is_hex_char s = true -> s <> "" -> last_ok s = true.
Proof.
  induction s as [|c r IH]; [done|]. cbn [all_chars]. intros Hc _.
  apply andb_prop in Hc as [Hc Hr]. destruct r as [|c' r'].
  - cbn. by rewrite (hex_char_plain c Hc).
  - change (last_ok (String c (String c' r'))) with (last_ok (String c' r')).
    by apply IH.
Qed.

Lemma uuid_hex_plain f : uuid_hex f = true -> strip f = f ∧ truthy f = true.
Proof.
  unfold uuid_hex. intros H. apply andb_prop in H as [Hlen Hall].
  destruct f as [|c r]; [done|]. split; [|done].
  apply trimmed_strip.
  - cbn in Hall. apply andb_prop in Hall as [Hc _]. cbn. by rewrite (hex_char_plain c Hc).
  - by apply hex_last_ok.
Qed.

Lemma install_is_install iid : is_install (Post (install_msg iid)) = true.
Proof. reflexivity. Qed.

Lemma daily_is_not_install iid d : is_install (Post (daily_msg iid d)) = false.
Proof. reflexivity. Qed.

Lemma eqb_false_ne (a b : string) : String.eqb a b = false -> a <> b.
Proof. intros H ->. by rewrite String.eqb_refl in H. Qed.

Ltac tel_cbn :=
  cbn [negb default from_option id tel_enabled install_id installed_sent
       last_daily_ymd fst snd app List.filter length empty_tel andb];
  rewrite ?install_is_install, ?daily_is_not_install;
  cbn [negb default from_option id tel_enabled install_id installed_sent
       last_daily_ymd fst snd app List.filter length empty_tel andb].

Ltac tel_close :=
  repeat split; intros; try done; try lia;
  try (repeat constructor; cbn [post_of]; eauto; fail).

(** One tick. *)
Lemma tick_spec f d st :
  uuid_hex f = true ->
  let r := startup_tick f d st in
  opted_in r.1 = opted_in st ∧
  (opted_in st = false -> r = (st, [])) ∧
  (opted_in st = true ->
   settled r.1 = true ∧ default "" (last_daily_ymd (default empty_tel r.1)) = d) ∧
  (truthy (iid_of st) = true -> iid_of r.1 = iid_of st) ∧
  Forall (post_of (iid_of r.1)) r.2 ∧
  (length (List.filter is_install r.2) <= 1)%nat ∧
  (settled st = true -> List.filter is_install r.2 = [] ∧ settled r.1 = true) ∧
  (settled st = true -> default "" (last_daily_ymd (default empty_tel st)) = d ->
   r = (st, [])).
Proof.
  intros Hf. destruct (uuid_hex_plain f Hf) as [Hstrip Htruthy].
  unfold startup_tick, ensure_install_id, opted_in, settled, iid_of.
  destruct st as [[en sid sent day]|]; tel_cbn; [|tel_close].
  destruct en as [[]|]; tel_cbn; [|tel_close..].
  destruct (truthy (strip (default "" sid))) eqn:Hid; tel_cbn.
  - destruct (default false sent) eqn:Hsent; tel_cbn;
      destruct (String.eqb (default "" day) d) eqn:Hday; tel_cbn;
      rewrite ?Hid, ?Hsent; tel_close.
    all: try (by apply eqb_false_ne in Hday).
    all: try (by apply String.eqb_eq in Hday).
  - rewrite ?Hstrip, ?Htruthy.
    destruct (String.eqb (default "" day) d) eqn:Hday; tel_cbn;
      rewrite ?Hstrip, ?Htruthy; tel_close.
    by apply String.eqb_eq in Hday.
Qed.

Lemma read_ui_spec v st :
  opted_in (read_ui_telemetry v st) = v ∧
  iid_of (read_ui_telemetry v st) = iid_of st ∧
  settled (read_ui_telemetry v st) = settled st ∧
  default "" (last_daily_ymd (default empty_tel (read_ui_telemetry v st))) =
  default "" (last_daily_ymd (default empty_tel st)).
Proof. by destruct st as [[en [sid|] [sent|] [day|]]|]. Qed.

Lemma saved_app ev1 ev2 d : saved (ev1 ++ ev2) d = saved ev2 (saved ev1 d).
Proof. apply fold_left_app. Qed.

(** A stretch of the program, run on its state, is a step of the program
    and the registry. *)
Lemma on_cur_ok p : phase_ok p -> saves_ok p -> world_ok (on_cur p).
Proof.
  intros Hp Hs w Hc. unfold on_cur.
  specialize (Hp (cur w)). specialize (Hs (cur w) (disk w) Hc).
  destruct (p (cur w)) as [c evs]. cbn [fst snd cur disk] in *. by split.
Qed.

Lemma on_cur_seq p q w :
  on_cur (phase_seq p q) w = world_seq (on_cur p) (on_cur q) w.
Proof.
  unfold on_cur, phase_seq, world_seq.
  destruct (p (cur w)) as [st1 ev1]. cbn [cur disk].
  destruct (q st1) as [st2 ev2]. by rewrite saved_app.
Qed.

Lemma world_ext f g : (∀ w, g w = f w) -> world_ok f -> world_ok g.
Proof. intros Heq Hf w. rewrite Heq. apply Hf. Qed.

(** One step after another. *)
Lemma world_seq_ok f g : world_ok f -> world_ok g -> world_ok (world_seq f g).
Proof.
  intros Hf Hg w Hc. unfold world_seq.
  destruct (Hf w Hc) as (Sc & Sid & Sposts & Spost & Sone & Sinst & Sset).
  destruct (f w) as [w1 ev1]. cbn [fst snd] in *.
  destruct (Hg w1 Sc) as (Rc & Rid & Rposts & Rpost & Rone & Rinst & Rset).
  destruct (g w1) as [w2 ev2]. cbn [fst snd] in *.
  rewrite !List.filter_app, !length_app.
  assert (List.filter is_post ev1 <> [] -> iid_of (cur w2) = iid_of (cur w1)) as Hkeep.
  { intros H. by apply Rid, Spost. }
  split; [done|split; [|split; [|split; [|split; [|split]]]]].
  - intros Hid. rewrite Rid; [by apply Sid|]. by rewrite Sid.
  - apply Forall_app. split; [|done].
    destruct (List.filter is_post ev1) as [|x xs] eqn:Hx.
    + apply Forall_forall. intros [c|t] Hin; [|done].
      assert (In (Post c) (List.filter is_post ev1)) as Hin'.
      { apply filter_In. split; [by apply list_elem_of_In|done]. }
      rewrite Hx in Hin'. destruct Hin'.
    + by rewrite Hkeep.
  - intros Hne. destruct (List.filter is_post ev1) as [|x xs] eqn:Hx.
    + by apply Rpost.
    + rewrite Hkeep by done. by apply Spost.
  - destruct (List.filter is_install ev1) as [|x xs] eqn:Hx; [cbn; lia|].
    destruct (Rset (Sinst ltac:(done))) as [-> _]. cbn in *. lia.
  - intros Hne. destruct (List.filter is_install ev1) as [|x xs] eqn:Hx.
    + by apply Rinst.
    + by apply Rset, Sinst.
  - intros Hs. destruct (Sset Hs) as [-> Hs1]. destruct (Rset Hs1) as [-> Hs2]. done.
Qed.

Lemma tick_phase f d : uuid_hex f = true -> phase_ok (startup_tick f d).
Proof.
  intros Hf st.
  destruct (tick_spec f d st Hf) as (_ & Hoff & Hon & Hid & Hposts & Hone & Hset & _).
  assert ((List.filter is_post (startup_tick f d st).2 <> [] ->
           truthy (iid_of (startup_tick f d st).1) = true) ∧
          (List.filter is_install (startup_tick f d st).2 <> [] ->
           settled (startup_tick f d st).1 = true)) as [Hp Hi].
  { destruct (opted_in st) eqn:Hopt.
    - destruct (Hon eq_refl) as [Hs _]. split; [|done]. intros _.
      unfold settled in Hs. by apply andb_prop in Hs as [Hs _].
    - rewrite (Hoff eq_refl). by split. }
  repeat split; try done; by apply Hset.
Qed.

Lemma enforce_phase f : uuid_hex f = true -> phase_ok (enforce_install_id f).
Proof.
  intros Hf st. destruct (uuid_hex_plain f Hf) as [Hstrip Htruthy].
  unfold enforce_install_id, settled, iid_of.
  destruct st as [[en sid sent day]|]; tel_cbn.
  - destruct (truthy (strip (default "" sid))) eqn:Hid; tel_cbn;
      rewrite ?Hid, ?Hstrip, ?Htruthy; tel_close.
  - change (strip "") with "". cbn [truthy negb]. tel_cbn.
    rewrite ?Hstrip, ?Htruthy. tel_close.
Qed.

Lemma read_phase v :
  phase_ok (fun st => (read_ui_telemetry v st, [SaveState (read_ui_telemetry v st)])).
Proof.
  intros st. destruct (read_ui_spec v st) as (_ & Rid & Rset & _).
  cbn [fst snd List.filter is_post is_install length]. rewrite Rid, Rset.
  tel_close.
Qed.

Lemma reset_phase f : phase_ok (reset_click f).
Proof.
  intros st. unfold reset_click, read_ui_telemetry, settled, iid_of.
  destruct st as [[en [sid|] sent day]|]; tel_cbn;
    try destruct (truthy sid) eqn:Hid; tel_cbn; tel_close.
  all: try (destruct sid; [done|]; cbn in *; congruence).
Qed.

(** A change in the window and the hotkey of [toggle_all] post nothing
    and leave the id and the record of the install message. *)
Lemma change_phase v : phase_ok (fun st => (read_ui_telemetry (v st) st, [])).
Proof.
  intros st. destruct (read_ui_spec (v st) st) as (_ & Rid & Rset & _).
  cbn [fst snd List.filter is_post is_install length]. rewrite Rid, Rset.
  tel_close.
Qed.

Lemma toggle_phase : phase_ok (fun st => (st, [SaveState st])).
Proof. intros st. cbn [fst snd List.filter is_post is_install length]. tel_close. Qed.

(** What each stretch saves. *)
Lemma tick_saves f d : saves_ok (startup_tick f d).
Proof.
  intros st dk Hc. unfold startup_tick, ensure_install_id.
  destruct st as [[en sid sent day]|]; tel_cbn; [|done].
  destruct en as [[]|]; tel_cbn; try done.
  destruct (truthy (strip (default "" sid))); tel_cbn;
    destruct (default false sent); tel_cbn;
    destruct (String.eqb (default "" day) d); tel_cbn; cbn [saved fold_left];
    done.
Qed.

Lemma enforce_saves f : saves_ok (enforce_install_id f).
Proof.
  intros st dk Hc. unfold enforce_install_id.
  destruct (negb (truthy (strip (default "" (install_id (default empty_tel st))))));
    by cbn [fst snd saved fold_left].
Qed.

Lemma read_saves v :
  saves_ok (fun st => (read_ui_telemetry v st, [SaveState (read_ui_telemetry v st)])).
Proof. by intros st dk Hc. Qed.

Lemma change_saves v : saves_ok (fun st => (read_ui_telemetry (v st) st, [])).
Proof.
  intros st dk [Hid Hs]. destruct (read_ui_spec (v st) st) as (_ & Rid & Rset & _).
  cbn [fst snd saved fold_left]. split; congruence.
Qed.

Lemma reset_saves f : saves_ok (reset_click f).
Proof. by intros st dk Hc. Qed.

Lemma toggle_saves : saves_ok (fun st => (st, [SaveState st])).
Proof. by intros st dk Hc. Qed.

(** What [_reg_load] returns has the id and the record the registry has. *)
Lemma load_spec d :
  iid_of (load_telemetry d) = iid_of d ∧ settled (load_telemetry d) = settled d ∧
  opted_in (load_telemetry d) = opted_in d.
Proof. by destruct d as [[en [sid|] [sent|] [day|]]|]. Qed.

Lemma load_ok : world_ok (fun w => (load_state w, [])).
Proof.
  intros w [Hid Hs]. destruct (load_spec (disk w)) as (Lid & Ls & _).
  cbn [fst snd load_state cur disk List.filter length]. unfold coherent.
  rewrite Lid, Ls, Hid, Hs. tel_close.
Qed.

(** One step of the program. *)
Lemma step_world s : fresh_ok s -> world_ok (world_step s).
Proof.
  destruct s as [f1 f2 d|v f d|v|f|]; unfold fresh_ok; cbn [fresh_of world_step].
  - intros [H1 [H2 _]%Forall_cons]%Forall_cons.
    set (sync := fun st => (read_ui_telemetry (opted_in st) st, @nil tel_event)).
    apply (world_ext
             (world_seq (fun w => (load_state w, []))
                (on_cur (phase_seq (enforce_install_id f1)
                                   (phase_seq sync (startup_tick f2 d)))))).
    + intros w. unfold world_seq. cbn [world_step].
      assert (∀ st, app_start f1 f2 d st =
                    phase_seq (enforce_install_id f1)
                              (phase_seq sync (startup_tick f2 d)) st) as Heq.
      { intros st. unfold app_start, phase_seq, sync, opted_in.
        destruct (enforce_install_id f1 st) as [st1 ev1]. cbv beta iota zeta.
        by destruct (startup_tick f2 d _). }
      unfold on_cur. rewrite Heq.
      by destruct (phase_seq _ _ (cur (load_state w))).
    + apply world_seq_ok; [apply load_ok|].
      apply (world_ext _ _ (on_cur_seq _ _)).
      apply world_seq_ok; [apply on_cur_ok; auto using enforce_phase, enforce_saves|].
      apply (world_ext _ _ (on_cur_seq _ _)).
      apply world_seq_ok; apply on_cur_ok; auto using tick_phase, tick_saves.
      * apply (change_phase opted_in).
      * apply (change_saves opted_in).
  - intros [H1 _]%Forall_cons.
    apply (world_ext
             (world_seq
                (on_cur (fun st => (read_ui_telemetry v st,
                                    [SaveState (read_ui_telemetry v st)])))
                (on_cur (startup_tick f d)))).
    + intros w. rewrite <- on_cur_seq. cbn [world_step].
      unfold on_cur, save_click, phase_seq.
      cbv beta iota zeta.
      by destruct (startup_tick f d (read_ui_telemetry v (cur w))).
    + apply world_seq_ok; apply on_cur_ok;
        auto using read_phase, tick_phase, read_saves, tick_saves.
  - intros _. apply on_cur_ok;
      [apply (change_phase (fun _ => v))|apply (change_saves (fun _ => v))].
  - intros _. apply on_cur_ok; [apply reset_phase|apply reset_saves].
  - intros _. apply on_cur_ok; [apply toggle_phase|apply toggle_saves].
Qed.

(** Any number of steps. *)
Lemma run_world steps : Forall fresh_ok steps -> world_ok (world_run steps).
Proof.
  induction steps as [|s rest IH]; intros Hfresh.
  { intros w Hc. cbn [world_run fst snd List.filter length]. split; [done|]. tel_close. }
  apply Forall_cons in Hfresh as [Hs Hrest].
  apply (world_ext (world_seq (world_step s) (world_run rest)));
    [intros w; reflexivity|].
  apply world_seq_ok; [by apply step_world|by apply IH].
Qed.

Lemma tick_off f d st : opted_in st = false -> startup_tick f d st = (st, []).
Proof.
  unfold startup_tick, opted_in. by intros ->.
Qed.

Lemma step_off s w :
  switch_off s -> opted_in (cur w) = false -> opted_in (disk w) = false ->
  List.filter is_post (world_step s w).2 = [] ∧
  opted_in (cur (world_step s w).1) = false ∧
  opted_in (disk (world_step s w).1) = false.
Proof.
  destruct w as [st dk].
  destruct s as [f1 f2 d|v f d|v|f|]; cbn [switch_off world_step cur disk].
  - intros _ _ Hdk. unfold on_cur, load_state, app_start. cbn [cur disk].
    destruct (load_spec dk) as (_ & _ & Hoff). rewrite Hdk in Hoff.
    assert (opted_in (enforce_install_id f1 (load_telemetry dk)).1 = false ∧
            List.filter is_post (enforce_install_id f1 (load_telemetry dk)).2 = [] ∧
            opted_in (saved (enforce_install_id f1 (load_telemetry dk)).2 dk) = false)
      as (Ho & Hp & Hd).
    { revert Hoff. generalize (load_telemetry dk). intros st1 Hoff.
      unfold enforce_install_id, opted_in in *.
      destruct st1 as [[en sid sent day]|]; tel_cbn; [|done].
      by destruct (truthy (strip (default "" sid))). }
    destruct (enforce_install_id f1 (load_telemetry dk)) as [st1 ev1].
    cbn [fst snd] in *. cbv zeta. fold (opted_in st1). rewrite Ho.
    destruct (read_ui_spec false st1) as (Ropt & _).
    rewrite tick_off by done. cbn [fst snd cur disk]. by rewrite app_nil_r.
  - intros -> _ Hdk. unfold on_cur, save_click. cbn [cur disk].
    destruct (read_ui_spec false st) as (Ropt & _).
    rewrite tick_off by done. by cbn.
  - intros -> _ Hdk. unfold on_cur. cbn [cur disk fst snd saved fold_left].
    by destruct (read_ui_spec false st) as (Ropt & _).
  - intros _ Hoff _. unfold on_cur, reset_click, read_ui_telemetry, opted_in in *.
    cbn [cur disk]. by destruct st as [[en sid sent day]|]; tel_cbn.
  - intros _ Hoff _. by unfold on_cur.
Qed.

(** A tick on a state that has its id and has sent the install message. *)
Lemma tick_settled f d st :
  opted_in st = true -> settled st = true ->
  let tel := default empty_tel st in
  startup_tick f d st =
  if String.eqb (default "" (last_daily_ymd tel)) d then (st, [])
  else
    let t := Tel (tel_enabled tel) (install_id tel) (installed_sent tel) (Some d) in
    (Some t, [Post (daily_msg (iid_of st) d); SaveState (Some t)]).
Proof.
  unfold startup_tick, ensure_install_id, opted_in, settled, iid_of.
  destruct st as [[[[]|] sid [[]|] day]|]; tel_cbn; try done.
  all: try (intros _ H; by apply andb_prop in H as [_ ?]).
  intros _ H. apply andb_prop in H as [H _]. rewrite H. tel_cbn.
  by destruct (String.eqb (default "" day) d).
Qed.

(** X20: telemetry is opt-in.  As long as neither the state nor the
    registry has telemetry switched on, and the telemetry box is not
    ticked whenever the program reads the window (at a click on Save and
    at a change in the window), nothing is posted and the switch stays
    off in the state and in the registry, however often the program is
    started, saved, changed, reset and toggled by its hotkey (a start
    gives the state an id all the same, and saves it). *)
Theorem telemetry_is_opt_in steps w :
  Forall switch_off steps ->
  opted_in (cur w) = false -> opted_in (disk w) = false ->
  let r := world_run steps w in
  List.filter is_post r.2 = [] ∧
  opted_in (cur r.1) = false ∧ opted_in (disk r.1) = false.
Proof.
  revert w. induction steps as [|s rest IH]; intros w Hall Hoff Hdk; [done|].
  apply Forall_cons in Hall as [Hs Hall]. cbn [world_run].
  destruct (step_off s w Hs Hoff Hdk) as (Hp & Ho & Hd).
  destruct (world_step s w) as [w1 ev1]. cbn [fst snd] in *.
  destruct (IH w1 Hall Ho Hd) as (Hp2 & Ho2 & Hd2).
  destruct (world_run rest w1) as [w2 ev2]. cbn [fst snd] in *.
  by rewrite List.filter_app, Hp, Hp2.
Qed.

Lemma telemetry_is_opt_in_witness :
  let steps := [Start "a" "b" "2024-01-01"; Change false; Toggle;
                Save false "c" "2024-01-02"; Reset "d"; Start "e" "f" "2024-01-03"] in
  let st := Some (Tel (Some false) (Some "") (Some false) (Some "")) in
  let r := world_run steps (World st st) in
  List.filter is_post r.2 = [] ∧
  opted_in (cur r.1) = false ∧ opted_in (disk r.1) = false.
Proof.
  refine (telemetry_is_opt_in
            [Start "a" "b" "2024-01-01"; Change false; Toggle;
             Save false "c" "2024-01-02"; Reset "d"; Start "e" "f" "2024-01-03"]
            (World (Some (Tel (Some false) (Some "") (Some false) (Some "")))
                   (Some (Tel (Some false) (Some "") (Some false) (Some "")))) _ _ _).
  - by repeat constructor.
  - reflexivity.
  - reflexivity.
Defined.

(** A tick of the telemetry box that no click on Save follows is still
    saved by the hotkey of [toggle_all], and by a click on Reset: the next
    start of the program posts. *)
Example ticked_box_is_saved_without_save :
  let f := "0123456789abcdef0123456789abcdef" in
  let st := Some (Tel (Some false) (Some f) (Some false) (Some "")) in
  List.filter is_post
    (world_run [Change true; Toggle; Start f f "2024-01-01"] (World st st)).2 =
    [Post (install_msg f); Post (daily_msg f "2024-01-01")] ∧
  List.filter is_post
    (world_run [Change true; Reset f; Start f f "2024-01-01"] (World st st)).2 =
    [Post (install_msg f); Post (daily_msg f "2024-01-01")] ∧
  List.filter is_post
    (world_run [Change true; Start f f "2024-01-01"] (World st st)).2 = [].
Proof. repeat split; vm_compute; reflexivity. Qed.

(** X21: the install message is sent once.  Over any sequence of starts
    of the program, clicks on Save, changes in the window, clicks on Reset
    and uses of the hotkey of [toggle_all], from any state and with the
    switch turned on and off at will, at most one install message
    is posted, and none when the state has an id and records the message
    as sent; every message posted carries the id the state ends with, and
    an id the state has is never replaced. *)
Theorem install_message_sent_once steps st :
  Forall fresh_ok steps ->
  let r := tel_run steps st in
  (length (List.filter is_install r.2) <= 1)%nat ∧
  (settled st = true -> List.filter is_install r.2 = []) ∧
  Forall (post_of (iid_of r.1)) r.2 ∧
  (truthy (iid_of st) = true -> iid_of r.1 = iid_of st).
Proof.
  intros Hfresh r. subst r. unfold tel_run.
  destruct (run_world steps Hfresh (World st st)) as
    (_ & Hid & Hposts & _ & Hone & _ & Hset); [done|].
  destruct (world_run steps (World st st)) as [w evs]. cbn [fst snd cur] in *.
  split; [done|split; [|done]]. intros Hs. by destruct (Hset Hs).
Qed.

Lemma install_message_sent_once_witness :
  let f := "0123456789abcdef0123456789abcdef" in
  let steps := [Start f f "2024-01-01"; Change true; Toggle;
                Save true f "2024-01-02"; Reset f; Start f f "2024-01-03"] in
  let r := tel_run steps None in
  (length (List.filter is_install r.2) <= 1)%nat ∧
  (settled None = true -> List.filter is_install r.2 = []) ∧
  Forall (post_of (iid_of r.1)) r.2 ∧
  (truthy (iid_of None) = true -> iid_of r.1 = iid_of None).
Proof.
  refine (install_message_sent_once
            [Start "0123456789abcdef0123456789abcdef"
                   "0123456789abcdef0123456789abcdef" "2024-01-01";
             Change true; Toggle;
             Save true "0123456789abcdef0123456789abcdef" "2024-01-02";
             Reset "0123456789abcdef0123456789abcdef";
             Start "0123456789abcdef0123456789abcdef"
                   "0123456789abcdef0123456789abcdef" "2024-01-03"] None _).
  by repeat constructor.
Defined.

(** X22: the daily message is sent once a day.  After a tick with
    telemetry on, the state has an id, records the install message as sent
    and the day of the tick; another tick on that day posts nothing and
    saves nothing, and a tick on another day posts the daily message of
    that day and nothing else. *)
Theorem daily_message_once_a_day f1 f2 d st :
  uuid_hex f1 = true -> opted_in st = true ->
  let st1 := (startup_tick f1 d st).1 in
  settled st1 = true ∧
  startup_tick f2 d st1 = (st1, []) ∧
  (∀ d', d' <> d ->
     List.filter is_post (startup_tick f2 d' st1).2 =
       [Post (daily_msg (iid_of st1) d')] ∧
     startup_tick f2 d' (startup_tick f2 d' st1).1 =
       ((startup_tick f2 d' st1).1, [])).
Proof.
  intros Hf Hon st1. subst st1.
  destruct (tick_spec f1 d st Hf) as (Hopt & _ & Hs & _).
  destruct (Hs Hon) as [Hset Hday]. rewrite Hon in Hopt.
  destruct (startup_tick f1 d st) as [st1 ev1]. cbn [fst] in *.
  split; [done|split].
  - rewrite tick_settled by done. cbn zeta. by rewrite Hday, String.eqb_refl.
  - intros d' Hne. rewrite (tick_settled f2 d' st1) by done. cbn zeta.
    rewrite Hday. destruct (String.eqb d d') eqn:E.
    { apply String.eqb_eq in E. congruence. }
    cbn [fst snd List.filter is_post]. split; [done|].
    rewrite tick_settled.
    + cbn [default from_option id last_daily_ymd]. by rewrite String.eqb_refl.
    + unfold opted_in in *. by destruct st1.
    + unfold settled, iid_of in *. by destruct st1.
Qed.

Lemma daily_message_once_a_day_witness :
  let f := "0123456789abcdef0123456789abcdef" in
  let d := "2024-01-01" in
  let st := Some (Tel (Some true) None None None) in
  let st1 := (startup_tick f d st).1 in
  settled st1 = true ∧
  startup_tick f d st1 = (st1, []) ∧
  (∀ d', d' <> d ->
     List.filter is_post (startup_tick f d' st1).2 =
       [Post (daily_msg (iid_of st1) d')] ∧
     startup_tick f d' (startup_tick f d' st1).1 =
       ((startup_tick f d' st1).1, [])).
Proof.
  refine (daily_message_once_a_day "0123456789abcdef0123456789abcdef"
            "0123456789abcdef0123456789abcdef" "2024-01-01"
            (Some (Tel (Some true) None None None)) _ _); reflexivity.
Defined.

End TelemetryExtras.
